(** * The propagation and deduction engine of sudoku-solver, embedded in Rocq

    The Go sources modelled here are the cell (lib, [Cell]), the cell
    notifier (lib/observer), the grid (lib/board.go), the constraint
    variants (lib/constraints) and the subset-elimination engine
    ([ApplyNakedSubsets], [ApplyHiddenSubsets]).

    Conventions of the embedding.
    - A Go [int] is a [Z].  The grid guards every index it computes to
      stay within [0,80].  The cage, the renban line and the whispers line
      compute [row*9+col] from the arguments of [PropagateValueChange]
      unguarded: on [Z] that is Go's result whenever the arguments are a
      position of the grid, and what is proved of that index assumes such
      a position.
      Go's [/] and [%] truncate towards zero: they are [Z.quot] and [Z.rem].
    - Go promotes the methods of an embedded struct without dispatching
      back: a method of [BaseConstraint] that calls another method calls
      the one of [BaseConstraint], whatever variant embeds it.
    - A [*Cell] is the number of the slot it occupies in [Board.board];
      a nil slot is an absent key of the map.  Two pointers are equal when
      the slots are.  [GetCell] and [GetCellAt] return the pointer together
      with the cell it points to at that moment.
    - [map[int]bool] used as a set is a [gset Z].  Go leaves the iteration
      order of a map unspecified; wherever the sources range over a map the
      model ranges over stdpp's enumeration of it.
    - The logger is left out: it never changes the state.
    - What the observers of a cell are told is recorded, in order, in the
      ghost field [events] of the grid. *)

From Stdlib Require Import ZArith List Lia Bool Sorted.
From stdpp Require Import base gmap sets list sorting.

Local Open Scope Z_scope.
#[local] Set Warnings "-clear-no-such-hyp".

(** ** Data model *)

(** The three notifications of [observer.CellObserver]. *)
Inductive Event : Type :=
| SingleCandidate (row col candidate : Z)
| CellSolved (row col value : Z)
| CandidateEliminated (row col candidate remainingCount : Z).

(** [lib.BaseConstraint]: the scope and the back-reference to the grid.
    The back-reference is either nil or the one grid of the model, hence a
    flag.  [Name] only feeds log lines. *)
Record BaseConstraint : Type := mkBase {
  Cells : list Z;
  HasBoard : bool
}.

(** The constraint variants of lib/constraints, each embedding a
    [BaseConstraint]. *)
Inductive Constraint : Type :=
| RowConstraint (base : BaseConstraint) (row : Z)
| ColumnConstraint (base : BaseConstraint) (col : Z)
| BoxConstraint (base : BaseConstraint) (box : Z)
| KillerCageConstraint (base : BaseConstraint) (targetSum : Z)
| RenbanConstraint (base : BaseConstraint)
| GermanWhispersConstraint (base : BaseConstraint).

(** A [CellObserver] is a constraint or a listener from outside the engine
    (the auto-solve observer, a test double).  The listeners of the
    repository only record what they are told. *)
Inductive Observer : Type :=
| ConstraintObserver (c : Constraint)
| Listener (id : nat).

Record Cell : Type := mkCell {
  row : Z;
  col : Z;
  index : Z;
  value : Z;
  candidates : gset Z;
  notifier : list Observer
}.

Record Board : Type := mkBoard {
  board : gmap Z Cell;
  constraints : list Constraint;
  observers : list Observer;
  events : list (Observer * Event)
}.

Inductive BoardError : Type :=
| InvalidValue
| InvalidPosition (row col : Z).

#[global] Instance Event_eq_dec : EqDecision Event.
Proof. solve_decision. Defined.
#[global] Instance BaseConstraint_eq_dec : EqDecision BaseConstraint.
Proof. solve_decision. Defined.
#[global] Instance Constraint_eq_dec : EqDecision Constraint.
Proof. solve_decision. Defined.
#[global] Instance Observer_eq_dec : EqDecision Observer.
Proof. solve_decision. Defined.
#[global] Instance Cell_eq_dec : EqDecision Cell.
Proof. solve_decision. Defined.
#[global] Instance Board_eq_dec : EqDecision Board.
Proof. solve_decision. Defined.
#[global] Instance BoardError_eq_dec : EqDecision BoardError.
Proof. solve_decision. Defined.

Definition GetBase (c : Constraint) : BaseConstraint :=
  match c with
  | RowConstraint base _ | ColumnConstraint base _ | BoxConstraint base _
  | KillerCageConstraint base _ | RenbanConstraint base
  | GermanWhispersConstraint base => base
  end.

Definition GetCells (c : Constraint) : list Z := Cells (GetBase c).

Definition RequiresUniqueness (c : Constraint) : bool :=
  match c with
  | GermanWhispersConstraint _ => false
  | _ => true
  end.

(** [BaseConstraint.SetBoard]. *)
Definition SetBoard (c : Constraint) : Constraint :=
  let attach base := mkBase (Cells base) true in
  match c with
  | RowConstraint base r => RowConstraint (attach base) r
  | ColumnConstraint base k => ColumnConstraint (attach base) k
  | BoxConstraint base x => BoxConstraint (attach base) x
  | KillerCageConstraint base t => KillerCageConstraint (attach base) t
  | RenbanConstraint base => RenbanConstraint (attach base)
  | GermanWhispersConstraint base => GermanWhispersConstraint (attach base)
  end.

(** ** utils *)

(** [utils.GetCandidatesAsSlice]: the members among 1..9, ascending. *)
Definition GetCandidatesAsSlice (cands : gset Z) : list Z :=
  filter (λ i, i ∈ cands) (seqZ 1 9).

Definition ContainsInt (slice : list Z) (target : Z) : bool :=
  existsb (Z.eqb target) slice.

(** [utils.HasUniqueNonZeros], with the [seen] map threaded through. *)
Fixpoint HasUniqueNonZeros_from (seen : gset Z) (values : list Z) : bool :=
  match values with
  | [] => true
  | v :: rest =>
      if v =? 0 then HasUniqueNonZeros_from seen rest
      else if (v <? 1) || (v >? 9) then false
      else if bool_decide (v ∈ seen) then false
      else HasUniqueNonZeros_from ({[v]} ∪ seen) rest
  end.

Definition HasUniqueNonZeros (values : list Z) : bool :=
  HasUniqueNonZeros_from ∅ values.

(** The combinations of [k] members of [items], in the order in which the
    recursive closure of [utils.GenerateCombinations] appends them. *)
Fixpoint generate (items : list nat) (k : nat) : list (list nat) :=
  match k with
  | O => [[]]
  | S k' =>
      match items with
      | [] => []
      | i :: rest => map (cons i) (generate rest k') ++ generate rest k
      end
  end.

Definition GenerateCombinations (n k : Z) : list (list nat) :=
  if (k >? n) || (k <? 0) then [] else generate (seq 0 (Z.to_nat n)) (Z.to_nat k).

(** ** Cell *)

Definition full_candidates : gset Z := list_to_set (seqZ 1 9).

Definition NewCell (r c : Z) : Cell :=
  mkCell r c (r * 9 + c) 0 full_candidates [].

Definition with_value (c : Cell) (v : Z) : Cell :=
  mkCell (row c) (col c) (index c) v (candidates c) (notifier c).

Definition with_candidates (c : Cell) (cands : gset Z) : Cell :=
  mkCell (row c) (col c) (index c) (value c) cands (notifier c).

Definition with_notifier (c : Cell) (obs : list Observer) : Cell :=
  mkCell (row c) (col c) (index c) (value c) (candidates c) obs.

Definition IsSolved (c : Cell) : bool := negb (value c =? 0).

Definition GetCandidates (c : Cell) : gset Z :=
  if negb (value c =? 0) then ∅ else candidates c.

Definition HasCandidate (c : Cell) (candidate : Z) : bool :=
  if negb (value c =? 0) then false else bool_decide (candidate ∈ candidates c).

Definition CandidateCount (c : Cell) : Z :=
  if negb (value c =? 0) then 0 else Z.of_nat (size (candidates c)).

(** ** Grid: storage and notification *)

Definition store (b : Board) (p : Z) (c : Cell) : Board :=
  mkBoard (<[p := c]> (board b)) (constraints b) (observers b) (events b).

Definition record (b : Board) (o : Observer) (e : Event) : Board :=
  mkBoard (board b) (constraints b) (observers b) (events b ++ [(o, e)]).

Definition GetCell (b : Board) (i : Z) : option (Z * Cell) :=
  if (i <? 0) || (i >? 80) then None
  else match board b !! i with Some c => Some (i, c) | None => None end.

Definition GetCellAt (b : Board) (r c : Z) : option (Z * Cell) :=
  if (r <? 0) || (r >? 8) || (c <? 0) || (c >? 8) then None
  else match board b !! (r * 9 + c) with
       | Some cell => Some (r * 9 + c, cell)
       | None => None
       end.

Definition Get (b : Board) (r c : Z) : Z :=
  if (r <? 0) || (r >? 8) || (c <? 0) || (c >? 8) then 0
  else match board b !! (r * 9 + c) with
       | None => 0
       | Some cell => value cell
       end.

(** [OnCandidateEliminated] and [OnSingleCandidate] do nothing in
    [BaseConstraint], no variant overrides them, and a listener records:
    delivering one of these two events only extends the record. *)
Definition NotifyCandidateEliminated (b : Board) (obs : list Observer)
    (r c candidate remainingCount : Z) : Board :=
  fold_left (λ b' o, record b' o (CandidateEliminated r c candidate remainingCount))
            obs b.

Definition NotifySingleCandidate (b : Board) (obs : list Observer)
    (r c candidate : Z) : Board :=
  fold_left (λ b' o, record b' o (SingleCandidate r c candidate)) obs b.

(** [Cell.RemoveCandidate] on the cell in slot [p].  A single remaining
    candidate outside 1..9 would make the sources index an empty slice;
    candidate sets never leave 1..9 (see [candidates_in_range]). *)
Definition RemoveCandidate (b : Board) (p : Z) (candidate : Z) : Board :=
  match board b !! p with
  | None => b
  | Some c =>
      if (value c =? 0) && bool_decide (candidate ∈ candidates c) then
        let c' := with_candidates c (candidates c ∖ {[candidate]}) in
        let remainingCount := Z.of_nat (size (candidates c')) in
        let b1 := store b p c' in
        let b2 := NotifyCandidateEliminated b1 (notifier c') (row c') (col c')
                    candidate remainingCount in
        if remainingCount =? 1 then
          match GetCandidatesAsSlice (candidates c') with
          | lastCandidate :: _ =>
              NotifySingleCandidate b2 (notifier c') (row c') (col c') lastCandidate
          | [] => b2
          end
        else b2
      else b
  end.

(** [Cell.AddCandidate]. *)
Definition AddCandidate (b : Board) (p : Z) (candidate : Z) : Board :=
  match board b !! p with
  | None => b
  | Some c =>
      if (value c =? 0) && (candidate >=? 1) && (candidate <=? 9) then
        if negb (bool_decide (candidate ∈ candidates c)) then
          store b p (with_candidates c ({[candidate]} ∪ candidates c))
        else b
      else b
  end.

(** [Cell.AddObserver] / [CellNotifier.AddObserver]. *)
Definition Cell_AddObserver (b : Board) (p : Z) (o : Observer) : Board :=
  match board b !! p with
  | None => b
  | Some c => store b p (with_notifier c (notifier c ++ [o]))
  end.

(** ** Constraints: propagation *)

(** [if otherCell != nil && !otherCell.IsSolved() { otherCell.RemoveCandidate(value) }] *)
Definition strike (b : Board) (otherCell : option (Z * Cell)) (candidate : Z) : Board :=
  match otherCell with
  | Some (p, oc) => if negb (IsSolved oc) then RemoveCandidate b p candidate else b
  | None => b
  end.

(** The body shared by [RowConstraint], [ColumnConstraint] and
    [BoxConstraint.PropagateValueChange]: siblings are told apart by their
    coordinates. *)
Definition propagate_by_position (b : Board) (cells : list Z) (r c v : Z) : Board :=
  fold_left
    (λ b' cellIndex,
       let otherRow := Z.quot cellIndex 9 in
       let otherCol := Z.rem cellIndex 9 in
       if negb (otherRow =? r) || negb (otherCol =? c)
       then strike b' (GetCellAt b' otherRow otherCol) v
       else b')
    cells b.

(** The first loop of the killer cage and of the renban line: siblings are
    told apart by their index. *)
Definition propagate_by_index (b : Board) (cells : list Z) (r c v : Z) : Board :=
  let cellIndex := r * 9 + c in
  fold_left
    (λ b' otherIndex,
       if negb (otherIndex =? cellIndex)
       then strike b' (GetCellAt b' (Z.quot otherIndex 9) (Z.rem otherIndex 9)) v
       else b')
    cells b.

(** The solved values found in a scope, in scope order. *)
Definition current_values (b : Board) (cells : list Z) : list Z :=
  omap (λ idx, match GetCellAt b (Z.quot idx 9) (Z.rem idx 9) with
               | Some (_, oc) => if negb (value oc =? 0) then Some (value oc) else None
               | None => None
               end) cells.

(** Runs [prune] on the digits 1..9 of every cell of the scope whose value
    is 0: [prune candidate] says whether the candidate is to be removed. *)
Definition prune_empty_cells (b : Board) (cells : list Z) (prune : Z → bool) : Board :=
  fold_left
    (λ b' idx,
       match GetCellAt b' (Z.quot idx 9) (Z.rem idx 9) with
       | Some (p, oc) =>
           if value oc =? 0 then
             fold_left (λ b'' candidate,
                          if prune candidate then RemoveCandidate b'' p candidate else b'')
                       (seqZ 1 9) b'
           else b'
       | None => b'
       end)
    cells b.

Definition sum_list_Z (l : list Z) : Z := fold_left Z.add l 0.

Definition KillerCage_PropagateValueChange (b : Board) (cells : list Z)
    (targetSum r c v : Z) : Board :=
  let b1 := propagate_by_index b cells r c v in
  let filled := current_values b1 cells in
  let currentSum := sum_list_Z filled in
  let filledCount := Z.of_nat (length filled) in
  let remainingCells := Z.of_nat (length cells) - filledCount in
  let remainingSum := targetSum - currentSum in
  prune_empty_cells b1 cells
    (λ candidate,
       if remainingCells =? 1 then negb (candidate =? remainingSum)
       else
         let minPossibleSum := remainingCells - 1 in
         let maxPossibleSum := (remainingCells - 1) * 9 in
         (remainingSum - candidate <? minPossibleSum)
         || (remainingSum - candidate >? maxPossibleSum)).

Definition Renban_PropagateValueChange (b : Board) (cells : list Z)
    (r c v : Z) : Board :=
  let b1 := propagate_by_index b cells r c v in
  let currentValues := current_values b1 cells in
  let minVal := fold_left (λ m val, if val <? m then val else m) currentValues v in
  let maxVal := fold_left (λ m val, if val >? m then val else m) currentValues v in
  let totalCells := Z.of_nat (length cells) in
  prune_empty_cells b1 cells
    (λ candidate,
       let newMin := if candidate <? minVal then candidate else minVal in
       let newMax := if candidate >? maxVal then candidate else maxVal in
       newMax - newMin + 1 >? totalCells).

(** The neighbour loop of the German whispers line. *)
Definition whisper_neighbour (b : Board) (neighbour : option (Z * Cell)) (v : Z) : Board :=
  match neighbour with
  | Some (p, nc) =>
      if negb (IsSolved nc) then
        fold_left (λ b' candidate,
                     if Z.abs (candidate - v) <? 5 then RemoveCandidate b' p candidate else b')
                  (seqZ 1 9) b
      else b
  | None => b
  end.

Definition GermanWhispers_PropagateValueChange (b : Board) (cells : list Z)
    (r c v : Z) : Board :=
  let cellIndex := r * 9 + c in
  match list_find (λ idx, idx = cellIndex) cells with
  | None => b
  | Some (pos, _) =>
      let b1 :=
        match pos with
        | O => b
        | S pos' =>
            match cells !! pos' with
            | Some prevIdx =>
                whisper_neighbour b (GetCellAt b (Z.quot prevIdx 9) (Z.rem prevIdx 9)) v
            | None => b
            end
        end in
      match cells !! S pos with
      | Some nextIdx =>
          whisper_neighbour b1 (GetCellAt b1 (Z.quot nextIdx 9) (Z.rem nextIdx 9)) v
      | None => b1
      end
  end.

(** [PropagateValueChange], dispatched on the variant. *)
Definition PropagateValueChange (k : Constraint) (b : Board) (r c v : Z) : Board :=
  if v =? 0 then b
  else if negb (HasBoard (GetBase k)) then b
  else
    match k with
    | RowConstraint base _ | ColumnConstraint base _ | BoxConstraint base _ =>
        propagate_by_position b (Cells base) r c v
    | KillerCageConstraint base targetSum =>
        KillerCage_PropagateValueChange b (Cells base) targetSum r c v
    | RenbanConstraint base => Renban_PropagateValueChange b (Cells base) r c v
    | GermanWhispersConstraint base =>
        GermanWhispers_PropagateValueChange b (Cells base) r c v
    end.

(** [BaseConstraint.PropagateValueChange]: "Base implementation does
    nothing" but write a log line. *)
Definition BaseConstraint_PropagateValueChange (b : Board) (r c v : Z) : Board := b.

(** [OnCellSolved].  No variant defines it: every constraint answers with
    the method promoted from the embedded [BaseConstraint], whose receiver
    is that [BaseConstraint], so the [PropagateValueChange] it calls is the
    one just above and never the variant's.  A listener records. *)
Definition OnCellSolved (o : Observer) (b : Board) (r c v : Z) : Board :=
  let b' := record b o (CellSolved r c v) in
  match o with
  | ConstraintObserver _ => BaseConstraint_PropagateValueChange b' r c v
  | Listener _ => b'
  end.

Definition NotifyCellSolved (b : Board) (obs : list Observer) (r c v : Z) : Board :=
  fold_left (λ b' o, OnCellSolved o b' r c v) obs b.

(** [Cell.SetValue] on the cell in slot [p]. *)
Definition SetValue (b : Board) (p : Z) (v : Z) : Board * option BoardError :=
  if (v <? 0) || (v >? 9) then (b, Some InvalidValue)
  else
    match board b !! p with
    | None => (b, None)
    | Some c =>
        let c1 := with_value c v in
        if negb (v =? 0) then
          let c2 := with_candidates c1 ∅ in
          (NotifyCellSolved (store b p c2) (notifier c2) (row c2) (col c2) v, None)
        else (store b p c1, None)
    end.

(** ** Grid operations *)

Definition NewBoard : Board :=
  mkBoard
    (list_to_map (map (λ i, (i, NewCell (Z.quot i 9) (Z.rem i 9))) (seqZ 0 81)))
    [] [] [].

Definition Board_Set (b : Board) (r c v : Z) : Board * option BoardError :=
  if (r <? 0) || (r >? 8) || (c <? 0) || (c >? 8)
  then (b, Some (InvalidPosition r c))
  else
    let b1 := match board b !! (r * 9 + c) with
              | None => store b (r * 9 + c) (NewCell r c)
              | Some _ => b
              end in
    SetValue b1 (r * 9 + c) v.

Definition AddConstraint (b : Board) (c : Constraint) : Board :=
  let c' := SetBoard c in
  let b1 := mkBoard (board b) (constraints b ++ [c']) (observers b) (events b) in
  fold_left
    (λ b' cellIndex,
       if (cellIndex >=? 0) && (cellIndex <=? 80)
       then Cell_AddObserver b' cellIndex (ConstraintObserver c')
       else b')
    (GetCells c') b1.

Definition Board_AddObserver (b : Board) (o : Observer) : Board :=
  let b1 := mkBoard (board b) (constraints b) (observers b ++ [o]) (events b) in
  fold_left (λ b' i, Cell_AddObserver b' i o) (seqZ 0 81) b1.

(** ** Constraints: validation *)

Definition GetRow (b : Board) (r : Z) : list Z :=
  map (λ i, match board b !! (r * 9 + i) with Some c => value c | None => 0 end)
      (seqZ 0 9).

Definition GetColumn (b : Board) (c : Z) : list Z :=
  map (λ r, match board b !! (r * 9 + c) with Some cell => value cell | None => 0 end)
      (seqZ 0 9).

Definition GetBox (b : Board) (box : Z) : list Z :=
  let boxRow := Z.quot box 3 * 3 in
  let boxCol := Z.rem box 3 * 3 in
  flat_map
    (λ r, map (λ c, match board b !! ((boxRow + r) * 9 + (boxCol + c)) with
                    | Some cell => value cell
                    | None => 0
                    end) (seqZ 0 3))
    (seqZ 0 3).

Inductive ValidationError : Type := NilBoard.

#[global] Instance ValidationError_eq_dec : EqDecision ValidationError.
Proof. solve_decision. Defined.

(** The values of a scope as read through [Board.Get]. *)
Definition scope_values (b : Board) (cells : list Z) : list Z :=
  map (λ cellIdx, Get b (Z.quot cellIdx 9) (Z.rem cellIdx 9)) cells.

(** The selection sort of [RenbanConstraint.IsValid] is an insertion into
    ascending order here; only the sorted result is read. *)
Fixpoint insert_sorted (x : Z) (l : list Z) : list Z :=
  match l with
  | [] => [x]
  | y :: r => if x <=? y then x :: l else y :: insert_sorted x r
  end.

Fixpoint consecutive (l : list Z) : bool :=
  match l with
  | x :: ((y :: _) as r) => (y =? x + 1) && consecutive r
  | _ => true
  end.

Fixpoint whispers_ok (vals : list Z) : bool :=
  match vals with
  | val1 :: ((val2 :: _) as r) =>
      if (val1 =? 0) || (val2 =? 0) then whispers_ok r
      else if Z.abs (val1 - val2) <? 5 then false
      else whispers_ok r
  | _ => true
  end.

(** [IsValid]; the grid argument may be nil. *)
Definition IsValid (k : Constraint) (ob : option Board) : bool * option ValidationError :=
  match ob with
  | None => (false, Some NilBoard)
  | Some b =>
      match k with
      | RowConstraint _ r => (HasUniqueNonZeros (GetRow b r), None)
      | ColumnConstraint _ c => (HasUniqueNonZeros (GetColumn b c), None)
      | BoxConstraint _ box => (HasUniqueNonZeros (GetBox b box), None)
      | KillerCageConstraint base targetSum =>
          let values := scope_values b (Cells base) in
          let sum := sum_list_Z values in
          let hasEmpty := existsb (Z.eqb 0) values in
          if negb (HasUniqueNonZeros values) then (false, None)
          else if negb hasEmpty then (sum =? targetSum, None)
          else (sum <=? targetSum, None)
      | RenbanConstraint base =>
          let values := scope_values b (Cells base) in
          let hasEmpty := existsb (Z.eqb 0) values in
          if hasEmpty then (HasUniqueNonZeros values, None)
          else if negb (HasUniqueNonZeros values) then (false, None)
          else (consecutive (fold_right insert_sorted [] values), None)
      | GermanWhispersConstraint base =>
          (whispers_ok (scope_values b (Cells base)), None)
      end
  end.

(** [Board.ValidateAll]: the first failure or error ends the loop. *)
Fixpoint validate_from (b : Board) (ks : list Constraint) : bool * option ValidationError :=
  match ks with
  | [] => (true, None)
  | k :: rest =>
      match IsValid k (Some b) with
      | (_, Some err) => (false, Some err)
      | (false, None) => (false, None)
      | (true, None) => validate_from b rest
      end
  end.

Definition ValidateAll (b : Board) : bool * option ValidationError :=
  validate_from b (constraints b).

(** ** The subset-elimination engine *)

(** The pointers to the unsolved cells of a scope, in scope order. *)
Definition unsolved_cells (b : Board) (cellIndices : list Z) : list Z :=
  omap (λ idx, match GetCell b idx with
               | Some (p, c) => if negb (IsSolved c) then Some p else None
               | None => None
               end) cellIndices.

(** [cell.GetCandidates()] through the pointer [p]. *)
Definition candidates_at (b : Board) (p : Z) : gset Z :=
  match board b !! p with Some c => GetCandidates c | None => ∅ end.

(** [if cell.HasCandidate(candidate) { cell.RemoveCandidate(candidate); changed = true }],
    the state being the flag [changed] and the grid. *)
Definition eliminate (st : bool * Board) (p : Z) (candidate : Z) : bool * Board :=
  match board st.2 !! p with
  | Some c =>
      if HasCandidate c candidate then (true, RemoveCandidate st.2 p candidate) else st
  | None => st
  end.

Definition contains (cells : list Z) (target : Z) : bool :=
  existsb (Z.eqb target) cells.

(** One combination of the naked-subset loop. *)
Definition naked_combo (unsolvedCells : list Z) (subsetSize : Z)
    (st : bool * Board) (combo : list nat) : bool * Board :=
  let subsetCells := omap (λ i, unsolvedCells !! i) combo in
  let candidateUnion : gset Z := ⋃ (map (candidates_at st.2) subsetCells) in
  if Z.of_nat (size candidateUnion) =? subsetSize then
    fold_left
      (λ st' cell,
         if negb (contains subsetCells cell)
         then fold_left (λ st'' candidate, eliminate st'' cell candidate)
                        (elements candidateUnion) st'
         else st')
      unsolvedCells st
  else st.

Definition ApplyNakedSubsets (b : Board) (cellIndices : list Z) (maxSubsetSize : Z)
    : bool * Board :=
  if bool_decide (cellIndices = []) then (false, b)
  else
    let unsolvedCells := unsolved_cells b cellIndices in
    let n := Z.of_nat (length unsolvedCells) in
    if n <? 2 then (false, b)
    else
      let maxSize := if n <? maxSubsetSize then n else maxSubsetSize in
      fold_left
        (λ st subsetSize,
           fold_left (naked_combo unsolvedCells subsetSize)
                     (GenerateCombinations n subsetSize) st)
        (seqZ 2 (maxSize - 1)) (false, b).

(** One combination of the hidden-subset loop; [candidateLocations] was
    built before the loop and is not refreshed. *)
Definition hidden_combo (candidateLocations : gmap Z (list Z))
    (activeCandidates : list Z) (subsetSize : Z)
    (st : bool * Board) (combo : list nat) : bool * Board :=
  let subsetCandidates := omap (λ i, activeCandidates !! i) combo in
  let cellUnion : gset Z :=
    ⋃ (map (λ candidate, list_to_set (default [] (candidateLocations !! candidate)))
           subsetCandidates) in
  if Z.of_nat (size cellUnion) =? subsetSize then
    fold_left
      (λ st' cell,
         fold_left (λ st'' candidate,
                      if negb (ContainsInt subsetCandidates candidate)
                      then eliminate st'' cell candidate
                      else st'')
                   (seqZ 1 9) st')
      (elements cellUnion) st
  else st.

Definition ApplyHiddenSubsets (b : Board) (cellIndices : list Z) (maxSubsetSize : Z)
    : bool * Board :=
  if bool_decide (cellIndices = []) then (false, b)
  else
    let unsolvedCells := unsolved_cells b cellIndices in
    if Z.of_nat (length unsolvedCells) <? 2 then (false, b)
    else
      let candidateLocations : gmap Z (list Z) :=
        list_to_map
          (map (λ candidate,
                  (candidate,
                   filter (λ cell, candidate ∈ candidates_at b cell) unsolvedCells))
               (seqZ 1 9)) in
      let activeCandidates :=
        filter (λ candidate,
                  (2 <= length (default [] (candidateLocations !! candidate)))%nat)
               (seqZ 1 9) in
      let m := Z.of_nat (length activeCandidates) in
      if m <? 2 then (false, b)
      else
        let maxSize := if m <? maxSubsetSize then m else maxSubsetSize in
        fold_left
          (λ st subsetSize,
             fold_left (hidden_combo candidateLocations activeCandidates subsetSize)
                       (GenerateCombinations m subsetSize) st)
          (seqZ 2 (maxSize - 1)) (false, b).

(** Naked subsets, then hidden subsets, with the same cap. *)
Definition subset_pass (b : Board) (cells : list Z) (maxSize : Z) : bool * Board :=
  let '(changed1, b1) := ApplyNakedSubsets b cells maxSize in
  let '(changed2, b2) := ApplyHiddenSubsets b1 cells maxSize in
  (changed2 || changed1, b2).

(** [Constraint.ApplyPencilMarkConstraints]. *)
Definition Constraint_ApplyPencilMarkConstraints (k : Constraint) (b : Board)
    : bool * Board :=
  match k with
  | RowConstraint base _ | ColumnConstraint base _ | BoxConstraint base _ =>
      subset_pass b (Cells base) 4
  | KillerCageConstraint base _ | RenbanConstraint base =>
      let len := Z.of_nat (length (Cells base)) in
      subset_pass b (Cells base) (if len <? 4 then len else 4)
  | GermanWhispersConstraint _ => (false, b)
  end.

(** ** The deduction drivers of the grid *)

Definition ApplyPencilMarkConstraints (b : Board) : bool * Board :=
  fold_left
    (λ st k,
       if RequiresUniqueness k then
         let '(ch, b') := Constraint_ApplyPencilMarkConstraints k st.2 in
         (if ch then true else st.1, b')
       else st)
    (constraints b) (false, b).

(** [Board.ApplyPencilMarkConstraintsUntilStable]: the unbounded loop of
    the sources, with [fuel] bounding the number of rounds; [None] when the
    fuel runs out before a round reports no change.  The result is the
    iteration count and the final grid. *)
Fixpoint until_stable (fuel : nat) (iterations : Z) (b : Board) : option (Z * Board) :=
  match fuel with
  | O => None
  | S fuel' =>
      let '(changed, b') := ApplyPencilMarkConstraints b in
      let iterations := iterations + 1 in
      if negb changed then Some (iterations, b')
      else until_stable fuel' iterations b'
  end.

Definition ApplyPencilMarkConstraintsUntilStable (fuel : nat) (b : Board)
    : option (Z * Board) :=
  until_stable fuel 0 b.

(** ** The cross-line deduction engine *)

(** The cell at position [pos] of line [line]: a row when [rowBased], a
    column otherwise. *)
Definition line_cell (b : Board) (rowBased : bool) (line pos : Z) : option (Z * Cell) :=
  if rowBased then GetCellAt b line pos else GetCellAt b pos line.

(** [cell != nil && !cell.IsSolved() && cell.HasCandidate(candidate)] *)
Definition is_open (cell : option (Z * Cell)) (candidate : Z) : bool :=
  match cell with
  | Some (_, c) => negb (IsSolved c) && HasCandidate c candidate
  | None => false
  end.

(** The guarded removal of the cross-line techniques. *)
Definition eliminate_at (st : bool * Board) (cell : option (Z * Cell)) (candidate : Z)
    : bool * Board :=
  match cell with
  | Some (p, c) =>
      if negb (IsSolved c) && HasCandidate c candidate
      then (true, RemoveCandidate st.2 p candidate)
      else st
  | None => st
  end.

(** The positions of a line where the digit is an open candidate. *)
Definition line_positions (b : Board) (rowBased : bool) (candidate line : Z) : list Z :=
  filter (λ pos, is_open (line_cell b rowBased line pos) candidate) (seqZ 0 9).

(** The map [linePositions] of the sources: the lines accepted by [keep],
    with their positions. *)
Definition build_linePositions (b : Board) (rowBased : bool) (candidate : Z)
    (keep : nat → bool) : gmap Z (list Z) :=
  fold_left
    (λ m line,
       let positions := line_positions b rowBased candidate line in
       if keep (length positions) then <[line := positions]> m else m)
    (seqZ 0 9) ∅.

(** The pairs [(l[i], l[j])], [i < j], in the order of the nested loops. *)
Fixpoint pairs {A : Type} (l : list A) : list (A * A) :=
  match l with
  | [] => []
  | x :: r => map (pair x) r ++ pairs r
  end.

Fixpoint triples {A : Type} (l : list A) : list (A * A * A) :=
  match l with
  | [] => []
  | x :: r => map (λ yz, (x, yz.1, yz.2)) (pairs r) ++ triples r
  end.

(** Removes the digit at the given positions of every line but [skip]. *)
Definition sweep_lines (rowBased : bool) (candidate : Z) (skip : list Z)
    (positions : list Z) (st : bool * Board) : bool * Board :=
  fold_left
    (λ st' otherLine,
       if negb (contains skip otherLine) then
         fold_left
           (λ st'' pos,
              eliminate_at st'' (line_cell st''.2 rowBased otherLine pos) candidate)
           positions st'
       else st')
    (seqZ 0 9) st.

Definition xwing_pair (rowBased : bool) (candidate : Z)
    (linePositions : gmap Z (list Z)) (st : bool * Board) (ll : Z * Z) : bool * Board :=
  let '(line1, line2) := ll in
  let pos1 := default [] (linePositions !! line1) in
  let pos2 := default [] (linePositions !! line2) in
  match pos1, pos2 with
  | [a1; a2], [c1; c2] =>
      if (a1 =? c1) && (a2 =? c2)
      then sweep_lines rowBased candidate [line1; line2] pos1 st
      else st
  | _, _ => st
  end.

Definition xwing_candidate (rowBased : bool) (st : bool * Board) (candidate : Z)
    : bool * Board :=
  let linePositions :=
    build_linePositions st.2 rowBased candidate (λ n, Nat.eqb n 2) in
  let lines := (map_to_list linePositions).*1 in
  fold_left (xwing_pair rowBased candidate linePositions) (pairs lines) st.

Definition applyXWingsInDirection (b : Board) (rowBased : bool) : bool * Board :=
  fold_left (xwing_candidate rowBased) (seqZ 1 9) (false, b).

Definition applyXWings (b : Board) : bool * Board :=
  let '(ch1, b1) := applyXWingsInDirection b true in
  let '(ch2, b2) := applyXWingsInDirection b1 false in
  (ch1 || ch2, b2).

Definition swordfish_triple (rowBased : bool) (candidate : Z)
    (linePositions : gmap Z (list Z)) (st : bool * Board) (lll : Z * Z * Z)
    : bool * Board :=
  let '(line1, line2, line3) := lll in
  let posUnion : gset Z :=
    list_to_set (default [] (linePositions !! line1))
    ∪ list_to_set (default [] (linePositions !! line2))
    ∪ list_to_set (default [] (linePositions !! line3)) in
  if (size posUnion =? 3)%nat
  then sweep_lines rowBased candidate [line1; line2; line3] (elements posUnion) st
  else st.

Definition swordfish_candidate (rowBased : bool) (st : bool * Board) (candidate : Z)
    : bool * Board :=
  let linePositions :=
    build_linePositions st.2 rowBased candidate
      (λ n, Nat.leb 2 n && Nat.leb n 3) in
  let lines := (map_to_list linePositions).*1 in
  fold_left (swordfish_triple rowBased candidate linePositions) (triples lines) st.

Definition applySwordfishInDirection (b : Board) (rowBased : bool) : bool * Board :=
  fold_left (swordfish_candidate rowBased) (seqZ 1 9) (false, b).

Definition applySwordfish (b : Board) : bool * Board :=
  let '(ch1, b1) := applySwordfishInDirection b true in
  let '(ch2, b2) := applySwordfishInDirection b1 false in
  (ch1 || ch2, b2).

(** [Board.getVisibleCells]: the cells sharing a scope with the cell at
    [p], the cell itself left out. *)
Definition getVisibleCells (b : Board) (p : Z) : gset Z :=
  match board b !! p with
  | None => ∅
  | Some cell =>
      ⋃ (map (λ k,
                if existsb (Z.eqb (index cell)) (GetCells k) then
                  list_to_set
                    (omap (λ idx, match GetCell b idx with
                                  | Some (q, _) => if negb (q =? p) then Some q else None
                                  | None => None
                                  end) (GetCells k))
                else ∅)
             (constraints b))
  end.

(** The two candidates of the cell at [p], when it is counted as having
    exactly two. *)
Definition two_candidates (b : Board) (p : Z) : option (Z * Z) :=
  match board b !! p with
  | Some c =>
      if CandidateCount c =? 2 then
        match GetCandidatesAsSlice (GetCandidates c) with
        | [x; y] => Some (x, y)
        | _ => None
        end
      else None
  | None => None
  end.

(** The candidate a wing does not share with the pivot [{X,Y}], when it
    shares exactly one. *)
Definition wing_digit (X Y : Z) (wingCands : Z * Z) : option Z :=
  let '(w0, w1) := wingCands in
  let shared0 := (w0 =? X) || (w0 =? Y) in
  let shared1 := (w1 =? X) || (w1 =? Y) in
  if shared0 && negb shared1 then Some w1
  else if negb shared0 && shared1 then Some w0
  else None.

Definition xywing_eliminate (pivot wing1 wing2 Z0 : Z) (st : bool * Board)
    : bool * Board :=
  let wing1Visible := getVisibleCells st.2 wing1 in
  let wing2Visible := getVisibleCells st.2 wing2 in
  fold_left
    (λ st' cell,
       if (cell =? pivot) || (cell =? wing1) || (cell =? wing2) then st'
       else if bool_decide (cell ∈ wing2Visible) then eliminate st' cell Z0
       else st')
    (elements wing1Visible) st.

Definition xywing_wing2 (pivot X Y wing1 Z1 : Z) (st : bool * Board) (wing2 : Z)
    : bool * Board :=
  if wing2 =? wing1 then st
  else
    match two_candidates st.2 wing2 with
    | Some wing2Cands =>
        match wing_digit X Y wing2Cands with
        | Some Z2 => if Z1 =? Z2 then xywing_eliminate pivot wing1 wing2 Z1 st else st
        | None => st
        end
    | None => st
    end.

Definition xywing_wing1 (pivot X Y : Z) (visibleCells : list Z) (st : bool * Board)
    (wing1 : Z) : bool * Board :=
  match two_candidates st.2 wing1 with
  | Some wing1Cands =>
      match wing_digit X Y wing1Cands with
      | Some Z1 => fold_left (xywing_wing2 pivot X Y wing1 Z1) visibleCells st
      | None => st
      end
  | None => st
  end.

Definition xywing_pivot (st : bool * Board) (pivot : Z) : bool * Board :=
  match board st.2 !! pivot with
  | Some c =>
      match GetCandidatesAsSlice (GetCandidates c) with
      | [X; Y] =>
          let visibleCells := elements (getVisibleCells st.2 pivot) in
          fold_left (xywing_wing1 pivot X Y visibleCells) visibleCells st
      | _ => st
      end
  | None => st
  end.

Definition applyXYWings (b : Board) : bool * Board :=
  let cells2Cands :=
    omap (λ idx, match GetCell b idx with
                 | Some (p, c) =>
                     if negb (IsSolved c) && (CandidateCount c =? 2) then Some p else None
                 | None => None
                 end) (seqZ 0 81) in
  fold_left xywing_pivot cells2Cands (false, b).

(** [Board.ApplyAdvancedTechniques]: X-Wing, Swordfish, XY-Wing, in that
    order. *)
Definition ApplyAdvancedTechniques (b : Board) : bool * Board :=
  let '(ch1, b1) := applyXWings b in
  let '(ch2, b2) := applySwordfish b1 in
  let '(ch3, b3) := applyXYWings b2 in
  (ch1 || ch2 || ch3, b3).

(** ** Notions used to state the properties *)

(** [cell_shrinks c c']: [c'] is [c] with, possibly, fewer candidates. *)
Definition cell_shrinks (c c' : Cell) : Prop :=
  row c' = row c ∧ col c' = col c ∧ index c' = index c ∧ value c' = value c
  ∧ notifier c' = notifier c ∧ candidates c' ⊆ candidates c.

(** [shrinks b b']: from [b] to [b'] no value, observer list or constraint
    changed, no cell appeared or disappeared, and candidate sets only lost
    members. *)
Definition shrinks (b b' : Board) : Prop :=
  constraints b' = constraints b ∧ observers b' = observers b
  ∧ ∀ p, option_Forall2 cell_shrinks (board b !! p) (board b' !! p).

(** The pairs (slot, digit) such that the digit is a candidate of the cell
    in the slot. *)
Definition cand_pairs (b : Board) : gset (Z * Z) :=
  ⋃ (map (λ pc : Z * Cell,
            (set_map (pair pc.1) (GetCandidates pc.2) : gset (Z * Z)))
         (map_to_list (board b))).

Definition total_candidates (b : Board) : nat := size (cand_pairs b).

(** [step_ok st st']: going from [st] to [st'] only shrinks the grid, and
    either nothing at all happened, or the flag is raised and the measure
    went strictly down. *)
Definition step_ok (st st' : bool * Board) : Prop :=
  shrinks st.2 st'.2
  ∧ (st' = st ∨ (st'.1 = true ∧ cand_pairs st'.2 ⊂ cand_pairs st.2)).

(** ** Constructors of the constraint variants

    The sources return a constraint or an error; the error is [None]. *)

Definition NewRowConstraint (r : Z) : option Constraint :=
  if (r <? 0) || (r >? 8) then None
  else Some (RowConstraint (mkBase (map (λ c, r * 9 + c) (seqZ 0 9)) false) r).

Definition NewColumnConstraint (c : Z) : option Constraint :=
  if (c <? 0) || (c >? 8) then None
  else Some (ColumnConstraint (mkBase (map (λ r, r * 9 + c) (seqZ 0 9)) false) c).

Definition NewBoxConstraint (box : Z) : option Constraint :=
  if (box <? 0) || (box >? 8) then None
  else
    let boxRow := Z.quot box 3 * 3 in
    let boxCol := Z.rem box 3 * 3 in
    Some (BoxConstraint
            (mkBase
               (flat_map (λ r, map (λ c, (boxRow + r) * 9 + (boxCol + c)) (seqZ 0 3))
                         (seqZ 0 3))
               false)
            box).

Definition cells_in_range (cells : list Z) : bool :=
  forallb (λ cell, negb ((cell <? 0) || (cell >? 80))) cells.

Definition NewKillerCageConstraint (cells : list Z) (targetSum : Z) : option Constraint :=
  if bool_decide (cells = []) then None
  else if negb (cells_in_range cells) then None
  else if (targetSum <? 1) || (targetSum >? 45) then None
  else Some (KillerCageConstraint (mkBase cells false) targetSum).

Definition NewRenbanConstraint (cells : list Z) : option Constraint :=
  if bool_decide (cells = []) then None
  else if negb (cells_in_range cells) then None
  else Some (RenbanConstraint (mkBase cells false)).

Definition NewGermanWhispersConstraint (cells : list Z) : option Constraint :=
  if (length cells <? 2)%nat then None
  else if negb (cells_in_range cells) then None
  else Some (GermanWhispersConstraint (mkBase cells false)).

(** ** Scenarios *)

(** A sequence of [Board.Set] calls, each of which has to succeed. *)
Fixpoint play (b : Board) (moves : list (Z * Z * Z)) : option Board :=
  match moves with
  | [] => Some b
  | (r, c, v) :: rest =>
      match Board_Set b r c v with
      | (b', None) => play b' rest
      | (_, Some _) => None
      end
  end.

(** Candidate pruning by hand: every digit of 1..9 outside [keep] is
    removed from the cell in slot [p] through [RemoveCandidate]. *)
Definition keep_only (b : Board) (p : Z) (keep : list Z) : Board :=
  fold_left (λ b' d, if bool_decide (d ∈ keep) then b' else RemoveCandidate b' p d)
            (seqZ 1 9) b.

(** The candidate set of the cell in slot [p], [None] for a nil slot. *)
Definition candidates_of (b : Board) (p : Z) : option (gset Z) :=
  candidates <$> board b !! p.

Definition fired (b : Board) (e : Event) : bool :=
  existsb (λ oe, bool_decide (oe.2 = e)) (events b).

(** Every slot of the grid holds a cell, as after [NewBoard]. *)
Definition populated (b : Board) : Prop :=
  ∀ i, 0 <= i <= 80 → is_Some (board b !! i).

(** The same sequence with the propagation done by hand: after every
    [Board.Set] that succeeds, [PropagateValueChange] of the constraint [k]
    is called for the cell and the value just set. *)
Fixpoint play_propagating (k : Constraint) (b : Board) (moves : list (Z * Z * Z))
    : option Board :=
  match moves with
  | [] => Some b
  | (r, c, v) :: rest =>
      match Board_Set b r c v with
      | (b', None) => play_propagating k (PropagateValueChange k b' r c v) rest
      | (_, Some _) => None
      end
  end.

(** Scenario A: a fresh grid, the constraint of row 0, then the digits
    1..8 set in columns 0..7 of row 0. *)
Definition scenario_row : option Board :=
  k ← NewRowConstraint 0;
  play (AddConstraint NewBoard k) (map (λ c, (0, c, c + 1)) (seqZ 0 8)).

(** Scenario A with [RowConstraint.PropagateValueChange] called by hand
    after every set. *)
Definition scenario_row_by_hand : option Board :=
  k ← NewRowConstraint 0;
  let b0 := AddConstraint NewBoard k in
  k' ← last (constraints b0);
  play_propagating k' b0 (map (λ c, (0, c, c + 1)) (seqZ 0 8)).

(** Scenario D: a fresh grid and a cage of the two cells [i] and [j] with
    target sum 9; the first cell is set to 4, then the second to 5.  The
    result is the grid after the first move, the grid after the second and
    what [IsValid] says of the cage then. *)
Definition scenario_cage (i j : Z)
    : option (Board * Board * (bool * option ValidationError)) :=
  k ← NewKillerCageConstraint [i; j] 9;
  let b0 := AddConstraint NewBoard k in
  b1 ← play b0 [(Z.quot i 9, Z.rem i 9, 4)];
  b2 ← play b1 [(Z.quot j 9, Z.rem j 9, 5)];
  k' ← last (constraints b2);
  Some (b1, b2, IsValid k' (Some b2)).

(** The first move of scenario D with
    [KillerCageConstraint.PropagateValueChange] called by hand after it. *)
Definition scenario_cage_by_hand (i j : Z) : option Board :=
  k ← NewKillerCageConstraint [i; j] 9;
  let b0 := AddConstraint NewBoard k in
  k' ← last (constraints b0);
  play_propagating k' b0 [(Z.quot i 9, Z.rem i 9, 4)].

(** What scenario D delivers, as a check on its result [o] and on the
    result [h] of the first move with the propagation called by hand: the
    second cell keeps its nine candidates after the first move, and has
    the candidate 5 alone once the propagation is called by hand. *)
Definition cage_verdict (i j : Z)
    (o : option (Board * Board * (bool * option ValidationError)))
    (h : option Board) : bool :=
  match o, h with
  | Some (b1, b2, verdict), Some bh =>
      bool_decide (candidates_of b1 j = Some full_candidates)
      && bool_decide (verdict = (true, None))
      && (Get b2 (Z.quot i 9) (Z.rem i 9) =? 4)
      && (Get b2 (Z.quot j 9) (Z.rem j 9) =? 5)
      && bool_decide (candidates_of bh j = Some {[5]})
  | _, _ => false
  end.

(** The arguments [Board.Set] rejects. *)
Definition bad_position (r c : Z) : Prop := r < 0 ∨ r > 8 ∨ c < 0 ∨ c > 8.

Definition bad_value (v : Z) : Prop := v < 0 ∨ v > 9.

(** The clear operation as the specification words it: the value is 0, the
    candidate set is the full set again and nothing was notified. *)
Definition clear_restores_candidates (b : Board) (p : Z) : Prop :=
  let b' := (SetValue b p 0).1 in
  ∃ c', board b' !! p = Some c' ∧ value c' = 0
        ∧ candidates c' = full_candidates ∧ events b' = events b.

(** [v] has to hold unless two of the numbers coincide. *)
Definition distinct2_or (a b : Z) (v : bool) : bool := (a =? b) || v.


(** The check of scenario D for a pair of cells, and for every cell [j]
    once [i] is chosen; the checks are run over 0..80. *)
Definition cage_check2 (i j : Z) : bool :=
  distinct2_or i j (cage_verdict i j (scenario_cage i j) (scenario_cage_by_hand i j)).

Definition cage_check1 (i : Z) : bool := forallb (cage_check2 i) (seqZ 0 81).

(** A scope of six unsolved cells on a fresh grid, pruned by hand to
    {1,2} {2,3} {1,3} {1,4,5} {1,4,5} {4,6,7}. *)
Definition chain_scope : list Z := [0; 1; 2; 3; 4; 5].

Definition chain_board : Board :=
  fold_left (λ b pk, keep_only b pk.1 pk.2)
    [(0, [1; 2]); (1, [2; 3]); (2, [1; 3]); (3, [1; 4; 5]); (4, [1; 4; 5]);
     (5, [4; 6; 7])]
    NewBoard.

(** Idempotence as the specification words it: the second of two passes in
    a row reports no change. *)
Definition second_pass_is_quiet (b : Board) (cells : list Z) (maxSize : Z) : Prop :=
  (subset_pass (subset_pass b cells maxSize).2 cells maxSize).1 = false.










(** [keeps d b b']: from [b] to [b'] the grid only shrank, and no cell lost
    the digit [d]. *)
Definition keeps (d : Z) (b b' : Board) : Prop :=
  shrinks b b'
  ∧ ∀ p c c', board b !! p = Some c → board b' !! p = Some c' →
              d ∈ candidates c → d ∈ candidates c'.

(** Scenario C: on a fresh grid the digit 5 is struck by hand from rows 0
    and 2 everywhere but at columns 2 and 5. *)
Definition xwing_board : Board :=
  fold_left (λ b p, RemoveCandidate b p 5)
    [0; 1; 3; 4; 6; 7; 8; 18; 19; 21; 22; 24; 25; 26] NewBoard.

(** ** Notions used to state further properties *)

(** What every operation of the engine keeps true of the cell in slot [p]:
    its coordinates are those of the slot, its value is a digit or 0, its
    candidates are digits, and a solved cell has no candidate left. *)
Definition cell_ok (p : Z) (c : Cell) : Prop :=
  0 <= row c <= 8 ∧ 0 <= col c <= 8 ∧ p = row c * 9 + col c ∧ index c = p
  ∧ 0 <= value c <= 9
  ∧ (∀ d, d ∈ candidates c → 1 <= d <= 9)
  ∧ (value c ≠ 0 → candidates c = ∅).

Definition board_ok (b : Board) : Prop :=
  populated b ∧ ∀ p c, board b !! p = Some c → cell_ok p c.

(** The public operations of the grid and of its cells. *)
Inductive Op : Type :=
| OpSet (r c v : Z)
| OpAddConstraint (k : Constraint)
| OpAddObserver (o : Observer)
| OpRemoveCandidate (r c candidate : Z)
| OpAddCandidate (r c candidate : Z)
| OpPencilMarks
| OpAdvanced.

(** A cell method is called on the pointer [GetCellAt] returns; on nil the
    caller has nothing to call. *)
Definition on_cell (b : Board) (r c : Z) (f : Board → Z → Board) : Board :=
  match GetCellAt b r c with
  | Some (p, _) => f b p
  | None => b
  end.

Definition run_op (b : Board) (op : Op) : Board :=
  match op with
  | OpSet r c v => (Board_Set b r c v).1
  | OpAddConstraint k => AddConstraint b k
  | OpAddObserver o => Board_AddObserver b o
  | OpRemoveCandidate r c d => on_cell b r c (λ b' p, RemoveCandidate b' p d)
  | OpAddCandidate r c d => on_cell b r c (λ b' p, AddCandidate b' p d)
  | OpPencilMarks => (ApplyPencilMarkConstraints b).2
  | OpAdvanced => (ApplyAdvancedTechniques b).2
  end.

Definition run_ops (b : Board) (ops : list Op) : Board := fold_left run_op ops b.

(** How often the index [q] occurs in a scope, counting only indices within
    the grid. *)
Definition registrations (q : Z) (cells : list Z) : nat :=
  length (filter (λ i, i = q ∧ 0 <= i <= 80) cells).

(** The observer lists only grew, at their end; nothing else of the cells
    changed and the constraints are those of before. *)
Definition grows (b b' : Board) : Prop :=
  constraints b' = constraints b
  ∧ ∀ q, ∃ extra, board b' !! q
                  = (λ c, with_notifier c (notifier c ++ extra)) <$> board b !! q.


(** ** utils, the coordinate helpers *)

Definition IndexToRowCol (i : Z) : Z * Z :=
  if (i <? 0) || (i >? 80) then (-1, -1) else (Z.quot i 9, Z.rem i 9).

Definition RowColToIndex (r c : Z) : Z :=
  if (r <? 0) || (r >? 8) || (c <? 0) || (c >? 8) then -1 else r * 9 + c.

Definition GetBoxNumber (r c : Z) : Z :=
  if (r <? 0) || (r >? 8) || (c <? 0) || (c >? 8) then -1
  else Z.quot r 3 * 3 + Z.quot c 3.

Definition GetBoxCoordinates (box : Z) : Z * Z :=
  if (box <? 0) || (box >? 8) then (-1, -1)
  else (Z.quot box 3 * 3, Z.rem box 3 * 3).

(** The constraint of row 0, attached to the grid, as [AddConstraint]
    stores it. *)
Definition row0_attached : Constraint :=
  RowConstraint (mkBase (map (λ c, 0 * 9 + c) (seqZ 0 9)) true) 0.

(** A fresh grid with the constraint of row 0 registered. *)
Definition row0_board : Board :=
  AddConstraint NewBoard
    (RowConstraint (mkBase (map (λ c, 0 * 9 + c) (seqZ 0 9)) false) 0).

(** The unattached constraint of row 0 alone. *)
Definition row0_constraints : list Constraint :=
  [RowConstraint (mkBase (map (λ c, 0 * 9 + c) (seqZ 0 9)) false) 0].

(** ** Checks over the standard scopes *)

(** [cells] are nine distinct cells of the grid: those that [member]
    singles out among the indices 0..80. *)
Definition scope_is (cells : list Z) (member : Z → bool) : bool :=
  bool_decide (NoDup cells) && (length cells =? 9)%nat
  && forallb (λ idx, (0 <=? idx) && (idx <=? 80) && member idx) cells
  && forallb (λ idx, implb (member idx) (bool_decide (idx ∈ cells))) (seqZ 0 81).

Definition built_scope_is (o : option Constraint) (member : Z → bool) : bool :=
  match o with
  | Some k =>
      scope_is (GetCells k) member && RequiresUniqueness k
      && negb (HasBoard (GetBase k))
  | None => false
  end.

Definition row_scope_check (r : Z) : bool :=
  built_scope_is (NewRowConstraint r) (λ idx, (IndexToRowCol idx).1 =? r).

Definition column_scope_check (c : Z) : bool :=
  built_scope_is (NewColumnConstraint c) (λ idx, (IndexToRowCol idx).2 =? c).

Definition box_scope_check (box : Z) : bool :=
  built_scope_is (NewBoxConstraint box)
    (λ idx, GetBoxNumber (IndexToRowCol idx).1 (IndexToRowCol idx).2 =? box).

(** What a constructor of a standard constraint returns for the number [n]:
    an error outside 0..8, and otherwise an unattached uniqueness constraint
    over nine distinct cells, those of the grid that [member] singles out. *)
Definition standard_scope (o : option Constraint) (n : Z) (member : Z → Z → Prop) : Prop :=
  match o with
  | None => n < 0 ∨ n > 8
  | Some k =>
      0 <= n <= 8 ∧ NoDup (GetCells k) ∧ length (GetCells k) = 9%nat
      ∧ RequiresUniqueness k = true ∧ HasBoard (GetBase k) = false
      ∧ ∀ idx, idx ∈ GetCells k ↔ 0 <= idx <= 80 ∧ member idx n
  end.

(** The value read in slot [i]; 0 for a nil slot. *)
Definition value_at (b : Board) (i : Z) : Z :=
  match board b !! i with Some c => value c | None => 0 end.

(** No two different cells of the scope hold the same digit. *)
Definition no_duplicate (b : Board) (cells : list Z) : Prop :=
  ∀ i j ci cj, i ∈ cells → j ∈ cells → i ≠ j →
    board b !! i = Some ci → board b !! j = Some cj →
    value ci ≠ 0 → value cj ≠ value ci.

(** The claim on duplicates: in the scope of every registered constraint
    that requires uniqueness, no two different cells hold the same digit. *)
Definition duplicate_free (b : Board) : Prop :=
  ∀ k, k ∈ constraints b → RequiresUniqueness k = true →
       no_duplicate b (GetCells k).

(** The digit [v] stands in a cell of the scope other than slot [p]. *)
Definition stands_elsewhere (b : Board) (cells : list Z) (p v : Z) : bool :=
  existsb (λ j, negb (j =? p) && (value_at b j =? v)) cells.

(** No solved cell of the scope has its digit in another cell of the
    scope, as a check. *)
Definition scope_clean (b : Board) (cells : list Z) : bool :=
  forallb (λ i, (value_at b i =? 0)
                || negb (stands_elsewhere b cells i (value_at b i))) cells.

(** A play that avoids duplicates on its own account: a cell is cleared,
    or given a digit that stands in no other cell of any registered
    uniqueness scope the cell belongs to; a uniqueness constraint is only
    registered on a scope that holds no duplicate. *)
Definition careful_op (b : Board) (op : Op) : bool :=
  match op with
  | OpSet r c v =>
      (v =? 0)
      || forallb (λ k, negb (RequiresUniqueness k)
                       || negb (bool_decide (r * 9 + c ∈ GetCells k))
                       || negb (stands_elsewhere b (GetCells k) (r * 9 + c) v))
                 (constraints b)
  | OpAddConstraint k => negb (RequiresUniqueness k) || scope_clean b (GetCells k)
  | _ => true
  end.

Fixpoint careful_ops (b : Board) (ops : list Op) : bool :=
  match ops with
  | [] => true
  | op :: rest => careful_op b op && careful_ops (run_op b op) rest
  end.

(** Whether the operation is a [Board.Set]. *)
Definition is_Set (op : Op) : bool :=
  match op with OpSet _ _ _ => true | _ => false end.

(** A play that sets 5 twice in row 0, the constraint of the row being
    registered, and a play that sets two different digits there. *)
Definition duplicate_play : list Op :=
  [OpAddConstraint (RowConstraint (mkBase (map (λ c, 0 * 9 + c) (seqZ 0 9)) false) 0);
   OpSet 0 0 5; OpSet 0 1 5].

Definition careful_play : list Op :=
  [OpAddConstraint (RowConstraint (mkBase (map (λ c, 0 * 9 + c) (seqZ 0 9)) false) 0);
   OpSet 0 0 5; OpSet 0 1 3; OpPencilMarks].

(** [k] came out of the constructor of a row, a column or a box. *)
Definition standard (k : Constraint) : Prop :=
  ∃ n, NewRowConstraint n = Some k ∨ NewColumnConstraint n = Some k
       ∨ NewBoxConstraint n = Some k.

(** The constraint of row 0 as [NewRowConstraint] returns it. *)
Definition row0 : Constraint :=
  RowConstraint (mkBase (map (λ c, 0 * 9 + c) (seqZ 0 9)) false) 0.

(** ** Deduction passes *)

(** A pass that only removes candidates, and says so: it places no value,
    adds no candidate, and answers true exactly when a candidate went. *)
Definition sound_pass (run : Board → bool * Board) : Prop :=
  ∀ b, shrinks b (run b).2
       ∧ (∀ r c, Get (run b).2 r c = Get b r c)
       ∧ ((run b).1 = false → (run b).2 = b)
       ∧ ((run b).1 = true → (total_candidates (run b).2 < total_candidates b)%nat).

(** ** Removing an observer *)

(** [CellNotifier.RemoveObserver] and the first loop of
    [Board.RemoveObserver]: the first entry equal to the observer goes. *)
Fixpoint remove_first (o : Observer) (l : list Observer) : list Observer :=
  match l with
  | [] => []
  | x :: rest => if decide (x = o) then rest else x :: remove_first o rest
  end.

Definition Cell_RemoveObserver (b : Board) (p : Z) (o : Observer) : Board :=
  match board b !! p with
  | None => b
  | Some c => store b p (with_notifier c (remove_first o (notifier c)))
  end.

(** [Board.RemoveObserver]. *)
Definition Board_RemoveObserver (b : Board) (o : Observer) : Board :=
  let b1 := mkBoard (board b) (constraints b) (remove_first o (observers b))
                    (events b) in
  fold_left (λ b' i, Cell_RemoveObserver b' i o) (seqZ 0 81) b1.

(** The observer is registered nowhere on the grid. *)
Definition unregistered (b : Board) (o : Observer) : Prop :=
  (o ∉ observers b) ∧ ∀ q c, board b !! q = Some c → (o ∉ notifier c).

(** ** Locality *)

(** From [b] to [b'] no cell changed outside the slots [S]. *)
Definition untouched (S : Z → Prop) (b b' : Board) : Prop :=
  ∀ q, ¬ S q → board b' !! q = board b !! q.

(** The slots a set of the cell in slot [p] may reach: the cell itself and
    the scopes of the constraints that observe it. *)
Definition reach (b : Board) (p : Z) (q : Z) : Prop :=
  q = p ∨ ∃ cell k, board b !! p = Some cell
                    ∧ ConstraintObserver k ∈ notifier cell ∧ q ∈ GetCells k.

(** ** Swordfish *)

(** The positions at which one of three lines holds the digit open. *)
Definition swordfish_positions (b : Board) (rowBased : bool) (d l1 l2 l3 : Z)
    : gset Z :=
  list_to_set (line_positions b rowBased d l1)
  ∪ list_to_set (line_positions b rowBased d l2)
  ∪ list_to_set (line_positions b rowBased d l3).

(** A grid on which rows 0, 3 and 6 hold the digit 5 open at columns
    {1,4}, {4,7} and {1,7}: the digit is struck by hand elsewhere in these
    rows. *)
Definition swordfish_board : Board :=
  fold_left
    (λ b rc, RemoveCandidate b (rc.1 * 9 + rc.2) 5)
    (flat_map (λ rcs, map (pair rcs.1)
                        (filter (λ c, c ∉ rcs.2) (seqZ 0 9)))
              [(0, [1; 4]); (3, [4; 7]); (6, [1; 7])])
    NewBoard.

(** ** Hidden subsets *)

(** The unsolved cells of a scope that have the digit as a candidate: the
    entry of [candidateLocations] for the digit. *)
Definition candidate_locations (b : Board) (cells : list Z) (d : Z) : list Z :=
  filter (λ cell, d ∈ candidates_at b cell) (unsolved_cells b cells).

(** The cells of a scope in which one of the digits is a candidate. *)
Definition hidden_cells (b : Board) (cells : list Z) (ds : list Z) : gset Z :=
  ⋃ (map (λ d, list_to_set (candidate_locations b cells d)) ds).

(** Cells 0 and 1 of row 0 are the only ones of the row to keep 3 and 7:
    the two digits are struck by hand from the seven other cells. *)
Definition hidden_pair_board : Board :=
  fold_left
    (λ b p, RemoveCandidate (RemoveCandidate b p 3) p 7)
    (seqZ 2 7) NewBoard.

(** ** The auto-solve observer (lib/observer) *)

(** [AutoSolverObserver].  The key of [cellsToSolve] is the text "row,col";
    two pairs of integers never print alike, so the key is the pair. *)
Record AutoSolverObserver : Type := mkAuto {
  enabled : bool;
  cellsToSolve : gmap (Z * Z) Z;
  solutionCount : Z
}.

Definition NewAutoSolverObserver : AutoSolverObserver := mkAuto true ∅ 0.

Definition Auto_OnSingleCandidate (a : AutoSolverObserver) (r c candidate : Z)
    : AutoSolverObserver :=
  if negb (enabled a) then a
  else mkAuto (enabled a) (<[(r, c) := candidate]> (cellsToSolve a)) (solutionCount a).

Definition Auto_OnCellSolved (a : AutoSolverObserver) (r c v : Z)
    : AutoSolverObserver :=
  if negb (enabled a) then a
  else mkAuto (enabled a) (delete (r, c) (cellsToSolve a)) (solutionCount a + 1).

Definition Auto_OnCandidateEliminated (a : AutoSolverObserver)
    (r c candidate remainingCount : Z) : AutoSolverObserver := a.

(** One notification, dispatched to its handler. *)
Definition deliver (a : AutoSolverObserver) (e : Event) : AutoSolverObserver :=
  match e with
  | SingleCandidate r c candidate => Auto_OnSingleCandidate a r c candidate
  | CellSolved r c v => Auto_OnCellSolved a r c v
  | CandidateEliminated r c candidate n => Auto_OnCandidateEliminated a r c candidate n
  end.

(** The observer registered as [Listener id] after the deliveries recorded
    in [evs], in order. *)
Definition replay (id : nat) (evs : list (Observer * Event)) (a : AutoSolverObserver)
    : AutoSolverObserver :=
  fold_left (λ a' oe, if decide (oe.1 = Listener id) then deliver a' oe.2 else a')
            evs a.

(** The state of an auto-solve observer that was new when the record of
    the grid began and has been left alone since. *)
Definition auto_state (id : nat) (b : Board) : AutoSolverObserver :=
  replay id (events b) NewAutoSolverObserver.

Definition no_AddCandidate (op : Op) : bool :=
  match op with OpAddCandidate _ _ _ => false | _ => true end.

(** The observer is registered with every cell of the grid. *)
Definition tracked (id : nat) (b : Board) : Prop :=
  ∀ p cell, board b !! p = Some cell → Listener id ∈ notifier cell.

(** Every cell the observer lists as solvable by [d] is an unsolved cell
    with no candidate but [d]; the cell [busy], being set, is excepted. *)
Definition listed_ok (id : nat) (busy : option (Z * Z)) (b : Board) : Prop :=
  ∀ r c d, cellsToSolve (auto_state id b) !! (r, c) = Some d →
    busy = Some (r, c)
    ∨ ∃ cell, board b !! (r * 9 + c) = Some cell ∧ row cell = r ∧ col cell = c
              ∧ value cell = 0 ∧ candidates cell ⊆ {[d]}.

Definition watching (id : nat) (busy : option (Z * Z)) (b : Board) : Prop :=
  board_ok b ∧ tracked id b ∧ listed_ok id busy b.

Definition solved_at (rc : Z * Z) (b : Board) : Prop :=
  ∃ cell, board b !! (rc.1 * 9 + rc.2) = Some cell
          ∧ row cell = rc.1 ∧ col cell = rc.2 ∧ value cell ≠ 0.

Definition unlisted (id : nat) (rc : Z * Z) (b : Board) : Prop :=
  cellsToSolve (auto_state id b) !! rc = None.

(** Eight removals that leave cell (0,0) with the candidate 9 alone. *)
Definition single_out_play : list Op :=
  map (λ d, OpRemoveCandidate 0 0 d) (seqZ 1 8).

(** ** Constraints as the constructors hand them out *)

(** [built k]: one of the six constructors returned [k]. *)
Definition built (k : Constraint) : Prop :=
  (∃ r, NewRowConstraint r = Some k)
  ∨ (∃ c, NewColumnConstraint c = Some k)
  ∨ (∃ box, NewBoxConstraint box = Some k)
  ∨ (∃ cells targetSum, NewKillerCageConstraint cells targetSum = Some k)
  ∨ (∃ cells, NewRenbanConstraint cells = Some k)
  ∨ (∃ cells, NewGermanWhispersConstraint cells = Some k).

(** [blank b]: no cell of the grid holds a value. *)
Definition blank (b : Board) : Prop :=
  ∀ i cell, board b !! i = Some cell → value cell = 0.

(** * Properties *)

(** ** Reading cells *)

Lemma GetCellAt_Some b r c p cell :
  GetCellAt b r c = Some (p, cell) ↔
  (0 <= r <= 8 ∧ 0 <= c <= 8) ∧ p = r * 9 + c ∧ board b !! p = Some cell.
Proof.
  unfold GetCellAt.
  destruct ((r <? 0) || (r >? 8) || (c <? 0) || (c >? 8)) eqn:E.
  - split; [done|]. intros [? _]. lia.
  - destruct (board b !! (r * 9 + c)) eqn:L.
    + split.
      * intros [= <- <-]. repeat split; try lia; done.
      * intros (_ & -> & H). congruence.
    + split; [done|]. intros (_ & -> & H). congruence.
Qed.

Lemma GetCell_Some b i p cell :
  GetCell b i = Some (p, cell) ↔ 0 <= i <= 80 ∧ p = i ∧ board b !! i = Some cell.
Proof.
  unfold GetCell.
  destruct ((i <? 0) || (i >? 80)) eqn:E.
  - split; [done|]. intros [? _]. lia.
  - destruct (board b !! i) eqn:L.
    + split.
      * intros [= <- <-]. repeat split; try lia; done.
      * intros (_ & -> & H). congruence.
    + split; [done|]. intros (_ & -> & H). congruence.
Qed.

(** Reading a cell through the coordinates of an index reads the slot of
    that index, and only indices within 0..80 have a cell. *)
Lemma GetCellAt_quot_rem b idx p cell :
  GetCellAt b (Z.quot idx 9) (Z.rem idx 9) = Some (p, cell) ↔
  0 <= idx <= 80 ∧ p = idx ∧ board b !! idx = Some cell.
Proof.
  rewrite GetCellAt_Some.
  pose proof (Z.quot_rem' idx 9) as Hqr.
  split.
  - intros ((Hr & Hc) & -> & H).
    assert (Z.quot idx 9 * 9 + Z.rem idx 9 = idx) as Hi by lia.
    rewrite Hi in *. repeat split; try done; lia.
  - intros (Hi & -> & H).
    assert (0 <= Z.rem idx 9 < 9) by (apply Z.rem_bound_pos; lia).
    assert (0 <= Z.quot idx 9) by (apply Z.quot_pos; lia).
    assert (Z.quot idx 9 * 9 + Z.rem idx 9 = idx) as Hi' by lia.
    rewrite Hi'. repeat split; try done; lia.
Qed.

(** ** What a notification leaves alone *)

Lemma record_fold_fields (e : Event) obs b :
  let b' := fold_left (λ b' o, record b' o e) obs b in
  board b' = board b ∧ constraints b' = constraints b ∧ observers b' = observers b
  ∧ events b' = events b ++ map (λ o, (o, e)) obs.
Proof.
  revert b. induction obs as [|o obs IH]; intros b; simpl.
  - by rewrite app_nil_r.
  - destruct (IH (record b o e)) as (-> & -> & -> & ->). simpl.
    by rewrite <- app_assoc.
Qed.

(** The grid after [RemoveCandidate], field by field. *)
Lemma RemoveCandidate_fields b p d :
  let b' := RemoveCandidate b p d in
  constraints b' = constraints b ∧ observers b' = observers b ∧
  board b' =
    match board b !! p with
    | Some c =>
        if (value c =? 0) && bool_decide (d ∈ candidates c)
        then <[p := with_candidates c (candidates c ∖ {[d]})]> (board b)
        else board b
    | None => board b
    end.
Proof.
  unfold RemoveCandidate.
  destruct (board b !! p) as [c|] eqn:L; [|done].
  destruct ((value c =? 0) && bool_decide (d ∈ candidates c)); [|done].
  cbv zeta.
  set (c' := with_candidates c _).
  set (b2 := NotifyCandidateEliminated _ _ _ _ _ _).
  assert (board b2 = <[p:=c']> (board b) ∧ constraints b2 = constraints b
          ∧ observers b2 = observers b) as (Hb & Hc & Ho).
  { subst b2. unfold NotifyCandidateEliminated.
    destruct (record_fold_fields
                (CandidateEliminated (row c') (col c') d
                   (Z.of_nat (size (candidates c'))))
                (notifier c') (store b p c')) as (-> & -> & -> & _). done. }
  destruct (Z.of_nat (size (candidates c')) =? 1); [|done].
  destruct (GetCandidatesAsSlice (candidates c')) as [|lastCandidate ?]; [done|].
  unfold NotifySingleCandidate.
  destruct (record_fold_fields (SingleCandidate (row c') (col c') lastCandidate)
              (notifier c') b2) as (-> & -> & -> & _). done.
Qed.

Lemma RemoveCandidate_no_effect b p d c :
  board b !! p = Some c → HasCandidate c d = false → RemoveCandidate b p d = b.
Proof.
  intros L H. unfold RemoveCandidate, HasCandidate in *. rewrite L.
  destruct (value c =? 0); simpl in *; [|done]. by rewrite H.
Qed.

Lemma RemoveCandidate_nil b p d : board b !! p = None → RemoveCandidate b p d = b.
Proof. intros L. unfold RemoveCandidate. by rewrite L. Qed.

(** ** Elimination only shrinks *)

Lemma cell_shrinks_refl c : cell_shrinks c c.
Proof. by repeat split. Qed.

Lemma cell_shrinks_trans c1 c2 c3 :
  cell_shrinks c1 c2 → cell_shrinks c2 c3 → cell_shrinks c1 c3.
Proof.
  intros (?&?&?&?&?&?) (?&?&?&?&?&?). repeat split; try congruence. set_solver.
Qed.

#[global] Instance shrinks_refl : Reflexive shrinks.
Proof.
  intros b. repeat split. intros p. destruct (board b !! p); constructor.
  apply cell_shrinks_refl.
Qed.

#[global] Instance shrinks_trans : Transitive shrinks.
Proof.
  intros b1 b2 b3 (Hc1 & Ho1 & H1) (Hc2 & Ho2 & H2).
  repeat split; try congruence. intros p.
  specialize (H1 p). specialize (H2 p).
  destruct H1 as [c1 c2 H1|]; inversion H2; subst; constructor.
  eauto using cell_shrinks_trans.
Qed.

Lemma shrinks_lookup b b' p c :
  shrinks b b' → board b !! p = Some c →
  ∃ c', board b' !! p = Some c' ∧ cell_shrinks c c'.
Proof.
  intros (_ & _ & H) L. specialize (H p). rewrite L in H. inversion H; subst. eauto.
Qed.

Lemma shrinks_lookup_inv b b' p c' :
  shrinks b b' → board b' !! p = Some c' →
  ∃ c, board b !! p = Some c ∧ cell_shrinks c c'.
Proof.
  intros (_ & _ & H) L. specialize (H p). rewrite L in H. inversion H; subst. eauto.
Qed.

Lemma shrinks_lookup_None b b' p :
  shrinks b b' → board b !! p = None ↔ board b' !! p = None.
Proof.
  intros (_ & _ & H). specialize (H p). split; intros L; rewrite L in H; by inversion H.
Qed.

Lemma cell_shrinks_HasCandidate c c' d :
  cell_shrinks c c' → HasCandidate c d = false → HasCandidate c' d = false.
Proof.
  intros (_&_&_&Hv&_&Hs). unfold HasCandidate. rewrite Hv.
  destruct (negb (value c =? 0)); [done|].
  rewrite !bool_decide_eq_false. set_solver.
Qed.

Lemma cell_shrinks_IsSolved c c' : cell_shrinks c c' → IsSolved c' = IsSolved c.
Proof. intros (_&_&_&Hv&_). unfold IsSolved. by rewrite Hv. Qed.

Lemma record_shrinks b o e : shrinks b (record b o e).
Proof. repeat split. intros p. simpl. destruct (board b !! p); constructor. apply cell_shrinks_refl. Qed.

Lemma RemoveCandidate_shrinks b p d : shrinks b (RemoveCandidate b p d).
Proof.
  destruct (RemoveCandidate_fields b p d) as (Hc & Ho & Hb).
  repeat split; try done. intros q. rewrite Hb.
  destruct (board b !! p) as [c|] eqn:L.
  - destruct ((value c =? 0) && bool_decide (d ∈ candidates c)).
    + destruct (decide (p = q)) as [->|Hne].
      * rewrite lookup_insert_eq, L. constructor.
        repeat split; simpl; try done. set_solver.
      * rewrite lookup_insert_ne by done.
        destruct (board b !! q); constructor. apply cell_shrinks_refl.
    + destruct (board b !! q); constructor. apply cell_shrinks_refl.
  - destruct (board b !! q); constructor. apply cell_shrinks_refl.
Qed.

(** A loop whose every round shrinks, shrinks. *)
Lemma fold_left_shrinks {A} (f : Board → A → Board) (l : list A) :
  (∀ b x, shrinks b (f b x)) → ∀ b, shrinks b (fold_left f l b).
Proof.
  intros Hf. induction l as [|x l IH]; intros b; simpl; [reflexivity|].
  etransitivity; [apply Hf|apply IH].
Qed.

(** ** The measure: the candidates still standing across the grid *)

Lemma HasCandidate_true c d :
  HasCandidate c d = true ↔ value c = 0 ∧ d ∈ candidates c.
Proof.
  unfold HasCandidate. destruct (Z.eqb_spec (value c) 0) as [E|E]; simpl.
  - rewrite bool_decide_eq_true. naive_solver.
  - naive_solver.
Qed.

Lemma HasCandidate_GetCandidates c d :
  HasCandidate c d = true ↔ d ∈ GetCandidates c.
Proof.
  rewrite HasCandidate_true. unfold GetCandidates.
  destruct (Z.eqb_spec (value c) 0) as [E|E]; simpl; set_solver.
Qed.

Lemma elem_of_cand_pairs b p d :
  (p, d) ∈ cand_pairs b ↔ ∃ c, board b !! p = Some c ∧ HasCandidate c d = true.
Proof.
  unfold cand_pairs. rewrite elem_of_union_list. split.
  - intros (X & HX & Hin).
    apply list_elem_of_fmap in HX as ([q c] & -> & Hqc).
    apply elem_of_map_to_list in Hqc. simpl in Hin.
    apply elem_of_map in Hin as (d' & [= -> ->] & Hd).
    exists c. split; [done|]. by apply HasCandidate_GetCandidates.
  - intros (c & L & H).
    exists (set_map (pair p) (GetCandidates c)). split.
    + apply list_elem_of_fmap. exists (p, c). split; [done|].
      by apply elem_of_map_to_list.
    + apply elem_of_map. exists d. split; [done|].
      by apply HasCandidate_GetCandidates.
Qed.

Lemma shrinks_cand_pairs b b' : shrinks b b' → cand_pairs b' ⊆ cand_pairs b.
Proof.
  intros Hs [p d]. rewrite !elem_of_cand_pairs. intros (c' & L' & H).
  destruct (shrinks_lookup_inv _ _ _ _ Hs L') as (c & L & Hcs).
  exists c. split; [done|].
  destruct (HasCandidate c d) eqn:E; [done|].
  by rewrite (cell_shrinks_HasCandidate _ _ _ Hcs E) in H.
Qed.

Lemma shrinks_total b b' : shrinks b b' → (total_candidates b' <= total_candidates b)%nat.
Proof.
  intros Hs. unfold total_candidates. apply subseteq_size. by apply shrinks_cand_pairs.
Qed.

(** After [RemoveCandidate] the digit is no candidate of the cell. *)
Lemma RemoveCandidate_gone b p d c' :
  board (RemoveCandidate b p d) !! p = Some c' → HasCandidate c' d = false.
Proof.
  destruct (RemoveCandidate_fields b p d) as (_ & _ & Hb). rewrite Hb.
  destruct (board b !! p) as [c|] eqn:L.
  - destruct (Z.eqb_spec (value c) 0) as [Ev|Ev]; simpl.
    + case_bool_decide as Hd.
      * rewrite lookup_insert_eq. intros [= <-].
        unfold HasCandidate. simpl. rewrite Ev. simpl.
        apply bool_decide_eq_false. set_solver.
      * rewrite L. intros [= <-]. unfold HasCandidate. rewrite Ev. simpl.
        by apply bool_decide_eq_false.
    + rewrite L. intros [= <-]. unfold HasCandidate.
      destruct (Z.eqb_spec (value c) 0); [done|]. done.
  - by rewrite L.
Qed.

(** A removal that takes effect strictly shrinks the measure. *)
Lemma RemoveCandidate_strict b p d c :
  board b !! p = Some c → HasCandidate c d = true →
  cand_pairs (RemoveCandidate b p d) ⊂ cand_pairs b.
Proof.
  intros L H. split.
  - apply shrinks_cand_pairs, RemoveCandidate_shrinks.
  - intros Hsub.
    assert ((p, d) ∈ cand_pairs (RemoveCandidate b p d)) as Hin.
    { apply Hsub, elem_of_cand_pairs. eauto. }
    apply elem_of_cand_pairs in Hin as (c' & L' & H').
    by rewrite (RemoveCandidate_gone _ _ _ _ L') in H'.
Qed.

(** ** Rounds that report whether they changed anything *)

Lemma step_ok_refl st : step_ok st st.
Proof. split; [reflexivity|by left]. Qed.

Lemma step_ok_trans st1 st2 st3 : step_ok st1 st2 → step_ok st2 st3 → step_ok st1 st3.
Proof.
  intros [Hs1 H1] [Hs2 H2]. split; [by etransitivity|].
  destruct H2 as [->|[Hf2 Hlt2]]; [done|].
  right. split; [done|].
  destruct H1 as [->|[_ Hlt1]]; [done|].
  eapply strict_trans_l; [apply Hlt2|]. by apply strict_include.
Qed.

Lemma fold_left_step_ok {A} (f : bool * Board → A → bool * Board) (l : list A) :
  (∀ st x, step_ok st (f st x)) → ∀ st, step_ok st (fold_left f l st).
Proof.
  intros Hf. induction l as [|x l IH]; intros st; simpl; [apply step_ok_refl|].
  eapply step_ok_trans; [apply Hf|apply IH].
Qed.

(** A round that reports no change changed nothing; one that reports a
    change brought the measure down. *)
Lemma step_ok_unchanged b ch b' : step_ok (false, b) (ch, b') → ch = false → b' = b.
Proof. intros [_ [[= _ ->]|[Hf _]]] ->; [done|]. simpl in Hf. done. Qed.

Lemma step_ok_changed b ch b' :
  step_ok (false, b) (ch, b') → ch = true →
  (total_candidates b' < total_candidates b)%nat.
Proof.
  intros [_ [[= -> _]|[_ Hlt]]] Hch; [done|].
  unfold total_candidates. by apply subset_size.
Qed.

(** Two rounds in a row, the flags joined as the sources join them. *)
Lemma step_ok_seq b ch1 b1 ch2 b2 :
  step_ok (false, b) (ch1, b1) → step_ok (false, b1) (ch2, b2) →
  step_ok (false, b) (ch1 || ch2, b2).
Proof.
  intros [Hs1 H1] [Hs2 H2]. simpl in *. split; [by etransitivity|]. simpl.
  destruct H2 as [[= -> ->]|[Hf2 Hlt2]].
  - rewrite orb_false_r.
    destruct H1 as [[= -> ->]|[Hf1 Hlt1]]; [by left|]. right. done.
  - simpl in *. subst ch2. right. rewrite orb_true_r. split; [done|].
    destruct H1 as [[= _ ->]|[_ Hlt1]]; [done|].
    eapply strict_trans_l; [apply Hlt2|]. by apply strict_include.
Qed.

Lemma eliminate_step_ok st p d : step_ok st (eliminate st p d).
Proof.
  unfold eliminate. destruct (board st.2 !! p) as [c|] eqn:L; [|apply step_ok_refl].
  destruct (HasCandidate c d) eqn:H; [|apply step_ok_refl].
  split; simpl; [apply RemoveCandidate_shrinks|].
  right. split; [done|]. by eapply RemoveCandidate_strict.
Qed.

Lemma eliminate_at_step_ok st rowBased line pos d :
  step_ok st (eliminate_at st (line_cell st.2 rowBased line pos) d).
Proof.
  unfold eliminate_at.
  destruct (line_cell st.2 rowBased line pos) as [[p c]|] eqn:G; [|apply step_ok_refl].
  assert (board st.2 !! p = Some c) as L.
  { unfold line_cell in G. destruct rowBased; apply GetCellAt_Some in G; tauto. }
  destruct (IsSolved c); simpl; [apply step_ok_refl|].
  destruct (HasCandidate c d) eqn:H; [|apply step_ok_refl].
  split; simpl; [apply RemoveCandidate_shrinks|].
  right. split; [done|]. by eapply RemoveCandidate_strict.
Qed.

(** ** Every deduction pass is such a round *)

Lemma naked_combo_step_ok unsolvedCells subsetSize st combo :
  step_ok st (naked_combo unsolvedCells subsetSize st combo).
Proof.
  unfold naked_combo. cbv zeta.
  destruct (_ =? subsetSize); [|apply step_ok_refl].
  apply fold_left_step_ok. intros st' cell.
  destruct (negb _); [|apply step_ok_refl].
  apply fold_left_step_ok. intros st'' d. apply eliminate_step_ok.
Qed.

Lemma ApplyNakedSubsets_step_ok b cells maxSubsetSize :
  step_ok (false, b) (ApplyNakedSubsets b cells maxSubsetSize).
Proof.
  unfold ApplyNakedSubsets.
  case_bool_decide; [apply step_ok_refl|]. cbv zeta.
  destruct (_ <? 2); [apply step_ok_refl|].
  apply fold_left_step_ok. intros st k.
  apply fold_left_step_ok. intros st' combo. apply naked_combo_step_ok.
Qed.

Lemma hidden_combo_step_ok locs active subsetSize st combo :
  step_ok st (hidden_combo locs active subsetSize st combo).
Proof.
  unfold hidden_combo. cbv zeta.
  destruct (_ =? subsetSize); [|apply step_ok_refl].
  apply fold_left_step_ok. intros st' cell.
  apply fold_left_step_ok. intros st'' d.
  destruct (negb _); [apply eliminate_step_ok|apply step_ok_refl].
Qed.

Lemma ApplyHiddenSubsets_step_ok b cells maxSubsetSize :
  step_ok (false, b) (ApplyHiddenSubsets b cells maxSubsetSize).
Proof.
  unfold ApplyHiddenSubsets.
  case_bool_decide; [apply step_ok_refl|]. cbv zeta.
  destruct (_ <? 2); [apply step_ok_refl|].
  destruct (_ <? 2); [apply step_ok_refl|].
  apply fold_left_step_ok. intros st k.
  apply fold_left_step_ok. intros st' combo. apply hidden_combo_step_ok.
Qed.

Lemma subset_pass_step_ok b cells maxSize :
  step_ok (false, b) (subset_pass b cells maxSize).
Proof.
  unfold subset_pass.
  pose proof (ApplyNakedSubsets_step_ok b cells maxSize) as H1.
  destruct (ApplyNakedSubsets b cells maxSize) as [ch1 b1].
  pose proof (ApplyHiddenSubsets_step_ok b1 cells maxSize) as H2.
  destruct (ApplyHiddenSubsets b1 cells maxSize) as [ch2 b2].
  rewrite orb_comm. by eapply step_ok_seq.
Qed.

Lemma Constraint_ApplyPencilMarkConstraints_step_ok k b :
  step_ok (false, b) (Constraint_ApplyPencilMarkConstraints k b).
Proof.
  destruct k; simpl; try apply subset_pass_step_ok. apply step_ok_refl.
Qed.

(** A pass started with the flag down, joined to the flag so far. *)
Lemma step_ok_join st ch b' :
  step_ok (false, st.2) (ch, b') → step_ok st (if ch then true else st.1, b').
Proof.
  intros [Hs H]. split; [done|]. simpl in *.
  destruct H as [[= -> ->]|[Hf Hlt]].
  - left. by destruct st.
  - simpl in Hf. subst ch. by right.
Qed.

Lemma ApplyPencilMarkConstraints_step_ok b :
  step_ok (false, b) (ApplyPencilMarkConstraints b).
Proof.
  unfold ApplyPencilMarkConstraints.
  apply fold_left_step_ok. intros st k.
  destruct (RequiresUniqueness k); [|apply step_ok_refl].
  pose proof (Constraint_ApplyPencilMarkConstraints_step_ok k st.2) as H.
  destruct (Constraint_ApplyPencilMarkConstraints k st.2) as [ch b'].
  by apply step_ok_join.
Qed.

Lemma sweep_lines_step_ok rowBased d skip positions st :
  step_ok st (sweep_lines rowBased d skip positions st).
Proof.
  unfold sweep_lines. apply fold_left_step_ok. intros st' otherLine.
  destruct (negb _); [|apply step_ok_refl].
  apply fold_left_step_ok. intros st'' pos. apply eliminate_at_step_ok.
Qed.

Lemma xwing_pair_step_ok rowBased d lp st ll :
  step_ok st (xwing_pair rowBased d lp st ll).
Proof.
  unfold xwing_pair. destruct ll as [line1 line2].
  destruct (default [] (lp !! line1)) as [|a1 [|a2 [|? ?]]]; try apply step_ok_refl.
  destruct (default [] (lp !! line2)) as [|c1 [|c2 [|? ?]]]; try apply step_ok_refl.
  destruct (_ && _); [apply sweep_lines_step_ok|apply step_ok_refl].
Qed.

Lemma xwing_candidate_step_ok rowBased st d :
  step_ok st (xwing_candidate rowBased st d).
Proof.
  unfold xwing_candidate. apply fold_left_step_ok. intros st' ll.
  apply xwing_pair_step_ok.
Qed.

Lemma applyXWingsInDirection_step_ok b rowBased :
  step_ok (false, b) (applyXWingsInDirection b rowBased).
Proof.
  unfold applyXWingsInDirection. apply fold_left_step_ok. intros st d.
  apply xwing_candidate_step_ok.
Qed.

Lemma applyXWings_step_ok b : step_ok (false, b) (applyXWings b).
Proof.
  unfold applyXWings.
  pose proof (applyXWingsInDirection_step_ok b true) as H1.
  destruct (applyXWingsInDirection b true) as [ch1 b1].
  pose proof (applyXWingsInDirection_step_ok b1 false) as H2.
  destruct (applyXWingsInDirection b1 false) as [ch2 b2].
  by eapply step_ok_seq.
Qed.

Lemma swordfish_triple_step_ok rowBased d lp st lll :
  step_ok st (swordfish_triple rowBased d lp st lll).
Proof.
  unfold swordfish_triple. destruct lll as [[line1 line2] line3].
  cbv zeta. destruct (_ =? 3)%nat; [apply sweep_lines_step_ok|apply step_ok_refl].
Qed.

Lemma applySwordfishInDirection_step_ok b rowBased :
  step_ok (false, b) (applySwordfishInDirection b rowBased).
Proof.
  unfold applySwordfishInDirection. apply fold_left_step_ok. intros st d.
  unfold swordfish_candidate. apply fold_left_step_ok. intros st' lll.
  apply swordfish_triple_step_ok.
Qed.

Lemma applySwordfish_step_ok b : step_ok (false, b) (applySwordfish b).
Proof.
  unfold applySwordfish.
  pose proof (applySwordfishInDirection_step_ok b true) as H1.
  destruct (applySwordfishInDirection b true) as [ch1 b1].
  pose proof (applySwordfishInDirection_step_ok b1 false) as H2.
  destruct (applySwordfishInDirection b1 false) as [ch2 b2].
  by eapply step_ok_seq.
Qed.

Lemma xywing_pivot_step_ok st pivot : step_ok st (xywing_pivot st pivot).
Proof.
  unfold xywing_pivot.
  destruct (board st.2 !! pivot) as [c|]; [|apply step_ok_refl].
  destruct (GetCandidatesAsSlice _) as [|X [|Y [|? ?]]]; try apply step_ok_refl.
  cbv zeta. apply fold_left_step_ok. intros st1 wing1.
  unfold xywing_wing1.
  destruct (two_candidates st1.2 wing1) as [w1|]; [|apply step_ok_refl].
  destruct (wing_digit X Y w1) as [Z1|]; [|apply step_ok_refl].
  apply fold_left_step_ok. intros st2 wing2.
  unfold xywing_wing2.
  destruct (wing2 =? wing1); [apply step_ok_refl|].
  destruct (two_candidates st2.2 wing2) as [w2|]; [|apply step_ok_refl].
  destruct (wing_digit X Y w2) as [Z2|]; [|apply step_ok_refl].
  destruct (Z1 =? Z2); [|apply step_ok_refl].
  unfold xywing_eliminate. apply fold_left_step_ok. intros st3 cell.
  destruct (_ || _); [apply step_ok_refl|].
  case_bool_decide; [apply eliminate_step_ok|apply step_ok_refl].
Qed.

Lemma applyXYWings_step_ok b : step_ok (false, b) (applyXYWings b).
Proof.
  unfold applyXYWings. apply fold_left_step_ok. intros st pivot.
  apply xywing_pivot_step_ok.
Qed.

Lemma ApplyAdvancedTechniques_step_ok b :
  step_ok (false, b) (ApplyAdvancedTechniques b).
Proof.
  unfold ApplyAdvancedTechniques.
  pose proof (applyXWings_step_ok b) as H1.
  destruct (applyXWings b) as [ch1 b1].
  pose proof (applySwordfish_step_ok b1) as H2.
  destruct (applySwordfish b1) as [ch2 b2].
  pose proof (applyXYWings_step_ok b2) as H3.
  destruct (applyXYWings b2) as [ch3 b3].
  eapply step_ok_seq; [|exact H3]. by eapply step_ok_seq.
Qed.

(** ** Propagation only shrinks *)

Lemma strike_shrinks b otherCell d : shrinks b (strike b otherCell d).
Proof.
  unfold strike. destruct otherCell as [[p oc]|]; [|reflexivity].
  destruct (negb _); [apply RemoveCandidate_shrinks|reflexivity].
Qed.

Lemma propagate_by_position_shrinks b cells r c v :
  shrinks b (propagate_by_position b cells r c v).
Proof.
  unfold propagate_by_position. apply fold_left_shrinks. intros b' i.
  destruct (_ || _); [apply strike_shrinks|reflexivity].
Qed.

Lemma propagate_by_index_shrinks b cells r c v :
  shrinks b (propagate_by_index b cells r c v).
Proof.
  unfold propagate_by_index. cbv zeta. apply fold_left_shrinks. intros b' i.
  destruct (negb _); [apply strike_shrinks|reflexivity].
Qed.

Lemma prune_empty_cells_shrinks b cells prune :
  shrinks b (prune_empty_cells b cells prune).
Proof.
  unfold prune_empty_cells. apply fold_left_shrinks. intros b' idx.
  destruct (GetCellAt _ _ _) as [[p oc]|]; [|reflexivity].
  destruct (value oc =? 0); [|reflexivity].
  apply fold_left_shrinks. intros b'' d.
  destruct (prune d); [apply RemoveCandidate_shrinks|reflexivity].
Qed.

Lemma whisper_neighbour_shrinks b neighbour v :
  shrinks b (whisper_neighbour b neighbour v).
Proof.
  unfold whisper_neighbour. destruct neighbour as [[p nc]|]; [|reflexivity].
  destruct (negb _); [|reflexivity].
  apply fold_left_shrinks. intros b' d.
  destruct (_ <? 5); [apply RemoveCandidate_shrinks|reflexivity].
Qed.

Lemma PropagateValueChange_shrinks k b r c v :
  shrinks b (PropagateValueChange k b r c v).
Proof.
  unfold PropagateValueChange.
  destruct (v =? 0); [reflexivity|].
  destruct (negb _); [reflexivity|].
  destruct k.
  - apply propagate_by_position_shrinks.
  - apply propagate_by_position_shrinks.
  - apply propagate_by_position_shrinks.
  - unfold KillerCage_PropagateValueChange. cbv zeta.
    etransitivity; [apply propagate_by_index_shrinks|apply prune_empty_cells_shrinks].
  - unfold Renban_PropagateValueChange. cbv zeta.
    etransitivity; [apply propagate_by_index_shrinks|apply prune_empty_cells_shrinks].
  - unfold GermanWhispers_PropagateValueChange. cbv zeta.
    destruct (list_find _ _) as [[pos ?]|]; [|reflexivity].
    etransitivity.
    2:{ destruct (Cells base !! S pos); [apply whisper_neighbour_shrinks|reflexivity]. }
    destruct pos as [|pos']; [reflexivity|].
    destruct (Cells base !! pos'); [apply whisper_neighbour_shrinks|reflexivity].
Qed.

Lemma OnCellSolved_shrinks o b r c v : shrinks b (OnCellSolved o b r c v).
Proof.
  unfold OnCellSolved, BaseConstraint_PropagateValueChange. cbv zeta.
  destruct o; apply (record_shrinks b _ (CellSolved r c v)).
Qed.

Lemma NotifyCellSolved_shrinks b obs r c v : shrinks b (NotifyCellSolved b obs r c v).
Proof.
  unfold NotifyCellSolved. apply fold_left_shrinks. intros b' o.
  apply OnCellSolved_shrinks.
Qed.

(** Solving a cell takes its candidates off the measure, and what follows
    only shrinks. *)
Lemma SetValue_measure b p v :
  v ≠ 0 → cand_pairs (SetValue b p v).1 ⊆ cand_pairs b.
Proof.
  intros Hv. unfold SetValue.
  destruct ((v <? 0) || (v >? 9)); [done|].
  destruct (board b !! p) as [c|] eqn:L; [|done].
  destruct (Z.eqb_spec v 0) as [|_]; [done|]. simpl.
  etransitivity; [apply shrinks_cand_pairs, NotifyCellSolved_shrinks|].
  intros [q d]. rewrite !elem_of_cand_pairs. simpl.
  destruct (decide (p = q)) as [->|Hne].
  - rewrite lookup_insert_eq. intros (c' & [= <-] & H).
    apply HasCandidate_true in H as [H _]. simpl in H. done.
  - by rewrite lookup_insert_ne.
Qed.

(** ** Reads outside the grid *)

(** C10.  Reading outside the grid is total and silent: [Get] with a row or
    a column outside 0..8 returns 0, which is also what reading any unsolved
    cell of the grid returns. *)
Theorem Get_out_of_bounds_is_zero (b : Board) (r c : Z) :
  bad_position r c →
  Get b r c = 0
  ∧ ∀ r' c' p cell,
      GetCellAt b r' c' = Some (p, cell) → IsSolved cell = false →
      Get b r' c' = Get b r c.
Proof.
  intros Hbad.
  assert (Get b r c = 0) as H0.
  { unfold Get, bad_position in *.
    destruct ((r <? 0) || (r >? 8) || (c <? 0) || (c >? 8)) eqn:E; [done|]. lia. }
  split; [done|].
  intros r' c' p cell HG Hun. rewrite H0.
  apply GetCellAt_Some in HG as (Hrange & -> & L).
  unfold Get. destruct ((r' <? 0) || (r' >? 8) || (c' <? 0) || (c' >? 8)); [done|].
  rewrite L. unfold IsSolved in Hun.
  destruct (Z.eqb_spec (value cell) 0); [done|discriminate].
Qed.

Lemma Get_out_of_bounds_is_zero_witness :
  bad_position 9 (-1) ∧ Get NewBoard 9 (-1) = 0.
Proof.
  assert (bad_position 9 (-1)) as H by (unfold bad_position; lia).
  split; [exact H|].
  exact (proj1 (Get_out_of_bounds_is_zero NewBoard 9 (-1) H)).
Defined.

Lemma fst_map_graph {A B} (f : A → B) (l : list A) : (map (λ i, (i, f i)) l).*1 = l.
Proof. induction l as [|x l IH]; [done|]. cbn. by rewrite IH. Qed.

Lemma NewBoard_lookup i :
  0 <= i <= 80 → board NewBoard !! i = Some (NewCell (Z.quot i 9) (Z.rem i 9)).
Proof.
  intros Hi. unfold NewBoard. cbn [board].
  apply elem_of_list_to_map.
  - rewrite fst_map_graph. apply NoDup_seqZ.
  - apply list_elem_of_In, in_map_iff. exists i. split; [done|].
    apply list_elem_of_In, elem_of_seqZ. lia.
Qed.

Lemma NewBoard_populated : populated NewBoard.
Proof. intros i Hi. rewrite NewBoard_lookup by done. eauto. Qed.

(** ** Rejected mutations *)

Lemma SetValue_bad_value b p v : bad_value v → SetValue b p v = (b, Some InvalidValue).
Proof.
  intros H. unfold SetValue, bad_value in *.
  destruct ((v <? 0) || (v >? 9)) eqn:E; [done|]. lia.
Qed.

#[global] Instance bad_position_dec r c : Decision (bad_position r c).
Proof. unfold bad_position. apply _. Defined.

Lemma Board_Set_bad_position b r c v :
  bad_position r c → Board_Set b r c v = (b, Some (InvalidPosition r c)).
Proof.
  intros H. unfold Board_Set, bad_position in *.
  destruct ((r <? 0) || (r >? 8) || (c <? 0) || (c >? 8)) eqn:E; [done|]. lia.
Qed.

Lemma Board_Set_good_position b r c v :
  ¬ bad_position r c →
  Board_Set b r c v =
    SetValue (match board b !! (r * 9 + c) with
              | None => store b (r * 9 + c) (NewCell r c)
              | Some _ => b
              end) (r * 9 + c) v.
Proof.
  intros H. unfold Board_Set, bad_position in *.
  destruct ((r <? 0) || (r >? 8) || (c <? 0) || (c >? 8)) eqn:E; [|done]. lia.
Qed.

(** C8.  A rejected [Board.Set] is atomic.  With a row or column outside
    0..8, or a value outside 0..9, the call returns an error (the position
    error when the position is bad, the value error otherwise); constraints,
    board observers and the record of notifications are as before; every
    cell is exactly as before (value, candidates, observers); on a grid with
    all its 81 cells the whole state is the one before; and the same call
    made again returns the same error and the same state. *)
Theorem Board_Set_rejected_is_atomic (b : Board) (r c v : Z) :
  bad_position r c ∨ bad_value v →
  ∃ err b',
    Board_Set b r c v = (b', Some err)
    ∧ (bad_position r c → err = InvalidPosition r c)
    ∧ (¬ bad_position r c → err = InvalidValue)
    ∧ constraints b' = constraints b ∧ observers b' = observers b
    ∧ events b' = events b
    ∧ (∀ p cell, board b !! p = Some cell → board b' !! p = Some cell)
    ∧ (populated b → b' = b)
    ∧ Board_Set b' r c v = (b', Some err).
Proof.
  intros Hbad.
  destruct (decide (bad_position r c)) as [Hpos|Hpos].
  - exists (InvalidPosition r c), b.
    rewrite Board_Set_bad_position by done. repeat split; done.
  - destruct Hbad as [?|Hv]; [done|].
    exists InvalidValue.
    destruct (board b !! (r * 9 + c)) as [cell|] eqn:L.
    + exists b.
      assert (Board_Set b r c v = (b, Some InvalidValue)) as E.
      { rewrite Board_Set_good_position, L by done. by apply SetValue_bad_value. }
      rewrite E. repeat split; done.
    + set (b1 := store b (r * 9 + c) (NewCell r c)). exists b1.
      assert (Board_Set b r c v = (b1, Some InvalidValue)) as E.
      { rewrite Board_Set_good_position, L by done. by apply SetValue_bad_value. }
      assert (Board_Set b1 r c v = (b1, Some InvalidValue)) as E1.
      { rewrite Board_Set_good_position by done. subst b1. cbn [board store].
        rewrite lookup_insert_eq. by apply SetValue_bad_value. }
      rewrite E, E1. repeat split; try done.
      * intros p cell Lp. subst b1. cbn [board store].
        rewrite lookup_insert_ne; [done|]. congruence.
      * intros Hpop. destruct (Hpop (r * 9 + c)) as [x Hx].
        { unfold bad_position in Hpos. lia. }
        congruence.
Qed.

Lemma Board_Set_rejected_is_atomic_witness :
  ∃ err b', Board_Set NewBoard 0 0 10 = (b', Some err) ∧ b' = NewBoard.
Proof.
  assert (bad_position 0 0 ∨ bad_value 10) as H by (right; unfold bad_value; lia).
  destruct (Board_Set_rejected_is_atomic NewBoard 0 0 10 H)
    as (err & b' & Heq & _ & _ & _ & _ & _ & _ & Hpop & _).
  exists err, b'. split; [exact Heq|]. apply Hpop. apply NewBoard_populated.
Defined.

(** ** Clearing a cell *)

Lemma SetValue_solved_cell b p v c :
  board b !! p = Some c → 1 <= v <= 9 →
  ∃ c', board (SetValue b p v).1 !! p = Some c'
        ∧ value c' = v ∧ candidates c' = ∅ ∧ notifier c' = notifier c.
Proof.
  intros L Hv. unfold SetValue.
  destruct ((v <? 0) || (v >? 9)) eqn:E; [lia|]. rewrite L.
  destruct (Z.eqb_spec v 0) as [|_]; [lia|]. simpl.
  set (c2 := with_candidates (with_value c v) ∅).
  destruct (shrinks_lookup (store b p c2)
              (NotifyCellSolved (store b p c2) (notifier c) (row c) (col c) v) p c2)
    as (c' & L' & (_&_&_&Hval&Hnot&Hsub)).
  - apply NotifyCellSolved_shrinks.
  - simpl. by rewrite lookup_insert_eq.
  - exists c'. repeat split; try done. simpl in Hsub. set_solver.
Qed.

Lemma SetValue_clear b p c :
  board b !! p = Some c → SetValue b p 0 = (store b p (with_value c 0), None).
Proof. intros L. unfold SetValue. simpl. by rewrite L. Qed.

(** A cell solved through [SetValue] and cleared afterwards is unsolved and
    has no candidate. *)
Lemma clear_after_solve b p c v :
  board b !! p = Some c → 1 <= v <= 9 →
  ∃ c1, board (SetValue (SetValue b p v).1 p 0).1 !! p = Some c1
        ∧ IsSolved c1 = false ∧ candidates c1 = ∅.
Proof.
  intros L Hv.
  destruct (SetValue_solved_cell b p v c L Hv) as (c' & L' & _ & Hc' & _).
  rewrite (SetValue_clear _ _ _ L'). simpl. rewrite lookup_insert_eq.
  exists (with_value c' 0). done.
Qed.

(** C1 as amended.  [SetValue] with 0 succeeds, sets the value of the cell
    to 0 (so the cell counts as unsolved), tells no observer anything and
    touches no other cell; the candidate set and the observers of the cell
    are left as they are.  In particular a cell that was solved by
    [SetValue] ends, once cleared, unsolved and with no candidate at all. *)
Theorem SetValue_clear_keeps_candidates (b : Board) (p : Z) (c : Cell) :
  board b !! p = Some c →
  let b' := (SetValue b p 0).1 in
  (SetValue b p 0).2 = None
  ∧ (∃ c', board b' !! p = Some c' ∧ value c' = 0 ∧ IsSolved c' = false
           ∧ candidates c' = candidates c ∧ notifier c' = notifier c)
  ∧ events b' = events b
  ∧ (∀ q, q ≠ p → board b' !! q = board b !! q)
  ∧ ∀ v, 1 <= v <= 9 →
      let b1 := (SetValue b p v).1 in
      ∃ c1, board (SetValue b1 p 0).1 !! p = Some c1
            ∧ IsSolved c1 = false ∧ candidates c1 = ∅.
Proof.
  intros L. cbv zeta.
  rewrite (SetValue_clear _ _ _ L). simpl. repeat split.
  - exists (with_value c 0). rewrite lookup_insert_eq. done.
  - intros q Hq. by rewrite lookup_insert_ne.
  - intros v Hv. by eapply clear_after_solve.
Qed.

Lemma SetValue_clear_keeps_candidates_witness :
  ∃ c1, board (SetValue (SetValue NewBoard 0 5).1 0 0).1 !! 0 = Some c1
        ∧ IsSolved c1 = false ∧ candidates c1 = ∅.
Proof.
  assert (board NewBoard !! 0 = Some (NewCell 0 0)) as L by (vm_compute; reflexivity).
  assert (1 <= 5 <= 9) as Hv by lia.
  exact (proj2 (proj2 (proj2 (proj2
           (SetValue_clear_keeps_candidates NewBoard 0 (NewCell 0 0) L)))) 5 Hv).
Defined.

(** C1 as the specification words it fails: cell (0,0) of a fresh grid,
    solved with 5 and then cleared, does not get its nine candidates back. *)
Lemma clear_does_not_restore_candidates :
  ¬ clear_restores_candidates (SetValue NewBoard 0 5).1 0.
Proof.
  unfold clear_restores_candidates. cbv zeta.
  intros (c' & L & _ & Hfull & _).
  assert (board NewBoard !! 0 = Some (NewCell 0 0)) as L0.
  { apply (NewBoard_lookup 0). lia. }
  assert (1 <= 5 <= 9) as Hv by lia.
  destruct (clear_after_solve NewBoard 0 (NewCell 0 0) 5 L0 Hv) as (c1 & L1 & _ & Hc1).
  assert (c1 = c') as -> by congruence.
  assert (1 ∈ candidates c') as Habs.
  { rewrite Hfull. unfold full_candidates.
    apply elem_of_list_to_set, elem_of_seqZ. lia. }
  rewrite Hc1 in Habs. by apply not_elem_of_empty in Habs.
Qed.

(** ** Scenario A: a row fills up *)

(** C4.  The scenario on the code.  On a fresh grid with the constraint of
    row 0 registered, setting columns 0..7 of row 0 to 1..8 in order
    succeeds, and the cell at row 0, column 8 still has its nine candidates:
    the record holds the eight [CellSolved] deliveries to the row constraint
    and nothing else, so no [SingleCandidate(0,8,9)] was delivered;
    [Get(0,8)] is 0.  [RowConstraint.PropagateValueChange] is never reached
    from [Board.Set].  Called by hand after each set, it leaves the cell
    with the candidate set {9} and [SingleCandidate(0,8,9)] is delivered. *)
Theorem scenario_row_keeps_nine_candidates :
  (∃ b, scenario_row = Some b
        ∧ candidates_of b 8 = Some full_candidates
        ∧ events b
          = map (λ c, (ConstraintObserver row0_attached, CellSolved 0 c (c + 1)))
                (seqZ 0 8)
        ∧ fired b (SingleCandidate 0 8 9) = false
        ∧ Get b 0 8 = 0)
  ∧ (∃ b, scenario_row_by_hand = Some b
          ∧ candidates_of b 8 = Some {[9]}
          ∧ fired b (SingleCandidate 0 8 9) = true
          ∧ Get b 0 8 = 0).
Proof.
  split.
  - exists (default NewBoard scenario_row).
    split; [vm_compute; reflexivity|].
    split; [vm_compute; reflexivity|].
    split; [vm_compute; reflexivity|].
    split; vm_compute; reflexivity.
  - exists (default NewBoard scenario_row_by_hand).
    split; [vm_compute; reflexivity|].
    split; [vm_compute; reflexivity|].
    split; vm_compute; reflexivity.
Qed.

(** ** Scenario D: a killer cage of two cells *)

Lemma forallb_seqZ_elim (f : Z → bool) (m n i : Z) :
  forallb f (seqZ m n) = true → m <= i < m + n → f i = true.
Proof.
  intros H Hi. rewrite forallb_forall in H.
  apply H, list_elem_of_In, elem_of_seqZ. lia.
Qed.

Lemma scenario_cage_all_true : forallb cage_check1 (seqZ 0 81) = true.
Proof. vm_compute. reflexivity. Qed.

Lemma distinct2_or_elim a b v : distinct2_or a b v = true → a ≠ b → v = true.
Proof.
  unfold distinct2_or. intros H Hne.
  apply orb_true_iff in H as [H|H]; [|exact H].
  apply Z.eqb_eq in H. exfalso. exact (Hne H).
Qed.


Lemma cage_verdict_elim i j o h :
  cage_verdict i j o h = true →
  ∃ b1 b2 bh,
    o = Some (b1, b2, (true, None))
    ∧ candidates_of b1 j = Some full_candidates
    ∧ Get b2 (Z.quot i 9) (Z.rem i 9) = 4
    ∧ Get b2 (Z.quot j 9) (Z.rem j 9) = 5
    ∧ h = Some bh
    ∧ candidates_of bh j = Some {[5]}.
Proof.
  unfold cage_verdict. intros H.
  destruct o as [[[b1 b2] verdict]|]; [|discriminate H].
  destruct h as [bh|]; [|discriminate H].
  apply andb_true_iff in H as [H H5].
  apply andb_true_iff in H as [H H4]. apply andb_true_iff in H as [H H3].
  apply andb_true_iff in H as [H1 H2].
  apply bool_decide_eq_true in H1, H2, H5. apply Z.eqb_eq in H3, H4.
  exists b1, b2, bh. rewrite H2. split; [reflexivity|]. split; [exact H1|].
  split; [exact H3|]. split; [exact H4|]. split; [reflexivity|exact H5].
Qed.

Lemma scenario_cage_checked i j :
  0 <= i <= 80 → 0 <= j <= 80 → i ≠ j →
  cage_verdict i j (scenario_cage i j) (scenario_cage_by_hand i j) = true.
Proof.
  intros Hi Hj Hne.
  assert (0 <= i < 0 + 81) as Hi' by lia.
  assert (0 <= j < 0 + 81) as Hj' by lia.
  pose proof (forallb_seqZ_elim cage_check1 0 81 i scenario_cage_all_true Hi') as H1.
  pose proof (forallb_seqZ_elim (cage_check2 i) 0 81 j H1 Hj') as H.
  exact (distinct2_or_elim i j _ H Hne).
Qed.

(** C7.  The scenario on the code.  For a cage of two distinct cells with
    target sum 9 registered on a fresh grid: setting the first cell to 4
    succeeds and leaves the second cell with its nine candidates, since
    [KillerCageConstraint.PropagateValueChange] is never reached from
    [Board.Set]; called by hand after that set, it leaves the second cell
    with the candidate set {5}.  Setting the second cell to 5 succeeds, and
    [IsValid] on the cage then answers true with no error. *)
Theorem killer_cage_keeps_nine_candidates (i j : Z) :
  0 <= i <= 80 → 0 <= j <= 80 → i ≠ j →
  ∃ b1 b2 bh,
    scenario_cage i j = Some (b1, b2, (true, None))
    ∧ candidates_of b1 j = Some full_candidates
    ∧ Get b2 (Z.quot i 9) (Z.rem i 9) = 4
    ∧ Get b2 (Z.quot j 9) (Z.rem j 9) = 5
    ∧ scenario_cage_by_hand i j = Some bh
    ∧ candidates_of bh j = Some {[5]}.
Proof.
  intros Hi Hj Hne.
  exact (cage_verdict_elim i j _ _ (scenario_cage_checked i j Hi Hj Hne)).
Qed.

Lemma killer_cage_keeps_nine_candidates_witness :
  ∃ b1 b2 bh,
    scenario_cage 0 1 = Some (b1, b2, (true, None))
    ∧ candidates_of b1 1 = Some full_candidates
    ∧ Get b2 (Z.quot 0 9) (Z.rem 0 9) = 4
    ∧ Get b2 (Z.quot 1 9) (Z.rem 1 9) = 5
    ∧ scenario_cage_by_hand 0 1 = Some bh
    ∧ candidates_of bh 1 = Some {[5]}.
Proof.
  assert (0 <= 0 <= 80) as H0 by lia.
  assert (0 <= 1 <= 80) as H1 by lia.
  assert (0 ≠ 1) as Hne by lia.
  exact (killer_cage_keeps_nine_candidates 0 1 H0 H1 Hne).
Defined.

(** ** Termination *)

Lemma until_stable_terminates fuel :
  ∀ b it, (total_candidates b < fuel)%nat →
    ∃ n b', until_stable fuel it b = Some (n, b')
            ∧ it + 1 <= n <= it + 1 + Z.of_nat (total_candidates b)
            ∧ ApplyPencilMarkConstraints b' = (false, b')
            ∧ shrinks b b'.
Proof.
  induction fuel as [|fuel IH]; intros b it Hlt; [lia|].
  simpl.
  pose proof (ApplyPencilMarkConstraints_step_ok b) as Hok.
  destruct (ApplyPencilMarkConstraints b) as [ch b1] eqn:E.
  destruct ch; simpl.
  - pose proof (step_ok_changed _ _ _ Hok eq_refl) as Hdec.
    destruct (IH b1 (it + 1)) as (n & b' & Hrun & Hn & Hfix & Hs); [lia|].
    exists n, b'. split; [done|]. split; [lia|]. split; [done|].
    etransitivity; [apply Hok|done].
  - pose proof (step_ok_unchanged _ _ _ Hok eq_refl) as ->.
    exists (it + 1), b. split; [done|]. split; [lia|]. split; [done|reflexivity].
Qed.

Lemma ApplyPencilMarkConstraints_no_constraints b :
  constraints b = [] → ApplyPencilMarkConstraints b = (false, b).
Proof. intros H. unfold ApplyPencilMarkConstraints. by rewrite H. Qed.

(** C9.  Propagation and deduction terminate.  The functions of the model
    that carry a set or a removal through the observers are total.  The
    measure is the number of candidates standing across the grid: a removal
    never raises it and lowers it when it takes effect; solving a cell,
    with all the eliminations it triggers, never raises it.  The loop of
    [ApplyPencilMarkConstraintsUntilStable] ends within one round more than
    there are candidates, on a grid where a further round reports no
    change, with an iteration count of at least 1; with no constraint
    registered the count is exactly 1. *)
Theorem propagation_and_deduction_terminate :
  (∀ b p d,
     (total_candidates (RemoveCandidate b p d) <= total_candidates b)%nat
     ∧ ∀ c, board b !! p = Some c → HasCandidate c d = true →
            (total_candidates (RemoveCandidate b p d) < total_candidates b)%nat)
  ∧ (∀ b p v, v ≠ 0 →
       (total_candidates (SetValue b p v).1 <= total_candidates b)%nat)
  ∧ (∀ b fuel, (total_candidates b < fuel)%nat →
       ∃ n b', ApplyPencilMarkConstraintsUntilStable fuel b = Some (n, b')
               ∧ 1 <= n <= 1 + Z.of_nat (total_candidates b)
               ∧ ApplyPencilMarkConstraints b' = (false, b')
               ∧ shrinks b b')
  ∧ (∀ b fuel, constraints b = [] → (0 < fuel)%nat →
       ApplyPencilMarkConstraintsUntilStable fuel b = Some (1, b)).
Proof.
  repeat split.
  - apply shrinks_total, RemoveCandidate_shrinks.
  - intros c L H. unfold total_candidates. apply subset_size.
    by eapply RemoveCandidate_strict.
  - intros b p v Hv. unfold total_candidates. apply subseteq_size.
    by apply SetValue_measure.
  - intros b fuel Hlt.
    destruct (until_stable_terminates fuel b 0 Hlt) as (n & b' & Hrun & Hn & Hfix & Hs).
    exists n, b'. split; [done|]. split; [lia|]. done.
  - intros b fuel Hc Hf. destruct fuel as [|fuel]; [lia|].
    unfold ApplyPencilMarkConstraintsUntilStable. simpl.
    by rewrite ApplyPencilMarkConstraints_no_constraints.
Qed.

Lemma propagation_and_deduction_terminate_witness :
  ApplyPencilMarkConstraintsUntilStable 1 NewBoard = Some (1, NewBoard).
Proof.
  assert (constraints NewBoard = []) as Hc by reflexivity.
  assert (0 < 1)%nat as Hf by lia.
  exact (proj2 (proj2 (proj2 propagation_and_deduction_terminate)) NewBoard 1%nat Hc Hf).
Defined.

(** ** The subset-elimination engine is not idempotent *)

(** C3 as the specification words it fails.  On [chain_board] the first
    pass finds the naked triple {1,2,3} and strips 1 from the fourth and
    fifth cells, which makes them a naked pair {4,5}; pairs were examined
    before triples, so only the second pass strips 4 from the sixth cell,
    and it reports a change. *)
Lemma second_pass_can_change : ¬ second_pass_is_quiet chain_board chain_scope 4.
Proof.
  unfold second_pass_is_quiet. intros H. vm_compute in H. discriminate H.
Qed.

(** C3 as amended.  A pass of the engine (naked subsets, hidden subsets, or
    one after the other) that reports no change has left the grid exactly
    as it was, so the pass run again right after it reports no change
    either. *)
Theorem quiet_pass_is_stable (b : Board) (cells : list Z) (maxSize : Z) :
  ((subset_pass b cells maxSize).1 = false →
     (subset_pass b cells maxSize).2 = b
     ∧ (subset_pass (subset_pass b cells maxSize).2 cells maxSize).1 = false)
  ∧ ((ApplyNakedSubsets b cells maxSize).1 = false →
     (ApplyNakedSubsets b cells maxSize).2 = b
     ∧ (ApplyNakedSubsets (ApplyNakedSubsets b cells maxSize).2 cells maxSize).1 = false)
  ∧ ((ApplyHiddenSubsets b cells maxSize).1 = false →
     (ApplyHiddenSubsets b cells maxSize).2 = b
     ∧ (ApplyHiddenSubsets (ApplyHiddenSubsets b cells maxSize).2 cells maxSize).1 = false).
Proof.
  assert (∀ (f : Board → bool * Board),
            (∀ b0, step_ok (false, b0) (f b0)) →
            (f b).1 = false → (f b).2 = b ∧ (f (f b).2).1 = false) as Hgen.
  { intros f Hf Hq. specialize (Hf b).
    destruct (f b) as [ch b'] eqn:E. simpl in *.
    pose proof (step_ok_unchanged _ _ _ Hf Hq) as ->.
    split; [done|]. by rewrite E. }
  split; [|split].
  - apply (Hgen (λ b0, subset_pass b0 cells maxSize)).
    intros b0. apply subset_pass_step_ok.
  - apply (Hgen (λ b0, ApplyNakedSubsets b0 cells maxSize)).
    intros b0. apply ApplyNakedSubsets_step_ok.
  - apply (Hgen (λ b0, ApplyHiddenSubsets b0 cells maxSize)).
    intros b0. apply ApplyHiddenSubsets_step_ok.
Qed.

Lemma quiet_pass_is_stable_witness :
  (subset_pass NewBoard (seqZ 0 9) 4).2 = NewBoard
  ∧ (subset_pass (subset_pass NewBoard (seqZ 0 9) 4).2 (seqZ 0 9) 4).1 = false.
Proof.
  assert ((subset_pass NewBoard (seqZ 0 9) 4).1 = false) as H
    by (vm_compute; reflexivity).
  exact (proj1 (quiet_pass_is_stable NewBoard (seqZ 0 9) 4) H).
Defined.

(** ** The naked-subset pass *)

Lemma generate_sublist items : ∀ k combo,
  combo ∈ generate items k ↔ combo `sublist_of` items ∧ length combo = k.
Proof.
  induction items as [|x items IH]; intros k combo.
  - destruct k as [|k]; simpl.
    + rewrite list_elem_of_singleton. split.
      * intros ->. split; [constructor|done].
      * intros [_ H]. by destruct combo.
    + split; [by intros ?%elem_of_nil|].
      intros [Hs Hl]. apply sublist_nil_r in Hs. subst. done.
  - destruct k as [|k]; simpl.
    + rewrite list_elem_of_singleton. split.
      * intros ->. split; [apply sublist_nil_l|done].
      * intros [_ H]. by destruct combo.
    + rewrite elem_of_app. split.
      * intros [H|H].
        -- apply list_elem_of_In, in_map_iff in H as (l & <- & Hl).
           apply list_elem_of_In, IH in Hl as [Hs Hlen].
           split; [by constructor|simpl; lia].
        -- apply IH in H as [Hs Hlen]. split; [by constructor|done].
      * intros [Hs Hlen]. inversion Hs as [|y l1 l2 Hs'|y l1 l2 Hs']; subst.
        -- left. apply list_elem_of_In, in_map_iff. exists l1. split; [done|].
           apply list_elem_of_In, IH. split; [done|]. simpl in Hlen. lia.
        -- right. apply IH. done.
Qed.

Lemma GenerateCombinations_complete n k combo :
  0 <= n → (combo `sublist_of` seq 0 (Z.to_nat n)) → Z.of_nat (length combo) = k →
  combo ∈ GenerateCombinations n k.
Proof.
  intros Hn Hs Hl. unfold GenerateCombinations.
  pose proof (sublist_length _ _ Hs) as Hle. rewrite length_seq in Hle.
  destruct ((k >? n) || (k <? 0)) eqn:E; [lia|].
  apply generate_sublist. split; [done|lia].
Qed.

Lemma contains_true cells target : contains cells target = true ↔ target ∈ cells.
Proof.
  unfold contains. rewrite existsb_exists. split.
  - intros (x & Hin & Heq). apply Z.eqb_eq in Heq as ->. by apply list_elem_of_In.
  - intros Hin. exists target. split; [by apply list_elem_of_In|apply Z.eqb_refl].
Qed.

Lemma shrinks_candidates_at b b' p :
  shrinks b b' → candidates_at b' p ⊆ candidates_at b p.
Proof.
  intros (_ & _ & H). specialize (H p). unfold candidates_at.
  destruct H as [c c' (_&_&_&Hv&_&Hs)|]; [|done].
  unfold GetCandidates. rewrite Hv. by destruct (negb (value c =? 0)).
Qed.

Lemma eliminate_gone st p d : d ∉ candidates_at (eliminate st p d).2 p.
Proof.
  unfold eliminate, candidates_at.
  destruct (board st.2 !! p) as [c|] eqn:L.
  - destruct (HasCandidate c d) eqn:H; simpl.
    + destruct (board (RemoveCandidate st.2 p d) !! p) as [c'|] eqn:L'.
      * apply RemoveCandidate_gone in L'.
        rewrite <- HasCandidate_GetCandidates. by rewrite L'.
      * apply not_elem_of_empty.
    + rewrite L. rewrite <- HasCandidate_GetCandidates. by rewrite H.
  - rewrite L. apply not_elem_of_empty.
Qed.




















(** ** The X-Wing pass *)

Lemma keeps_refl d b : keeps d b b.
Proof. split; [reflexivity|]. intros p c c' L L'. congruence. Qed.

Lemma keeps_trans d b1 b2 b3 : keeps d b1 b2 → keeps d b2 b3 → keeps d b1 b3.
Proof.
  intros [Hs1 H1] [Hs2 H2]. split; [by etransitivity|].
  intros p c c3 L L3 Hd.
  destruct (shrinks_lookup _ _ _ _ Hs1 L) as (c2 & L2 & _).
  eapply H2; [exact L2|exact L3|]. eapply H1; [exact L|exact L2|exact Hd].
Qed.

Lemma RemoveCandidate_keeps d d' b p : d ≠ d' → keeps d b (RemoveCandidate b p d').
Proof.
  intros Hne. split; [apply RemoveCandidate_shrinks|].
  intros q c c' L L' Hd.
  destruct (RemoveCandidate_fields b p d') as (_ & _ & Hb). rewrite Hb in L'.
  destruct (board b !! p) as [c0|] eqn:L0; [|congruence].
  destruct (_ && _); [|congruence].
  destruct (decide (p = q)) as [->|Hpq].
  - rewrite lookup_insert_eq in L'. injection L' as <-.
    assert (c0 = c) as -> by congruence. simpl.
    apply elem_of_difference. split; [done|]. by intros ?%elem_of_singleton.
  - rewrite lookup_insert_ne in L' by done. congruence.
Qed.

Lemma fold_left_keeps {A} d (f : bool * Board → A → bool * Board) (l : list A) :
  (∀ st x, keeps d st.2 (f st x).2) → ∀ st, keeps d st.2 (fold_left f l st).2.
Proof.
  intros Hf. induction l as [|x l IH]; intros st; simpl; [apply keeps_refl|].
  eapply keeps_trans; [apply Hf|apply IH].
Qed.

Lemma eliminate_at_keeps d d' st cell :
  d ≠ d' → keeps d st.2 (eliminate_at st cell d').2.
Proof.
  intros Hne. unfold eliminate_at. destruct cell as [[p c]|]; [|apply keeps_refl].
  destruct (_ && _); [|apply keeps_refl]. simpl. by apply RemoveCandidate_keeps.
Qed.

Lemma sweep_lines_keeps d d' rowBased skip positions st :
  d ≠ d' → keeps d st.2 (sweep_lines rowBased d' skip positions st).2.
Proof.
  intros Hne. unfold sweep_lines. apply fold_left_keeps. intros st' l.
  destruct (negb _); [|apply keeps_refl].
  apply fold_left_keeps. intros st'' pos. by apply eliminate_at_keeps.
Qed.

Lemma xwing_candidate_keeps d d' rowBased st :
  d ≠ d' → keeps d st.2 (xwing_candidate rowBased st d').2.
Proof.
  intros Hne. unfold xwing_candidate. apply fold_left_keeps. intros st' [line1 line2].
  unfold xwing_pair.
  destruct (default [] (_ !! line1)) as [|a1 [|a2 [|? ?]]]; try apply keeps_refl.
  destruct (default [] (_ !! line2)) as [|c1 [|c2 [|? ?]]]; try apply keeps_refl.
  destruct (_ && _); [by apply sweep_lines_keeps|apply keeps_refl].
Qed.

Lemma line_cell_Some b rowBased line pos p c :
  line_cell b rowBased line pos = Some (p, c) →
  0 <= line <= 8 ∧ 0 <= pos <= 8 ∧ board b !! p = Some c
  ∧ p = (if rowBased then line * 9 + pos else pos * 9 + line).
Proof.
  unfold line_cell. destruct rowBased; intros H%GetCellAt_Some; naive_solver.
Qed.

Lemma line_cell_shrinks b b' rowBased line pos :
  shrinks b b' →
  option_Forall2 (λ pc pc', pc'.1 = pc.1 ∧ cell_shrinks pc.2 pc'.2)
                 (line_cell b rowBased line pos) (line_cell b' rowBased line pos).
Proof.
  intros Hs.
  assert (∀ r c, option_Forall2 (λ pc pc', pc'.1 = pc.1 ∧ cell_shrinks pc.2 pc'.2)
                   (GetCellAt b r c) (GetCellAt b' r c)) as HG.
  { intros r c. unfold GetCellAt.
    destruct (_ || _); [constructor|].
    destruct Hs as (_ & _ & H). specialize (H (r * 9 + c)).
    destruct H; constructor. done. }
  unfold line_cell. destruct rowBased; apply HG.
Qed.

(** Whether a digit is open in a cell of a line survives everything that
    keeps the digit, and once closed stays closed under shrinking. *)
Lemma keeps_is_open d b b' rowBased line pos :
  keeps d b b' →
  is_open (line_cell b' rowBased line pos) d = is_open (line_cell b rowBased line pos) d.
Proof.
  intros [Hs Hk].
  pose proof (line_cell_shrinks b b' rowBased line pos Hs) as H.
  destruct (line_cell b rowBased line pos) as [[p c]|] eqn:E;
    destruct (line_cell b' rowBased line pos) as [[p' c']|] eqn:E';
    inversion H as [? ? [Hp Hc]|]; subst; [|done].
  simpl in Hp, Hc. subst p'.
  apply line_cell_Some in E as (_ & _ & L & _).
  apply line_cell_Some in E' as (_ & _ & L' & _).
  unfold is_open. rewrite (cell_shrinks_IsSolved _ _ Hc). f_equal.
  destruct Hc as (_&_&_&Hv&_&Hsub).
  unfold HasCandidate. rewrite Hv. destruct (negb _); [done|].
  apply bool_decide_ext. split; [by intros ?%Hsub|].
  intros Hd. by eapply Hk.
Qed.

Lemma shrinks_is_open d b b' rowBased line pos :
  shrinks b b' →
  is_open (line_cell b rowBased line pos) d = false →
  is_open (line_cell b' rowBased line pos) d = false.
Proof.
  intros Hs.
  pose proof (line_cell_shrinks b b' rowBased line pos Hs) as H.
  destruct (line_cell b rowBased line pos) as [[p c]|] eqn:E;
    destruct (line_cell b' rowBased line pos) as [[p' c']|] eqn:E';
    inversion H as [? ? [Hp Hc]|]; subst; [|done].
  simpl in Hp, Hc.
  unfold is_open. rewrite (cell_shrinks_IsSolved _ _ Hc).
  destruct (negb (IsSolved c)); [|done]. simpl.
  by apply cell_shrinks_HasCandidate.
Qed.

Lemma keeps_line_positions d b b' rowBased line :
  keeps d b b' → line_positions b' rowBased d line = line_positions b rowBased d line.
Proof.
  intros Hk. unfold line_positions. apply list_filter_iff. intros pos.
  by rewrite (keeps_is_open d b b' rowBased line pos Hk).
Qed.

Lemma eliminate_at_closes st rowBased line pos d :
  is_open (line_cell (eliminate_at st (line_cell st.2 rowBased line pos) d).2
             rowBased line pos) d = false.
Proof.
  unfold eliminate_at.
  destruct (line_cell st.2 rowBased line pos) as [[p c]|] eqn:E.
  - destruct (negb (IsSolved c) && HasCandidate c d) eqn:Hopen.
    + simpl.
      destruct (line_cell (RemoveCandidate st.2 p d) rowBased line pos)
        as [[p' c']|] eqn:E'; [|done].
      apply line_cell_Some in E as (_ & _ & _ & Hp).
      apply line_cell_Some in E' as (_ & _ & L' & Hp').
      assert (p' = p) as -> by congruence.
      apply RemoveCandidate_gone in L'. simpl. rewrite L'. apply andb_false_r.
    + rewrite E. done.
  - rewrite E. done.
Qed.

(** After a sweep the digit is closed at the swept positions of every line
    that was not skipped. *)
Lemma sweep_positions_close rowBased d line positions : ∀ st pos,
  pos ∈ positions →
  is_open (line_cell
             (fold_left (λ st'' pos', eliminate_at st''
                           (line_cell st''.2 rowBased line pos') d) positions st).2
             rowBased line pos) d = false.
Proof.
  induction positions as [|p0 ps IH]; intros st pos Hin; [by apply elem_of_nil in Hin|].
  simpl. apply elem_of_cons in Hin as [->|Hin]; [|by apply IH].
  eapply shrinks_is_open; [|apply eliminate_at_closes].
  apply (fold_left_step_ok
           (λ st'' pos', eliminate_at st'' (line_cell st''.2 rowBased line pos') d)).
  intros st' pos'. apply eliminate_at_step_ok.
Qed.

Lemma sweep_lines_from rowBased d skip positions lines : ∀ st line pos,
  line ∈ lines → line ∉ skip → pos ∈ positions →
  is_open (line_cell
             (fold_left
                (λ st' otherLine,
                   if negb (contains skip otherLine) then
                     fold_left
                       (λ st'' pos',
                          eliminate_at st'' (line_cell st''.2 rowBased otherLine pos') d)
                       positions st'
                   else st')
                lines st).2 rowBased line pos) d = false.
Proof.
  induction lines as [|l0 ls IH]; intros st line pos Hin Hskip Hpos;
    [by apply elem_of_nil in Hin|].
  apply elem_of_cons in Hin as [->|Hin]; [|by apply IH].
  cbn [fold_left].
  destruct (contains skip l0) eqn:Hc; [by apply contains_true in Hc|]. simpl.
  eapply shrinks_is_open; [|by apply sweep_positions_close].
  apply (fold_left_step_ok
           (λ st' otherLine,
              if negb (contains skip otherLine) then
                fold_left
                  (λ st'' pos',
                     eliminate_at st'' (line_cell st''.2 rowBased otherLine pos') d)
                  positions st'
              else st')).
  intros st' l'. destruct (negb _); [|apply step_ok_refl].
  apply fold_left_step_ok. intros st'' pos'. apply eliminate_at_step_ok.
Qed.

Lemma line_cell_out_of_range b rowBased line pos :
  ¬ (0 <= line <= 8) → line_cell b rowBased line pos = None.
Proof.
  intros Hl. destruct (line_cell b rowBased line pos) as [[p c]|] eqn:E; [|done].
  apply line_cell_Some in E. naive_solver.
Qed.

Lemma sweep_lines_closes rowBased d skip positions st line pos :
  line ∉ skip → pos ∈ positions →
  is_open (line_cell (sweep_lines rowBased d skip positions st).2 rowBased line pos) d
  = false.
Proof.
  intros Hskip Hpos.
  destruct (decide (0 <= line <= 8)) as [Hl|Hl].
  - unfold sweep_lines. apply sweep_lines_from; try done.
    apply elem_of_seqZ. lia.
  - by rewrite line_cell_out_of_range.
Qed.

Lemma build_linePositions_from b rowBased d (keep : nat → bool) (lines : list Z) :
  ∀ (m : gmap Z (list Z)) (line : Z),
  fold_left
    (λ (m' : gmap Z (list Z)) line',
       let positions := line_positions b rowBased d line' in
       if keep (length positions) then <[line' := positions]> m' else m')
    lines m !! line
  = if bool_decide (line ∈ lines) && keep (length (line_positions b rowBased d line))
    then Some (line_positions b rowBased d line)
    else m !! line.
Proof.
  induction lines as [|l0 ls IH]; intros m line; [done|].
  cbn [fold_left]. rewrite IH. cbv zeta.
  destruct (decide (line ∈ ls)) as [Hin|Hin].
  - rewrite !bool_decide_eq_true_2; [|by right|done]. simpl.
    destruct (keep (length (line_positions b rowBased d line))) eqn:K; [done|].
    destruct (keep (length (line_positions b rowBased d l0))) eqn:K0; [|done].
    destruct (decide (l0 = line)) as [->|Hne]; [congruence|].
    by rewrite lookup_insert_ne.
  - rewrite (bool_decide_eq_false_2 (line ∈ ls)) by done. simpl.
    destruct (decide (l0 = line)) as [->|Hne].
    + rewrite bool_decide_eq_true_2 by left. simpl.
      destruct (keep (length (line_positions b rowBased d line))); [|done].
      by rewrite lookup_insert_eq.
    + rewrite bool_decide_eq_false_2.
      2:{ intros [->|?]%elem_of_cons; done. }
      simpl. destruct (keep _); [|done]. by rewrite lookup_insert_ne.
Qed.

Lemma line_positions_out_of_range b rowBased d line :
  ¬ (0 <= line <= 8) → line_positions b rowBased d line = [].
Proof.
  intros Hout. unfold line_positions. generalize (seqZ 0 9).
  intros l. induction l as [|pos l IH]; [done|].
  rewrite filter_cons_False; [exact IH|].
  rewrite line_cell_out_of_range by done. simpl. intros [].
Qed.

Lemma build_linePositions_lookup b rowBased d keep line positions :
  line_positions b rowBased d line = positions → positions ≠ [] →
  keep (length positions) = true →
  build_linePositions b rowBased d keep !! line = Some positions.
Proof.
  intros Hp Hne Hk. unfold build_linePositions.
  rewrite build_linePositions_from, Hp, Hk.
  rewrite bool_decide_eq_true_2; [done|].
  apply elem_of_seqZ.
  destruct (decide (0 <= line <= 8)) as [?|Hout]; [lia|].
  exfalso. apply Hne. rewrite <- Hp. by apply line_positions_out_of_range.
Qed.

Lemma pairs_complete {A} (l : list A) (x y : A) :
  x ∈ l → y ∈ l → x ≠ y → (x, y) ∈ pairs l ∨ (y, x) ∈ pairs l.
Proof.
  induction l as [|a l IH]; intros Hx Hy Hne; [by apply elem_of_nil in Hx|].
  simpl. rewrite !elem_of_app.
  apply elem_of_cons in Hx as [->|Hx]; apply elem_of_cons in Hy as [->|Hy].
  - done.
  - left. left. apply list_elem_of_In, in_map, list_elem_of_In. done.
  - right. left. apply list_elem_of_In, in_map, list_elem_of_In. done.
  - destruct (IH Hx Hy Hne); [left|right]; by right.
Qed.

Lemma fold_left_step_shrinks {A} (f : bool * Board → A → bool * Board) (l : list A) st :
  (∀ st' x, step_ok st' (f st' x)) → shrinks st.2 (fold_left f l st).2.
Proof. intros Hf. by apply fold_left_step_ok. Qed.

(** A matched pair of lines met in the loop closes the digit at its two
    positions in every other line. *)
Lemma xwing_pair_closes rowBased d lp st la lb p1 p2 line pos :
  lp !! la = Some [p1; p2] → lp !! lb = Some [p1; p2] →
  line ≠ la → line ≠ lb → pos ∈ [p1; p2] →
  is_open (line_cell (xwing_pair rowBased d lp st (la, lb)).2 rowBased line pos) d
  = false.
Proof.
  intros La Lb Ha Hb Hpos. unfold xwing_pair. rewrite La, Lb. simpl.
  rewrite !Z.eqb_refl. simpl.
  apply sweep_lines_closes; [|done].
  intros [->|[->|?%elem_of_nil]%elem_of_cons]%elem_of_cons; done.
Qed.

Lemma xwing_candidate_closes rowBased d st l1 l2 p1 p2 line pos :
  l1 ≠ l2 →
  line_positions st.2 rowBased d l1 = [p1; p2] →
  line_positions st.2 rowBased d l2 = [p1; p2] →
  line ≠ l1 → line ≠ l2 → pos ∈ [p1; p2] →
  is_open (line_cell (xwing_candidate rowBased st d).2 rowBased line pos) d = false.
Proof.
  intros Hne H1 H2 Hl1 Hl2 Hpos. unfold xwing_candidate.
  set (lp := build_linePositions st.2 rowBased d (λ n, Nat.eqb n 2)).
  assert (lp !! l1 = Some [p1; p2]) as L1 by (by apply build_linePositions_lookup).
  assert (lp !! l2 = Some [p1; p2]) as L2 by (by apply build_linePositions_lookup).
  assert (∀ l, is_Some (lp !! l) → l ∈ (map_to_list lp).*1) as Hkeys.
  { intros l [ps Hl]. apply list_elem_of_fmap. exists (l, ps). split; [done|].
    by apply elem_of_map_to_list. }
  assert ((l1, l2) ∈ pairs (map_to_list lp).*1 ∨ (l2, l1) ∈ pairs (map_to_list lp).*1)
    as Hin by (apply pairs_complete; eauto).
  assert (∃ la lb, (la, lb) ∈ pairs (map_to_list lp).*1
                   ∧ lp !! la = Some [p1; p2] ∧ lp !! lb = Some [p1; p2]
                   ∧ line ≠ la ∧ line ≠ lb) as (la & lb & Hab & La & Lb & Ha & Hb).
  { destruct Hin; [exists l1, l2|exists l2, l1]; done. }
  apply list_elem_of_split in Hab as (pre & post & ->).
  rewrite fold_left_app. cbn [fold_left].
  set (st1 := fold_left (xwing_pair rowBased d lp) pre st).
  apply (shrinks_is_open d (xwing_pair rowBased d lp st1 (la, lb)).2).
  - apply fold_left_step_shrinks. intros st' ll. apply xwing_pair_step_ok.
  - by apply (xwing_pair_closes rowBased d lp st1 la lb p1 p2).
Qed.

Lemma xwing_candidates_keep rowBased d ds : ∀ st,
  d ∉ ds → keeps d st.2 (fold_left (xwing_candidate rowBased) ds st).2.
Proof.
  induction ds as [|d0 ds IH]; intros st Hd; [apply keeps_refl|].
  cbn [fold_left]. eapply keeps_trans.
  - apply (xwing_candidate_keeps d d0). intros ->. apply Hd. by left.
  - apply IH. intros ?. apply Hd. by right.
Qed.

(** The X-Wing pass in one direction: a pair of lines holding the digit at
    the same two positions closes it at these positions in all other
    lines. *)
Lemma applyXWingsInDirection_closes b rowBased d l1 l2 p1 p2 line pos :
  1 <= d <= 9 → l1 ≠ l2 →
  line_positions b rowBased d l1 = [p1; p2] →
  line_positions b rowBased d l2 = [p1; p2] →
  line ≠ l1 → line ≠ l2 → pos ∈ [p1; p2] →
  is_open (line_cell (applyXWingsInDirection b rowBased).2 rowBased line pos) d = false.
Proof.
  intros Hd Hne H1 H2 Hl1 Hl2 Hpos. unfold applyXWingsInDirection.
  assert (d ∈ seqZ 1 9) as Hin by (apply elem_of_seqZ; lia).
  apply list_elem_of_split in Hin as (pre & post & Hsplit).
  assert (d ∉ pre) as Hpre.
  { pose proof (NoDup_seqZ 1 9) as Hnd. rewrite Hsplit in Hnd.
    apply NoDup_app in Hnd as (_ & Hdis & _). intros Hp.
    apply (Hdis d Hp). by left. }
  rewrite Hsplit, fold_left_app. cbn [fold_left].
  set (st1 := fold_left (xwing_candidate rowBased) pre (false, b)).
  pose proof (xwing_candidates_keep rowBased d pre (false, b) Hpre) as Hk.
  fold st1 in Hk. simpl in Hk.
  apply (shrinks_is_open d (xwing_candidate rowBased st1 d).2).
  - apply fold_left_step_shrinks. intros st' d'. apply xwing_candidate_step_ok.
  - apply (xwing_candidate_closes rowBased d st1 l1 l2 p1 p2); try done.
    + by rewrite (keeps_line_positions d b st1.2).
    + by rewrite (keeps_line_positions d b st1.2).
Qed.

Lemma ApplyAdvancedTechniques_after_row_pass b :
  shrinks (applyXWingsInDirection b true).2 (ApplyAdvancedTechniques b).2.
Proof.
  unfold ApplyAdvancedTechniques, applyXWings.
  destruct (applyXWingsInDirection b true) as [ch1 b1].
  pose proof (applyXWingsInDirection_step_ok b1 false) as [H2 _].
  destruct (applyXWingsInDirection b1 false) as [ch2 b2].
  pose proof (applySwordfish_step_ok b2) as [H3 _].
  destruct (applySwordfish b2) as [ch3 b3].
  pose proof (applyXYWings_step_ok b3) as [H4 _].
  destruct (applyXYWings b3) as [ch4 b4]. simpl in *.
  etransitivity; [exact H2|]. etransitivity; [exact H3|exact H4].
Qed.

(** C6.  The X-Wing pass in a direction: for a digit of 1..9 and two
    different lines in which the digit is an unsolved candidate at exactly
    the same two positions, the digit is, after the pass, no candidate at
    these two positions in any other line of that direction.  And when 5 is
    a candidate of rows 0 and 2 at exactly the columns 2 and 5, after
    [ApplyAdvancedTechniques] the digit 5 is no candidate at row 5, column
    2; if it was one before, the call reports a change. *)
Theorem xwing_closes_matched_positions :
  (∀ b rowBased d l1 l2 p1 p2 line pos,
     1 <= d <= 9 → l1 ≠ l2 →
     line_positions b rowBased d l1 = [p1; p2] →
     line_positions b rowBased d l2 = [p1; p2] →
     line ≠ l1 → line ≠ l2 → pos ∈ [p1; p2] →
     is_open (line_cell (applyXWingsInDirection b rowBased).2 rowBased line pos) d
     = false)
  ∧ (∀ b,
       line_positions b true 5 0 = [2; 5] → line_positions b true 5 2 = [2; 5] →
       is_open (GetCellAt (ApplyAdvancedTechniques b).2 5 2) 5 = false
       ∧ (is_open (GetCellAt b 5 2) 5 = true → (ApplyAdvancedTechniques b).1 = true)).
Proof.
  split.
  - intros b rowBased d l1 l2 p1 p2 line pos. apply applyXWingsInDirection_closes.
  - intros b H0 H2.
    assert (is_open (GetCellAt (ApplyAdvancedTechniques b).2 5 2) 5 = false) as Hclosed.
    { apply (shrinks_is_open 5 (applyXWingsInDirection b true).2
               (ApplyAdvancedTechniques b).2 true 5 2).
      - apply ApplyAdvancedTechniques_after_row_pass.
      - apply (applyXWingsInDirection_closes b true 5 0 2 2 5 5 2);
          try done; try lia. by left. }
    split; [exact Hclosed|].
    intros Hopen.
    pose proof (ApplyAdvancedTechniques_step_ok b) as Hok.
    destruct (ApplyAdvancedTechniques b) as [ch b'] eqn:E. simpl in *.
    destruct ch; [done|].
    pose proof (step_ok_unchanged _ _ _ Hok eq_refl) as ->.
    congruence.
Qed.

Lemma xwing_closes_matched_positions_witness :
  is_open (GetCellAt (ApplyAdvancedTechniques xwing_board).2 5 2) 5 = false
  ∧ (ApplyAdvancedTechniques xwing_board).1 = true.
Proof.
  assert (line_positions xwing_board true 5 0 = [2; 5]) as H0
    by (vm_compute; reflexivity).
  assert (line_positions xwing_board true 5 2 = [2; 5]) as H2
    by (vm_compute; reflexivity).
  assert (is_open (GetCellAt xwing_board 5 2) 5 = true) as Hopen
    by (vm_compute; reflexivity).
  destruct (proj2 xwing_closes_matched_positions xwing_board H0 H2) as [Hc Hch].
  split; [exact Hc|exact (Hch Hopen)].
Defined.

(** * Further properties of the engine *)

(** ** What every operation keeps *)

Lemma cell_ok_shrinks p c c' : cell_ok p c → cell_shrinks c c' → cell_ok p c'.
Proof.
  intros (Hr & Hc & Hp & Hi & Hv & Hd & Hs) (Er & Ec & Ei & Ev & _ & Hsub).
  unfold cell_ok. rewrite Er, Ec, Ei, Ev. repeat split; try lia; try done.
  - apply Hd. by apply Hsub.
  - apply Hd. by apply Hsub.
  - intros Hne. apply Hs in Hne. rewrite Hne in Hsub.
    apply set_eq. intros d. split; [by intros ?%Hsub|by intros ?%not_elem_of_empty].
Qed.

Lemma populated_shrinks b b' : populated b → shrinks b b' → populated b'.
Proof.
  intros Hp Hs i Hi. destruct (Hp i Hi) as [c L].
  destruct (shrinks_lookup _ _ _ _ Hs L) as (c' & L' & _). eauto.
Qed.

Lemma board_ok_shrinks b b' : board_ok b → shrinks b b' → board_ok b'.
Proof.
  intros [Hp Hok] Hs. split; [by eapply populated_shrinks|].
  intros p c' L'. destruct (shrinks_lookup_inv _ _ _ _ Hs L') as (c & L & Hc).
  eapply cell_ok_shrinks; eauto.
Qed.

Lemma NewBoard_ok : board_ok NewBoard.
Proof.
  split; [apply NewBoard_populated|].
  intros p c L.
  assert (0 <= p <= 80) as Hp.
  { destruct (decide (0 <= p <= 80)) as [?|Hout]; [done|]. exfalso.
    unfold NewBoard in L. cbn [board] in L.
    apply elem_of_list_to_map_2, list_elem_of_In, in_map_iff in L
      as (i & [= <- _] & Hi).
    apply list_elem_of_In, elem_of_seqZ in Hi. lia. }
  rewrite NewBoard_lookup in L by done. injection L as <-.
  pose proof (Z.quot_rem' p 9) as Hqr.
  assert (0 <= Z.rem p 9 < 9) by (apply Z.rem_bound_pos; lia).
  assert (0 <= Z.quot p 9) by (apply Z.quot_pos; lia).
  assert (∀ d, d ∈ full_candidates → 1 <= d <= 9) as Hfull.
  { intros d Hd. apply elem_of_list_to_set, elem_of_seqZ in Hd. lia. }
  unfold cell_ok, NewCell. cbn [row col index value candidates].
  repeat split; try lia; try (by apply Hfull).
Qed.

Lemma store_ok b p c :
  board_ok b → cell_ok p c → 0 <= p <= 80 → board_ok (store b p c).
Proof.
  intros [Hp Hok] Hc Hr. split.
  - intros i Hi. cbn [store board].
    destruct (decide (p = i)) as [->|Hne];
      [rewrite lookup_insert_eq|rewrite lookup_insert_ne by done]; eauto.
  - intros q c' L. cbn [store board] in L.
    destruct (decide (p = q)) as [->|Hne].
    + rewrite lookup_insert_eq in L. by injection L as <-.
    + rewrite lookup_insert_ne in L by done. eauto.
Qed.

Lemma cell_ok_in_range p c : cell_ok p c → 0 <= p <= 80.
Proof. intros (Hr & Hc & Hp & _). lia. Qed.

Lemma SetValue_ok b p v : board_ok b → board_ok (SetValue b p v).1.
Proof.
  intros Hb. unfold SetValue.
  destruct ((v <? 0) || (v >? 9)) eqn:E; [done|].
  destruct (board b !! p) as [c|] eqn:L; [|done].
  pose proof (proj2 Hb p c L) as Hc.
  pose proof (cell_ok_in_range p c Hc) as Hr.
  destruct Hc as (Hr1 & Hc1 & Hp & Hi & Hv & Hd & Hs).
  destruct (Z.eqb_spec v 0) as [->|Hv0]; simpl.
  - apply store_ok; [done| |done]. unfold cell_ok. simpl.
    repeat split; try lia; try done; by apply Hd.
  - eapply board_ok_shrinks; [|apply NotifyCellSolved_shrinks].
    apply store_ok; [done| |done]. unfold cell_ok. simpl.
    repeat split; try lia; try done; by intros ? ?%not_elem_of_empty.
Qed.

Lemma Board_Set_ok b r c v : board_ok b → board_ok (Board_Set b r c v).1.
Proof.
  intros Hb. destruct (decide (bad_position r c)) as [Hbad|Hgood].
  - by rewrite Board_Set_bad_position.
  - rewrite Board_Set_good_position by done.
    destruct (proj1 Hb (r * 9 + c)) as [cell L].
    { unfold bad_position in Hgood. lia. }
    rewrite L. by apply SetValue_ok.
Qed.

Lemma AddCandidate_ok b p d : board_ok b → board_ok (AddCandidate b p d).
Proof.
  intros Hb. unfold AddCandidate.
  destruct (board b !! p) as [c|] eqn:L; [|done].
  pose proof (proj2 Hb p c L) as Hc.
  pose proof (cell_ok_in_range p c Hc) as Hr.
  destruct Hc as (Hr1 & Hc1 & Hp & Hi & Hv & Hd & Hs).
  destruct (Z.eqb_spec (value c) 0) as [E0|E0]; simpl; [|done].
  destruct (d >=? 1) eqn:E1; simpl; [|done].
  destruct (d <=? 9) eqn:E2; simpl; [|done].
  case_bool_decide; simpl; [done|].
  apply store_ok; [done| |done]. unfold cell_ok. simpl.
  assert (∀ x, x ∈ ({[d]} ∪ candidates c : gset Z) → 1 <= x <= 9) as Hin.
  { intros x [->%elem_of_singleton|?%Hd]%elem_of_union; lia. }
  repeat split; try lia; try done; try (by apply Hin); intros ?; lia.
Qed.

Lemma Cell_AddObserver_ok b p o : board_ok b → board_ok (Cell_AddObserver b p o).
Proof.
  intros Hb. unfold Cell_AddObserver.
  destruct (board b !! p) as [c|] eqn:L; [|done].
  pose proof (proj2 Hb p c L) as Hc.
  apply store_ok; [done| |by eapply cell_ok_in_range].
  exact Hc.
Qed.

Lemma with_fields_ok b ks os :
  board_ok b → board_ok (mkBoard (board b) ks os (events b)).
Proof. intros [Hp Hok]. split; [exact Hp|exact Hok]. Qed.

Lemma AddConstraint_ok b k : board_ok b → board_ok (AddConstraint b k).
Proof.
  intros Hb. unfold AddConstraint. cbv zeta.
  set (b1 := mkBoard _ _ _ _).
  assert (board_ok b1) as H1 by (by apply with_fields_ok).
  revert H1. generalize b1. generalize (GetCells (SetBoard k)).
  intros l. induction l as [|i l IH]; intros b0 H0; [done|].
  cbn [fold_left]. apply IH.
  destruct (_ && _); [by apply Cell_AddObserver_ok|done].
Qed.

Lemma Board_AddObserver_ok b o : board_ok b → board_ok (Board_AddObserver b o).
Proof.
  intros Hb. unfold Board_AddObserver. cbv zeta.
  set (b1 := mkBoard _ _ _ _).
  assert (board_ok b1) as H1 by (by apply with_fields_ok).
  revert H1. generalize b1. generalize (seqZ 0 81).
  intros l. induction l as [|i l IH]; intros b0 H0; [done|].
  cbn [fold_left]. apply IH. by apply Cell_AddObserver_ok.
Qed.

Lemma run_op_ok b op : board_ok b → board_ok (run_op b op).
Proof.
  intros Hb. destruct op; cbn [run_op].
  - by apply Board_Set_ok.
  - by apply AddConstraint_ok.
  - by apply Board_AddObserver_ok.
  - unfold on_cell. destruct (GetCellAt b r c) as [[p ?]|]; [|done].
    eapply board_ok_shrinks; [done|apply RemoveCandidate_shrinks].
  - unfold on_cell. destruct (GetCellAt b r c) as [[p ?]|]; [|done].
    by apply AddCandidate_ok.
  - eapply board_ok_shrinks; [done|]. apply (ApplyPencilMarkConstraints_step_ok b).
  - eapply board_ok_shrinks; [done|]. apply (ApplyAdvancedTechniques_step_ok b).
Qed.

(** X1.  Every grid reached from [NewBoard] through the public operations
    (set, with any arguments; registering a constraint or an observer;
    removing or adding a candidate; the two deduction drivers) holds its 81
    cells, each at its own coordinates, with a value in 0..9, candidates
    within 1..9, and no candidate left once it has a value. *)
Theorem reachable_board_ok (ops : list Op) : board_ok (run_ops NewBoard ops).
Proof.
  unfold run_ops. generalize NewBoard_ok. generalize NewBoard.
  induction ops as [|op ops IH]; intros b Hb; [done|].
  cbn [fold_left]. apply IH. by apply run_op_ok.
Qed.

(** ** Setting and reading *)

Lemma Get_good_position b r c :
  ¬ bad_position r c →
  Get b r c = match board b !! (r * 9 + c) with Some cell => value cell | None => 0 end.
Proof.
  intros H. unfold Get, bad_position in *.
  destruct ((r <? 0) || (r >? 8) || (c <? 0) || (c >? 8)) eqn:E; [lia|done].
Qed.

Lemma Get_bad_position b r c : bad_position r c → Get b r c = 0.
Proof.
  intros H. unfold Get, bad_position in *.
  destruct ((r <? 0) || (r >? 8) || (c <? 0) || (c >? 8)) eqn:E; [done|lia].
Qed.

(** The values after [SetValue] with an accepted value: the cell holds the
    value, every other slot holds the value it held. *)
Lemma SetValue_values b p v cell :
  board b !! p = Some cell → ¬ bad_value v →
  (SetValue b p v).2 = None
  ∧ value <$> board (SetValue b p v).1 !! p = Some v
  ∧ ∀ q, q ≠ p → value <$> board (SetValue b p v).1 !! q = value <$> board b !! q.
Proof.
  intros L Hv. unfold SetValue, bad_value in *.
  destruct ((v <? 0) || (v >? 9)) eqn:E; [lia|]. rewrite L.
  destruct (Z.eqb_spec v 0) as [->|Hv0]; cbn [negb fst snd].
  - split; [done|]. cbn [store board]. split.
    + by rewrite lookup_insert_eq.
    + intros q Hq. by rewrite lookup_insert_ne.
  - split; [done|].
    set (c2 := with_candidates (with_value cell v) ∅).
    pose proof (NotifyCellSolved_shrinks (store b p c2) (notifier c2) (row c2)
                  (col c2) v) as (_ & _ & Hs).
    assert (∀ q, value <$> board (NotifyCellSolved (store b p c2) (notifier c2)
                                    (row c2) (col c2) v) !! q
                 = value <$> board (store b p c2) !! q) as Hval.
    { intros q. specialize (Hs q).
      destruct Hs as [x y (_&_&_&Hxy&_)|]; [|done]. simpl. by rewrite Hxy. }
    split.
    + rewrite Hval. cbn [store board]. by rewrite lookup_insert_eq.
    + intros q Hq. rewrite Hval. cbn [store board]. by rewrite lookup_insert_ne.
Qed.

(** X2.  [Board.Set] with a position within the grid and a value of 0..9
    returns no error; [Get] at that position then returns the value, and at
    every other position what it returned before. *)
Theorem Board_Set_then_Get (b : Board) (r c v : Z) :
  ¬ bad_position r c → ¬ bad_value v →
  (Board_Set b r c v).2 = None
  ∧ Get (Board_Set b r c v).1 r c = v
  ∧ ∀ r' c', (r', c') ≠ (r, c) → Get (Board_Set b r c v).1 r' c' = Get b r' c'.
Proof.
  intros Hpos Hv. rewrite Board_Set_good_position by done.
  set (b1 := match board b !! (r * 9 + c) with
             | Some _ => b
             | None => store b (r * 9 + c) (NewCell r c)
             end).
  assert (∃ cell, board b1 !! (r * 9 + c) = Some cell) as [cell L].
  { subst b1. destruct (board b !! (r * 9 + c)) as [x|] eqn:E; [eauto|].
    exists (NewCell r c). cbn [store board]. by rewrite lookup_insert_eq. }
  assert (∀ q, value <$> board b1 !! q
               = if decide (q = r * 9 + c)
                 then Some (default 0 (value <$> board b !! q))
                 else value <$> board b !! q) as Hb1.
  { intros q. subst b1. destruct (board b !! (r * 9 + c)) as [x|] eqn:E.
    - case_decide as Hq; [|done]. subst q. by rewrite E.
    - cbn [store board]. case_decide as Hq.
      + subst q. by rewrite lookup_insert_eq, E.
      + by rewrite lookup_insert_ne. }
  destruct (SetValue_values b1 (r * 9 + c) v cell L Hv) as (Herr & Hp & Hq).
  split; [exact Herr|]. split.
  - rewrite Get_good_position by done.
    destruct (board (SetValue b1 (r * 9 + c) v).1 !! (r * 9 + c)) as [x|];
      simpl in Hp; congruence.
  - intros r' c' Hne.
    destruct (decide (bad_position r' c')) as [Hbad|Hgood].
    { by rewrite !Get_bad_position. }
    rewrite !Get_good_position by done.
    assert (r' * 9 + c' ≠ r * 9 + c) as Hslot.
    { unfold bad_position in *. intros Heq. apply Hne. f_equal; lia. }
    specialize (Hq _ Hslot). rewrite Hb1 in Hq.
    rewrite decide_False in Hq by done.
    destruct (board (SetValue b1 (r * 9 + c) v).1 !! (r' * 9 + c')) as [x|];
      destruct (board b !! (r' * 9 + c')) as [y|]; simpl in Hq; congruence.
Qed.

Lemma Board_Set_then_Get_witness :
  (Board_Set NewBoard 4 4 7).2 = None ∧ Get (Board_Set NewBoard 4 4 7).1 4 4 = 7.
Proof.
  assert (¬ bad_position 4 4) as Hp by (unfold bad_position; lia).
  assert (¬ bad_value 7) as Hv by (unfold bad_value; lia).
  destruct (Board_Set_then_Get NewBoard 4 4 7 Hp Hv) as (H1 & H2 & _).
  split; [exact H1|exact H2].
Defined.

(** ** Propagation to the siblings of a solved cell *)

Lemma strike_at_index b idx v c' :
  0 <= idx <= 80 →
  board (strike b (GetCellAt b (Z.quot idx 9) (Z.rem idx 9)) v) !! idx = Some c' →
  HasCandidate c' v = false.
Proof.
  intros Hi. unfold strike.
  destruct (GetCellAt b (Z.quot idx 9) (Z.rem idx 9)) as [[p oc]|] eqn:G.
  - apply GetCellAt_quot_rem in G as (_ & -> & L).
    destruct (IsSolved oc) eqn:S; simpl.
    + rewrite L. intros [= <-]. unfold IsSolved in S. unfold HasCandidate.
      by rewrite S.
    + apply RemoveCandidate_gone.
  - intros L. exfalso.
    assert (GetCellAt b (Z.quot idx 9) (Z.rem idx 9) = Some (idx, c')) as G'
      by (by apply GetCellAt_quot_rem).
    congruence.
Qed.

Lemma strike_fold_closes (cond : Z → bool) v cells : ∀ b idx c',
  idx ∈ cells → cond idx = true → 0 <= idx <= 80 →
  board (fold_left
           (λ b' i, if cond i
                    then strike b' (GetCellAt b' (Z.quot i 9) (Z.rem i 9)) v
                    else b')
           cells b) !! idx = Some c' →
  HasCandidate c' v = false.
Proof.
  induction cells as [|i0 cells IH]; intros b idx c' Hin Hc Hr L;
    [by apply elem_of_nil in Hin|].
  cbn [fold_left] in L.
  apply elem_of_cons in Hin as [->|Hin]; [|by eapply IH].
  rewrite Hc in L.
  set (b1 := strike b (GetCellAt b (Z.quot i0 9) (Z.rem i0 9)) v) in *.
  assert (shrinks b1
            (fold_left
               (λ b' i, if cond i
                        then strike b' (GetCellAt b' (Z.quot i 9) (Z.rem i 9)) v
                        else b') cells b1)) as Hs.
  { apply fold_left_shrinks. intros b' i.
    destruct (cond i); [apply strike_shrinks|reflexivity]. }
  destruct (shrinks_lookup_inv _ _ _ _ Hs L) as (c1 & L1 & Hc1).
  eapply cell_shrinks_HasCandidate; [exact Hc1|].
  by eapply strike_at_index.
Qed.

(** What [PropagateValueChange] of a uniqueness constraint attached to the
    grid achieves for the cell solved at row [r], column [c]: the value is
    no candidate of any other cell of the scope. *)
Lemma PropagateValueChange_closes k b r c v idx c' :
  RequiresUniqueness k = true → HasBoard (GetBase k) = true → v ≠ 0 →
  0 <= r <= 8 → 0 <= c <= 8 →
  idx ∈ GetCells k → 0 <= idx <= 80 → idx ≠ r * 9 + c →
  board (PropagateValueChange k b r c v) !! idx = Some c' →
  HasCandidate c' v = false.
Proof.
  intros Hu Hb Hv Hr Hc Hin Hi Hne L. unfold PropagateValueChange in L.
  destruct (Z.eqb_spec v 0) as [|_]; [done|]. rewrite Hb in L. cbn [negb] in L.
  assert (negb (Z.quot idx 9 =? r) || negb (Z.rem idx 9 =? c) = true) as Hpos.
  { pose proof (Z.quot_rem' idx 9).
    destruct (Z.eqb_spec (Z.quot idx 9) r); destruct (Z.eqb_spec (Z.rem idx 9) c);
      simpl; try done. lia. }
  assert (negb (idx =? r * 9 + c) = true) as Hidx.
  { destruct (Z.eqb_spec idx (r * 9 + c)); done. }
  assert (∀ b0 cells x,
            idx ∈ cells → board (propagate_by_position b0 cells r c v) !! idx = Some x →
            HasCandidate x v = false) as Hbypos.
  { intros b0 cells x H1 H2.
    by apply (strike_fold_closes
                (λ i, negb (Z.quot i 9 =? r) || negb (Z.rem i 9 =? c))
                v cells b0 idx x). }
  assert (∀ b0 cells x,
            idx ∈ cells → board (propagate_by_index b0 cells r c v) !! idx = Some x →
            HasCandidate x v = false) as Hbyidx.
  { intros b0 cells x H1 H2.
    by apply (strike_fold_closes (λ i, negb (i =? r * 9 + c)) v cells b0 idx x). }
  destruct k as [base ?|base ?|base ?|base t|base|base]; cbn [GetCells GetBase] in Hin;
    try discriminate Hu.
  - by eapply Hbypos.
  - by eapply Hbypos.
  - by eapply Hbypos.
  - unfold KillerCage_PropagateValueChange in L. cbv zeta in L.
    destruct (shrinks_lookup_inv _ _ _ _ (prune_empty_cells_shrinks _ _ _) L)
      as (c1 & L1 & Hc1).
    eapply cell_shrinks_HasCandidate; [exact Hc1|]. by eapply Hbyidx.
  - unfold Renban_PropagateValueChange in L. cbv zeta in L.
    destruct (shrinks_lookup_inv _ _ _ _ (prune_empty_cells_shrinks _ _ _) L)
      as (c1 & L1 & Hc1).
    eapply cell_shrinks_HasCandidate; [exact Hc1|]. by eapply Hbyidx.
Qed.

(** What [NotifyCellSolved] does in all: every observer is told, and the
    record grows by these deliveries; the grid is not touched. *)
Lemma NotifyCellSolved_spec obs r c v : ∀ b,
  NotifyCellSolved b obs r c v
  = mkBoard (board b) (constraints b) (observers b)
            (events b ++ map (λ o, (o, CellSolved r c v)) obs).
Proof.
  unfold NotifyCellSolved. induction obs as [|o obs IH]; intros b; cbn [fold_left map].
  - rewrite app_nil_r. by destruct b.
  - rewrite IH. unfold OnCellSolved, BaseConstraint_PropagateValueChange. cbv zeta.
    destruct o; cbn [record board constraints observers events];
      by rewrite <- app_assoc.
Qed.

Lemma SetValue_digit b p v cell :
  board b !! p = Some cell → 1 <= v <= 9 →
  SetValue b p v
  = (mkBoard (<[p := with_candidates (with_value cell v) ∅]> (board b))
             (constraints b) (observers b)
             (events b ++ map (λ o, (o, CellSolved (row cell) (col cell) v))
                              (notifier cell)),
     None).
Proof.
  intros L Hv. unfold SetValue.
  destruct ((v <? 0) || (v >? 9)) eqn:E; [lia|]. rewrite L.
  destruct (Z.eqb_spec v 0) as [|_]; [lia|]. cbn [negb].
  by rewrite NotifyCellSolved_spec.
Qed.

Lemma SetValue_other_cells b p v q :
  q ≠ p → board (SetValue b p v).1 !! q = board b !! q.
Proof.
  intros Hq. unfold SetValue. destruct (_ || _); [done|].
  destruct (board b !! p) as [cell|] eqn:L; [|done].
  destruct (negb (v =? 0)); cbn [fst].
  - rewrite NotifyCellSolved_spec. cbn [board store]. by rewrite lookup_insert_ne.
  - cbn [board store]. by rewrite lookup_insert_ne.
Qed.

Lemma Board_Set_other_cells b r c v q :
  q ≠ r * 9 + c → board (Board_Set b r c v).1 !! q = board b !! q.
Proof.
  intros Hq. unfold Board_Set. destruct (_ || _); [done|]. cbv zeta.
  rewrite SetValue_other_cells by done.
  destruct (board b !! (r * 9 + c)); [done|].
  cbn [board store]. by rewrite lookup_insert_ne.
Qed.

(** ** Registering a constraint *)

Lemma with_notifier_app c l1 l2 :
  with_notifier (with_notifier c (notifier c ++ l1))
                (notifier (with_notifier c (notifier c ++ l1)) ++ l2)
  = with_notifier c (notifier c ++ (l1 ++ l2)).
Proof. unfold with_notifier. simpl. by rewrite <- app_assoc. Qed.

Lemma with_notifier_nil c : with_notifier c (notifier c ++ []) = c.
Proof. destruct c. unfold with_notifier. simpl. by rewrite app_nil_r. Qed.

Lemma subscribe_fold o cells : ∀ b,
  let b' := fold_left
              (λ b' cellIndex,
                 if (cellIndex >=? 0) && (cellIndex <=? 80)
                 then Cell_AddObserver b' cellIndex o
                 else b')
              cells b in
  constraints b' = constraints b ∧ observers b' = observers b ∧ events b' = events b
  ∧ ∀ q, board b' !! q
         = (λ c, with_notifier c (notifier c ++ replicate (registrations q cells) o))
           <$> board b !! q.
Proof.
  induction cells as [|i cells IH]; intros b; cbv zeta.
  - repeat split; try done. intros q. cbn.
    destruct (board b !! q) as [c|]; [|done]. simpl. by rewrite with_notifier_nil.
  - cbn [fold_left].
    set (b1 := if (i >=? 0) && (i <=? 80) then Cell_AddObserver b i o else b).
    destruct (IH b1) as (Hc & Ho & He & Hb). rewrite Hc, Ho, He.
    assert (constraints b1 = constraints b ∧ observers b1 = observers b
            ∧ events b1 = events b
            ∧ ∀ q, board b1 !! q
                   = (λ c, with_notifier c
                             (notifier c
                              ++ replicate (registrations q [i]) o))
                     <$> board b !! q) as (Hc1 & Ho1 & He1 & Hb1).
    { subst b1. unfold registrations.
      destruct ((i >=? 0) && (i <=? 80)) eqn:E.
      - unfold Cell_AddObserver.
        destruct (board b !! i) as [ci|] eqn:Li.
        + repeat split; try done. intros q. cbn [store board].
          destruct (decide (i = q)) as [->|Hne].
          * rewrite lookup_insert_eq, Li. simpl.
            rewrite filter_cons_True by lia. done.
          * rewrite lookup_insert_ne by done.
            rewrite filter_cons_False by tauto. simpl.
            destruct (board b !! q) as [c|]; [|done]. simpl.
            by rewrite with_notifier_nil.
        + repeat split; try done. intros q.
          destruct (decide (i = q)) as [->|Hne].
          * by rewrite Li.
          * rewrite filter_cons_False by tauto. simpl.
            destruct (board b !! q) as [c|]; [|done]. simpl.
            by rewrite with_notifier_nil.
      - repeat split; try done. intros q.
        rewrite filter_cons_False by lia. simpl.
        destruct (board b !! q) as [c|]; [|done]. simpl.
        by rewrite with_notifier_nil. }
    repeat split; try done. intros q. rewrite Hb, Hb1.
    destruct (board b !! q) as [c|]; [|done]. simpl. f_equal.
    rewrite with_notifier_app. f_equal. f_equal.
    rewrite <- replicate_add. f_equal.
    unfold registrations. change (i :: cells) with ([i] ++ cells).
    by rewrite filter_app, length_app.
Qed.

Lemma AddConstraint_fields (b : Board) (k : Constraint) :
  let b' := AddConstraint b k in
  constraints b' = constraints b ++ [SetBoard k]
  ∧ observers b' = observers b ∧ events b' = events b
  ∧ ∀ q, board b' !! q
         = (λ c, with_notifier c
                   (notifier c
                    ++ replicate (registrations q (GetCells k))
                                 (ConstraintObserver (SetBoard k))))
           <$> board b !! q.
Proof.
  cbv zeta. unfold AddConstraint. cbv zeta.
  set (b1 := mkBoard _ _ _ _).
  destruct (subscribe_fold (ConstraintObserver (SetBoard k)) (GetCells (SetBoard k)) b1)
    as (Hc & Ho & He & Hb).
  rewrite Hc, Ho, He. repeat split; try done.
  intros q. rewrite Hb. by destruct k.
Qed.

(** X4.  [AddConstraint] appends the constraint, with its grid reference
    set, to the constraints of the grid and subscribes it to the cells of
    its scope: the observer list of a cell grows, at its end, by one entry
    per occurrence of the cell in the scope (indices outside 0..80 are
    skipped), and nothing else changes: no value, no candidate, no board
    observer, no notification. *)
Theorem AddConstraint_subscribes (b : Board) (k : Constraint) :
  let b' := AddConstraint b k in
  constraints b' = constraints b ++ [SetBoard k]
  ∧ observers b' = observers b ∧ events b' = events b
  ∧ ∀ q, board b' !! q
         = (λ c, with_notifier c
                   (notifier c
                    ++ replicate (registrations q (GetCells k))
                                 (ConstraintObserver (SetBoard k))))
           <$> board b !! q.
Proof.
  cbv zeta. destruct (AddConstraint_fields b k) as (Hc & Ho & He & Hb).
  split; [exact Hc|]. split; [exact Ho|]. split; [exact He|exact Hb].
Qed.

(** ** Registering an observer *)

Lemma Cell_AddObserver_fields b p o :
  let b' := Cell_AddObserver b p o in
  constraints b' = constraints b ∧ observers b' = observers b ∧ events b' = events b
  ∧ ∀ q, board b' !! q
         = (λ c, with_notifier c
                   (notifier c ++ replicate (if decide (p = q) then 1%nat else 0%nat) o))
           <$> board b !! q.
Proof.
  cbv zeta. unfold Cell_AddObserver.
  destruct (board b !! p) as [c|] eqn:L.
  - repeat split; try done. intros q. cbn [store board].
    destruct (decide (p = q)) as [->|Hne].
    + by rewrite lookup_insert_eq, L.
    + rewrite lookup_insert_ne by done.
      destruct (board b !! q) as [x|]; [|done]. simpl. by rewrite with_notifier_nil.
  - repeat split; try done. intros q.
    destruct (decide (p = q)) as [->|Hne]; [by rewrite L|].
    destruct (board b !! q) as [x|]; [|done]. simpl. by rewrite with_notifier_nil.
Qed.

Lemma Board_AddObserver_grows b o : grows b (Board_AddObserver b o).
Proof.
  unfold Board_AddObserver. cbv zeta.
  set (b1 := mkBoard _ _ _ _).
  assert (grows b b1) as H1.
  { split; [done|]. intros q. exists []. subst b1. cbn [board].
    destruct (board b !! q) as [c|]; [|done]. simpl. by rewrite with_notifier_nil. }
  revert H1. generalize b1. generalize (seqZ 0 81).
  intros l. induction l as [|i l IH]; intros b0 H0; [done|].
  cbn [fold_left]. apply IH.
  destruct H0 as [Hc Hg].
  destruct (Cell_AddObserver_fields b0 i o) as (Hc' & _ & _ & Hb').
  split; [congruence|]. intros q. destruct (Hg q) as [extra E].
  exists (extra ++ replicate (if decide (i = q) then 1%nat else 0%nat) o).
  rewrite Hb', E. destruct (board b !! q) as [c|]; [|done]. simpl.
  by rewrite with_notifier_app.
Qed.

(** ** utils *)

Lemma HasUniqueNonZeros_from_spec values : ∀ seen,
  HasUniqueNonZeros_from seen values = true ↔
  (∀ v, v ∈ values → v ≠ 0 → 1 <= v <= 9 ∧ v ∉ seen)
  ∧ NoDup (filter (λ v, v ≠ 0) values).
Proof.
  induction values as [|v rest IH]; intros seen.
  - simpl. split; [|done]. intros _. split; [by intros v ?%elem_of_nil|constructor].
  - cbn [HasUniqueNonZeros_from].
    destruct (Z.eqb_spec v 0) as [->|Hv0].
    + rewrite IH, filter_cons_False by (intros ?; done). split.
      * intros [H1 H2]. split; [|done].
        intros w [->|Hw]%elem_of_cons Hne; [done|by apply H1].
      * intros [H1 H2]. split; [|done]. intros w Hw. apply H1. by right.
    + rewrite filter_cons_True by done.
      destruct ((v <? 1) || (v >? 9)) eqn:Er.
      { split; [done|]. intros [H1 _]. destruct (H1 v) as [? _]; [by left|done|lia]. }
      case_bool_decide as Hseen.
      { split; [done|]. intros [H1 _]. destruct (H1 v) as [_ ?]; [by left|done|done]. }
      rewrite IH. split.
      * intros [H1 H2]. split.
        -- intros w [->|Hw]%elem_of_cons Hne; [split; [lia|done]|].
           destruct (H1 w Hw Hne) as [? Hnot]. split; [done|].
           intros ?. apply Hnot. apply elem_of_union. by right.
        -- constructor; [|done]. intros [Hz Hin]%list_elem_of_filter.
           destruct (H1 v Hin Hz) as [_ Hnot]. apply Hnot.
           apply elem_of_union. left. by apply elem_of_singleton.
      * intros [H1 H2]. apply NoDup_cons in H2 as [Hnotin H2]. split; [|done].
        intros w Hw Hne. destruct (H1 w) as [? Hnot]; [by right|done|].
        split; [done|]. intros [->%elem_of_singleton|?]%elem_of_union; [|done].
        apply Hnotin. by apply list_elem_of_filter.
Qed.

(** X6.  [HasUniqueNonZeros] answers true exactly when every value is
    within 0..9 and no value other than 0 occurs twice. *)
Theorem HasUniqueNonZeros_spec (values : list Z) :
  HasUniqueNonZeros values = true ↔
  (∀ v, v ∈ values → 0 <= v <= 9) ∧ NoDup (filter (λ v, v ≠ 0) values).
Proof.
  unfold HasUniqueNonZeros. rewrite HasUniqueNonZeros_from_spec. split.
  - intros [H1 H2]. split; [|done]. intros v Hv.
    destruct (decide (v = 0)) as [->|Hne]; [lia|]. destruct (H1 v Hv Hne). lia.
  - intros [H1 H2]. split; [|done]. intros v Hv Hne. specialize (H1 v Hv).
    split; [lia|]. apply not_elem_of_empty.
Qed.

Lemma generate_NoDup items : ∀ k, NoDup items → NoDup (generate items k).
Proof.
  induction items as [|i rest IH]; intros k Hnd.
  - destruct k; simpl; [apply NoDup_singleton|constructor].
  - destruct k as [|k]; simpl; [apply NoDup_singleton|].
    apply NoDup_cons in Hnd as [Hi Hnd].
    apply NoDup_app. split; [|split].
    + apply (NoDup_fmap_2 (cons i)). by apply IH.
    + intros combo H1 H2.
      apply list_elem_of_In, in_map_iff in H1 as (l & <- & _).
      apply generate_sublist in H2 as [Hs _].
      apply Hi. eapply elem_of_sublist; [|exact Hs]. by left.
    + by apply IH.
Qed.

(** X7.  For [n] at least 0, [GenerateCombinations n k] lists, each exactly
    once, the strictly increasing selections of [k] indices below [n]: the
    sublists of 0..n-1 of length [k].  It is empty when [k] is negative or
    exceeds [n]. *)
Theorem GenerateCombinations_spec (n k : Z) :
  0 <= n →
  NoDup (GenerateCombinations n k)
  ∧ (∀ combo, combo ∈ GenerateCombinations n k ↔
       0 <= k ∧ combo `sublist_of` seq 0 (Z.to_nat n) ∧ Z.of_nat (length combo) = k)
  ∧ (k < 0 ∨ k > n → GenerateCombinations n k = []).
Proof.
  intros Hn. unfold GenerateCombinations.
  destruct ((k >? n) || (k <? 0)) eqn:E.
  - split; [constructor|]. split; [|done].
    intros combo. split; [by intros ?%elem_of_nil|].
    intros (Hk & Hs & Hl). apply sublist_length in Hs. rewrite length_seq in Hs. lia.
  - split; [apply generate_NoDup, NoDup_seq|]. split; [|lia].
    intros combo. rewrite generate_sublist. split.
    + intros [Hs Hl]. split; [lia|]. split; [done|lia].
    + intros (Hk & Hs & Hl). split; [done|lia].
Qed.

Lemma GenerateCombinations_spec_witness :
  NoDup (GenerateCombinations 4 2)
  ∧ ([1; 3]%nat ∈ GenerateCombinations 4 2 ↔
       0 <= 2 ∧ [1; 3]%nat `sublist_of` seq 0 (Z.to_nat 4)
       ∧ Z.of_nat (length [1; 3]%nat) = 2).
Proof.
  assert (0 <= 4) as H by lia.
  destruct (GenerateCombinations_spec 4 2 H) as (H1 & H2 & _).
  split; [exact H1|exact (H2 [1; 3]%nat)].
Defined.

Lemma GetCandidatesAsSlice_elem cands d :
  d ∈ GetCandidatesAsSlice cands ↔ d ∈ cands ∧ 1 <= d <= 9.
Proof.
  unfold GetCandidatesAsSlice. rewrite list_elem_of_filter, elem_of_seqZ. intuition lia.
Qed.

Lemma filter_StronglySorted_lt (P : Z → Prop) `{∀ x, Decision (P x)} l :
  StronglySorted Z.lt l → StronglySorted Z.lt (filter P l).
Proof.
  induction 1 as [|x l Hs IH Hall]; [constructor|].
  destruct (decide (P x)).
  - rewrite filter_cons_True by done. constructor; [done|].
    apply Forall_forall. intros y [_ Hy]%list_elem_of_filter.
    eapply Forall_forall in Hall; eauto.
  - by rewrite filter_cons_False.
Qed.

Lemma seqZ_StronglySorted m n : StronglySorted Z.lt (seqZ m n).
Proof.
  unfold seqZ. generalize (Z.to_nat n). intros len.
  assert (∀ start, StronglySorted Z.lt ((λ i, Z.of_nat i + m) <$> seq start len))
    as H; [|apply H].
  induction len as [|len IH]; intros start; [constructor|].
  cbn. constructor; [apply IH|].
  apply Forall_forall. intros y Hy.
  apply list_elem_of_fmap in Hy as (i & -> & Hi).
  apply list_elem_of_In, in_seq in Hi. lia.
Qed.

(** X8.  [GetCandidatesAsSlice] lists the members of the set that lie
    within 1..9, in strictly ascending order; when the whole set lies within
    1..9 the slice has as many entries as the set has members. *)
Theorem GetCandidatesAsSlice_spec (cands : gset Z) :
  (∀ d, d ∈ GetCandidatesAsSlice cands ↔ d ∈ cands ∧ 1 <= d <= 9)
  ∧ StronglySorted Z.lt (GetCandidatesAsSlice cands)
  ∧ ((∀ d, d ∈ cands → 1 <= d <= 9) →
     length (GetCandidatesAsSlice cands) = size cands).
Proof.
  split; [apply GetCandidatesAsSlice_elem|]. split.
  - unfold GetCandidatesAsSlice. apply filter_StronglySorted_lt, seqZ_StronglySorted.
  - intros Hr.
    assert (NoDup (GetCandidatesAsSlice cands)) as Hnd.
    { unfold GetCandidatesAsSlice. apply NoDup_filter, NoDup_seqZ. }
    rewrite <- (size_list_to_set (C := gset Z)) by done. f_equal.
    apply set_eq. intros d. rewrite elem_of_list_to_set, GetCandidatesAsSlice_elem.
    split; [tauto|]. intros Hd. split; [done|by apply Hr].
Qed.

(** X9.  The coordinate helpers of utils are inverse to each other on the
    grid and answer -1 outside: an index of 0..80 is recovered from its row
    and column, a row and column of 0..8 from their index, and an index
    outside 0..80 comes back as -1. *)
Theorem index_row_col_round_trip :
  (∀ i, RowColToIndex (IndexToRowCol i).1 (IndexToRowCol i).2
        = if decide (0 <= i <= 80) then i else -1)
  ∧ (∀ r c, IndexToRowCol (RowColToIndex r c)
            = if decide (0 <= r <= 8 ∧ 0 <= c <= 8) then (r, c) else (-1, -1)).
Proof.
  split.
  - intros i. unfold IndexToRowCol.
    destruct ((i <? 0) || (i >? 80)) eqn:E.
    + rewrite decide_False by lia. reflexivity.
    + rewrite decide_True by lia. cbn [fst snd]. unfold RowColToIndex.
      pose proof (Z.quot_rem' i 9).
      assert (0 <= Z.rem i 9 < 9) by (apply Z.rem_bound_pos; lia).
      assert (0 <= Z.quot i 9) by (apply Z.quot_pos; lia).
      destruct ((Z.quot i 9 <? 0) || (Z.quot i 9 >? 8) || (Z.rem i 9 <? 0)
                || (Z.rem i 9 >? 8)) eqn:E'; lia.
  - intros r c. unfold RowColToIndex.
    destruct ((r <? 0) || (r >? 8) || (c <? 0) || (c >? 8)) eqn:E.
    + rewrite decide_False by lia. reflexivity.
    + rewrite decide_True by lia. unfold IndexToRowCol.
      destruct ((r * 9 + c <? 0) || (r * 9 + c >? 80)) eqn:E'; [lia|]. f_equal.
      * symmetry. apply (Z.quot_unique _ _ r c); lia.
      * symmetry. apply (Z.rem_unique _ _ r c); lia.
Qed.

Lemma GetCandidatesAsSlice_spec_witness :
  length (GetCandidatesAsSlice {[3; 7]}) = size ({[3; 7]} : gset Z).
Proof.
  assert (∀ d, d ∈ ({[3; 7]} : gset Z) → 1 <= d <= 9) as H.
  { intros d [->%elem_of_singleton| ->%elem_of_singleton]%elem_of_union; lia. }
  exact (proj2 (proj2 (GetCandidatesAsSlice_spec {[3; 7]})) H).
Defined.

Lemma scope_is_elim cells member :
  scope_is cells member = true →
  NoDup cells ∧ length cells = 9%nat
  ∧ ∀ idx, idx ∈ cells ↔ 0 <= idx <= 80 ∧ member idx = true.
Proof.
  unfold scope_is. intros H.
  apply andb_true_iff in H as [H H4]. apply andb_true_iff in H as [H H3].
  apply andb_true_iff in H as [H1 H2].
  apply bool_decide_eq_true in H1. apply Nat.eqb_eq in H2.
  split; [exact H1|]. split; [exact H2|]. intros idx. split.
  - intros Hin. rewrite forallb_forall in H3.
    specialize (H3 idx (proj1 (list_elem_of_In _ _) Hin)).
    apply andb_true_iff in H3 as [H3 Hm]. apply andb_true_iff in H3 as [Ha Hb].
    split; [lia|exact Hm].
  - intros [Hr Hm].
    pose proof (forallb_seqZ_elim _ 0 81 idx H4 ltac:(lia)) as Hi. cbv beta in Hi.
    rewrite Hm in Hi. simpl in Hi. by apply bool_decide_eq_true in Hi.
Qed.

Lemma built_scope_is_elim o n (member : Z → Z → bool) :
  built_scope_is o (λ idx, member idx n) = true → 0 <= n <= 8 →
  standard_scope o n (λ idx m, member idx m = true).
Proof.
  destruct o as [k|]; simpl; [|discriminate]. intros H Hn.
  apply andb_true_iff in H as [H Hb]. apply andb_true_iff in H as [Hs Hu].
  apply negb_true_iff in Hb.
  destruct (scope_is_elim _ _ Hs) as (Hnd & Hlen & Hmem).
  split; [exact Hn|]. split; [exact Hnd|]. split; [exact Hlen|].
  split; [exact Hu|]. split; [exact Hb|]. exact Hmem.
Qed.

Lemma row_scopes_checked : forallb row_scope_check (seqZ 0 9) = true.
Proof. vm_compute. reflexivity. Qed.

Lemma column_scopes_checked : forallb column_scope_check (seqZ 0 9) = true.
Proof. vm_compute. reflexivity. Qed.

Lemma box_scopes_checked : forallb box_scope_check (seqZ 0 9) = true.
Proof. vm_compute. reflexivity. Qed.

Lemma NewRowConstraint_scope r :
  standard_scope (NewRowConstraint r) r (λ idx n, (IndexToRowCol idx).1 = n).
Proof.
  destruct (decide (0 <= r <= 8)) as [Hr|Hr].
  - pose proof (forallb_seqZ_elim _ 0 9 r row_scopes_checked ltac:(lia)) as H.
    pose proof (built_scope_is_elim (NewRowConstraint r) r
                  (λ idx n, (IndexToRowCol idx).1 =? n) H Hr) as Hs.
    destruct (NewRowConstraint r) as [k|]; simpl in *; [|exact Hs].
    destruct Hs as (H1 & H2 & H3 & H4 & H5 & H6).
    repeat (split; [assumption|]). intros idx. rewrite H6, Z.eqb_eq. reflexivity.
  - unfold NewRowConstraint.
    destruct (Z.ltb_spec r 0); simpl; [lia|].
    destruct (Z.gtb_spec r 8); simpl; lia.
Qed.

Lemma NewColumnConstraint_scope c :
  standard_scope (NewColumnConstraint c) c (λ idx n, (IndexToRowCol idx).2 = n).
Proof.
  destruct (decide (0 <= c <= 8)) as [Hr|Hr].
  - pose proof (forallb_seqZ_elim _ 0 9 c column_scopes_checked ltac:(lia)) as H.
    pose proof (built_scope_is_elim (NewColumnConstraint c) c
                  (λ idx n, (IndexToRowCol idx).2 =? n) H Hr) as Hs.
    destruct (NewColumnConstraint c) as [k|]; simpl in *; [|exact Hs].
    destruct Hs as (H1 & H2 & H3 & H4 & H5 & H6).
    repeat (split; [assumption|]). intros idx. rewrite H6, Z.eqb_eq. reflexivity.
  - unfold NewColumnConstraint.
    destruct (Z.ltb_spec c 0); simpl; [lia|].
    destruct (Z.gtb_spec c 8); simpl; lia.
Qed.

Lemma NewBoxConstraint_scope box :
  standard_scope (NewBoxConstraint box) box
    (λ idx n, GetBoxNumber (IndexToRowCol idx).1 (IndexToRowCol idx).2 = n).
Proof.
  destruct (decide (0 <= box <= 8)) as [Hr|Hr].
  - pose proof (forallb_seqZ_elim _ 0 9 box box_scopes_checked ltac:(lia)) as H.
    pose proof (built_scope_is_elim (NewBoxConstraint box) box
                  (λ idx n, GetBoxNumber (IndexToRowCol idx).1 (IndexToRowCol idx).2 =? n)
                  H Hr) as Hs.
    destruct (NewBoxConstraint box) as [k|]; simpl in *; [|exact Hs].
    destruct Hs as (H1 & H2 & H3 & H4 & H5 & H6).
    repeat (split; [assumption|]). intros idx. rewrite H6, Z.eqb_eq. reflexivity.
  - unfold NewBoxConstraint.
    destruct (Z.ltb_spec box 0); simpl; [lia|].
    destruct (Z.gtb_spec box 8); simpl; lia.
Qed.

(** X10. [NewRowConstraint], [NewColumnConstraint] and [NewBoxConstraint]
    fail exactly for a number outside 0..8; otherwise they return an
    unattached uniqueness constraint whose scope is nine distinct cells:
    exactly the cells of the grid in that row, that column, that box. *)
Theorem standard_constraint_scopes (n : Z) :
  standard_scope (NewRowConstraint n) n (λ idx r, (IndexToRowCol idx).1 = r)
  ∧ standard_scope (NewColumnConstraint n) n (λ idx c, (IndexToRowCol idx).2 = c)
  ∧ standard_scope (NewBoxConstraint n) n
      (λ idx box, GetBoxNumber (IndexToRowCol idx).1 (IndexToRowCol idx).2 = box).
Proof.
  split; [apply NewRowConstraint_scope|].
  split; [apply NewColumnConstraint_scope|apply NewBoxConstraint_scope].
Qed.

(** ** Validation *)

Lemma NoDup_filter_map (f : Z → Z) (l : list Z) :
  NoDup l →
  NoDup (filter (λ v, v ≠ 0) (map f l)) ↔
  ∀ i j, i ∈ l → j ∈ l → i ≠ j → f i ≠ 0 → f j ≠ f i.
Proof.
  induction l as [|a l IH]; intros Hnd.
  - split; [by intros _ i j ?%elem_of_nil|constructor].
  - apply NoDup_cons in Hnd as [Ha Hnd]. specialize (IH Hnd). cbn [map].
    destruct (decide (f a = 0)) as [E0|Hne0].
    + rewrite filter_cons_False by (intros ?; done). rewrite IH. split.
      * intros H i j [->|Hi]%elem_of_cons [->|Hj]%elem_of_cons Hij Hfi;
          try done; try congruence. by apply H.
      * intros H i j Hi Hj. apply H; by right.
    + rewrite filter_cons_True by done. rewrite NoDup_cons, IH. split.
      * intros [Hnot H] i j [->|Hi]%elem_of_cons [->|Hj]%elem_of_cons Hij Hfi;
          try done.
        -- intros E. apply Hnot. apply list_elem_of_filter. split; [congruence|].
           rewrite <- E. apply list_elem_of_fmap. by exists j.
        -- intros E. apply Hnot. apply list_elem_of_filter. split; [done|].
           rewrite E. apply list_elem_of_fmap. by exists i.
        -- by apply H.
      * intros H. split.
        -- intros [_ (i & E & Hi)%list_elem_of_fmap]%list_elem_of_filter.
           assert (a ≠ i) as Hai by (intros ->; done).
           apply (H a i); [by left|by right|done|done|done].
        -- intros i j Hi Hj. apply H; by right.
Qed.

Lemma unique_values b cells :
  board_ok b → NoDup cells →
  HasUniqueNonZeros (map (value_at b) cells) = true ↔ no_duplicate b cells.
Proof.
  intros [_ Hok] Hnd. unfold HasUniqueNonZeros.
  rewrite HasUniqueNonZeros_from_spec.
  assert (∀ v, v ∈ map (value_at b) cells → 0 <= v <= 9) as Hrange.
  { intros v (i & -> & _)%list_elem_of_fmap. unfold value_at.
    destruct (board b !! i) as [c|] eqn:L; [|lia].
    destruct (Hok i c L) as (_ & _ & _ & _ & ? & _). lia. }
  rewrite (NoDup_filter_map (value_at b) cells Hnd). unfold no_duplicate, value_at. split.
  - intros [_ H] i j ci cj Hi Hj Hij Li Lj Hv.
    specialize (H i j Hi Hj Hij). rewrite Li, Lj in H. by apply H.
  - intros H. split.
    + intros v Hv Hne. specialize (Hrange v Hv). split; [lia|apply not_elem_of_empty].
    + intros i j Hi Hj Hij Hv.
      destruct (board b !! i) as [ci|] eqn:Li; [|done].
      destruct (board b !! j) as [cj|] eqn:Lj; [|congruence].
      by apply (H i j ci cj).
Qed.

Lemma map_flat_map {A B C} (f : B → C) (g : A → list B) (l : list A) :
  map f (flat_map g l) = flat_map (λ x, map f (g x)) l.
Proof.
  induction l as [|x l IH]; [done|]. cbn [flat_map]. by rewrite map_app, IH.
Qed.

Lemma standard_values b k :
  standard k →
  NoDup (GetCells k)
  ∧ IsValid k (Some b) = (HasUniqueNonZeros (map (value_at b) (GetCells k)), None)
  ∧ IsValid (SetBoard k) (Some b) = IsValid k (Some b)
  ∧ RequiresUniqueness (SetBoard k) = true
  ∧ GetCells (SetBoard k) = GetCells k.
Proof.
  intros [n [H|[H|H]]].
  - pose proof (NewRowConstraint_scope n) as Hs. rewrite H in Hs.
    destruct Hs as (_ & Hnd & _). split; [exact Hnd|].
    unfold NewRowConstraint in H. destruct (_ || _); [done|]. apply (inj Some) in H. subst k.
    cbn [IsValid SetBoard GetCells GetBase Cells RequiresUniqueness].
    split; [|done]. unfold GetRow. by rewrite map_map.
  - pose proof (NewColumnConstraint_scope n) as Hs. rewrite H in Hs.
    destruct Hs as (_ & Hnd & _). split; [exact Hnd|].
    unfold NewColumnConstraint in H. destruct (_ || _); [done|]. apply (inj Some) in H. subst k.
    cbn [IsValid SetBoard GetCells GetBase Cells RequiresUniqueness].
    split; [|done]. unfold GetColumn. by rewrite map_map.
  - pose proof (NewBoxConstraint_scope n) as Hs. rewrite H in Hs.
    destruct Hs as (_ & Hnd & _). split; [exact Hnd|].
    unfold NewBoxConstraint in H. destruct (_ || _); [done|]. apply (inj Some) in H. subst k.
    cbn [IsValid SetBoard GetCells GetBase Cells RequiresUniqueness].
    split; [|done]. unfold GetBox. cbv zeta. rewrite map_flat_map.
    reflexivity.
Qed.

(** X11.  For a row, column or box constraint as its constructor returns
    it, attached to a grid or not: [IsValid] reports no error on a grid, and
    on a grid whose cells hold values within 0..9 it answers true exactly
    when no two different cells of the scope hold the same digit.  Without
    a grid it answers false with an error. *)
Theorem standard_IsValid (b : Board) (k : Constraint) :
  standard k → board_ok b →
  IsValid k None = (false, Some NilBoard)
  ∧ IsValid (SetBoard k) (Some b) = IsValid k (Some b)
  ∧ (IsValid k (Some b)).2 = None
  ∧ ((IsValid k (Some b)).1 = true ↔ no_duplicate b (GetCells k)).
Proof.
  intros Hk Hok. destruct (standard_values b k Hk) as (Hnd & Hv & Hset & _).
  split; [done|]. split; [exact Hset|]. rewrite Hv. split; [done|].
  cbn [fst]. by apply unique_values.
Qed.

Lemma standard_IsValid_witness :
  IsValid row0 None = (false, Some NilBoard)
  ∧ IsValid (SetBoard row0) (Some NewBoard) = IsValid row0 (Some NewBoard)
  ∧ (IsValid row0 (Some NewBoard)).2 = None
  ∧ ((IsValid row0 (Some NewBoard)).1 = true ↔ no_duplicate NewBoard (GetCells row0)).
Proof.
  assert (standard row0) as Hk by (exists 0; left; reflexivity).
  exact (standard_IsValid NewBoard row0 Hk NewBoard_ok).
Defined.

Lemma Board_Set_constraints b r c v :
  constraints (Board_Set b r c v).1 = constraints b.
Proof.
  unfold Board_Set. destruct (_ || _); [done|]. cbv zeta.
  set (b1 := match board b !! (r * 9 + c) with
             | Some _ => b | None => store b (r * 9 + c) (NewCell r c) end).
  assert (constraints b1 = constraints b) as <- by (subst b1; by destruct (board b !! _)).
  unfold SetValue. destruct (_ || _); [done|].
  destruct (board b1 !! (r * 9 + c)) as [cell|]; [|done].
  destruct (negb (v =? 0)); [|done]. cbn [fst].
  by destruct (NotifyCellSolved_shrinks
                 (store b1 (r * 9 + c) (with_candidates (with_value cell v) ∅))
                 (notifier (with_candidates (with_value cell v) ∅))
                 (row (with_candidates (with_value cell v) ∅))
                 (col (with_candidates (with_value cell v) ∅)) v) as (-> & _).
Qed.

(** ** What the observers are told *)

Lemma GetCandidatesAsSlice_singleton x :
  1 <= x <= 9 → GetCandidatesAsSlice {[x]} = [x].
Proof.
  intros Hx.
  assert (x = 1 ∨ x = 2 ∨ x = 3 ∨ x = 4 ∨ x = 5 ∨ x = 6 ∨ x = 7 ∨ x = 8 ∨ x = 9)
    as H by lia.
  repeat (destruct H as [->|H]; [vm_compute; reflexivity|]). subst x.
  vm_compute. reflexivity.
Qed.

(** X13.  [RemoveCandidate] on a cell that does not have the candidate (or
    is solved) changes nothing and tells nobody.  Otherwise every observer
    of the cell is told of the elimination, in the order of registration,
    with the number of candidates left; and when exactly one candidate is
    left every observer is then told of that single candidate. *)
Theorem RemoveCandidate_notifications (b : Board) (p d : Z) (c : Cell) :
  board b !! p = Some c →
  (∀ x, x ∈ candidates c → 1 <= x <= 9) →
  let b' := RemoveCandidate b p d in
  let rest := candidates c ∖ {[d]} in
  let eliminated :=
    map (λ o, (o, CandidateEliminated (row c) (col c) d (Z.of_nat (size rest))))
        (notifier c) in
  (HasCandidate c d = false → b' = b)
  ∧ (HasCandidate c d = true →
       candidates_of b' p = Some rest
       ∧ (size rest ≠ 1%nat → events b' = events b ++ eliminated)
       ∧ (∀ x, rest = {[x]} →
            events b' = events b ++ eliminated
                        ++ map (λ o, (o, SingleCandidate (row c) (col c) x))
                               (notifier c))).
Proof.
  intros L Hrange. cbv zeta. split; [by apply RemoveCandidate_no_effect|].
  intros [Hv Hd]%HasCandidate_true.
  unfold RemoveCandidate, candidates_of. rewrite L.
  apply Z.eqb_eq in Hv. rewrite Hv. rewrite bool_decide_eq_true_2 by done.
  cbn [andb]. cbv zeta.
  set (rest := candidates c ∖ {[d]}).
  cbn [with_candidates candidates notifier row col].
  set (c' := with_candidates c rest).
  set (b2 := NotifyCandidateEliminated (store b p c') (notifier c) (row c) (col c) d
               (Z.of_nat (size rest))).
  destruct (record_fold_fields
              (CandidateEliminated (row c) (col c) d (Z.of_nat (size rest)))
              (notifier c) (store b p c')) as (Hb2 & _ & _ & He2).
  fold (NotifyCandidateEliminated (store b p c') (notifier c) (row c) (col c) d
          (Z.of_nat (size rest))) in Hb2, He2. fold b2 in Hb2, He2.
  cbn [store board events] in Hb2, He2.
  assert (∀ x, rest = {[x]} →
            (Z.of_nat (size rest) =? 1) = true
            ∧ GetCandidatesAsSlice rest = [x]) as Hsingle.
  { intros x E. rewrite E, size_singleton. split; [done|].
    apply GetCandidatesAsSlice_singleton, Hrange.
    assert (x ∈ rest) as Hx by (rewrite E; by apply elem_of_singleton).
    by apply elem_of_difference in Hx as [? _]. }
  split; [|split].
  - destruct (Z.of_nat (size rest) =? 1).
    + destruct (GetCandidatesAsSlice rest) as [|x ?].
      * by rewrite Hb2, lookup_insert_eq.
      * destruct (record_fold_fields (SingleCandidate (row c) (col c) x)
                    (notifier c) b2) as (Hb3 & _).
        fold (NotifySingleCandidate b2 (notifier c) (row c) (col c) x) in Hb3.
        by rewrite Hb3, Hb2, lookup_insert_eq.
    + by rewrite Hb2, lookup_insert_eq.
  - intros Hsize. destruct (Z.eqb_spec (Z.of_nat (size rest)) 1) as [E|_]; [lia|].
    exact He2.
  - intros x E. destruct (Hsingle x E) as [-> ->].
    destruct (record_fold_fields (SingleCandidate (row c) (col c) x)
                (notifier c) b2) as (_ & _ & _ & He3).
    fold (NotifySingleCandidate b2 (notifier c) (row c) (col c) x) in He3.
    rewrite He3, He2. by rewrite <- app_assoc.
Qed.

Lemma RemoveCandidate_notifications_witness :
  candidates_of (RemoveCandidate NewBoard 0 5) 0
  = Some (candidates (NewCell (Z.quot 0 9) (Z.rem 0 9)) ∖ {[5]}).
Proof.
  assert (board NewBoard !! 0 = Some (NewCell (Z.quot 0 9) (Z.rem 0 9))) as L
    by (apply NewBoard_lookup; lia).
  assert (∀ x, x ∈ candidates (NewCell (Z.quot 0 9) (Z.rem 0 9)) → 1 <= x <= 9) as Hr.
  { intros x Hx. apply (proj2 NewBoard_ok 0 _ L). exact Hx. }
  assert (HasCandidate (NewCell (Z.quot 0 9) (Z.rem 0 9)) 5 = true) as Hd
    by (vm_compute; reflexivity).
  exact (proj1 (proj2 (RemoveCandidate_notifications NewBoard 0 5 _ L Hr) Hd)).
Defined.

(** X14.  [SetValue] with a digit tells every observer of the cell that the
    cell is solved, exactly once each and in the order of registration, and
    that is all that happens: the cell takes the value and loses its
    candidates, the record grows by these deliveries and by nothing else,
    and the rest of the grid stays as it was, since a constraint answers the
    delivery with the [PropagateValueChange] of [BaseConstraint], which
    does nothing, and a listener takes note.  Clearing a cell tells nobody
    anything; a value outside 0..9 leaves the grid as it was. *)
Theorem SetValue_tells_each_observer_once (b : Board) (p v : Z) (c : Cell) :
  board b !! p = Some c →
  (1 <= v <= 9 →
     (SetValue b p v).1
     = mkBoard (<[p := with_candidates (with_value c v) ∅]> (board b))
               (constraints b) (observers b)
               (events b ++ map (λ o, (o, CellSolved (row c) (col c) v)) (notifier c)))
  ∧ (v = 0 → events (SetValue b p v).1 = events b)
  ∧ (bad_value v → (SetValue b p v).1 = b).
Proof.
  intros L. split; [|split].
  - intros Hv. by rewrite (SetValue_digit b p v c L Hv).
  - intros ->. unfold SetValue. rewrite L. done.
  - intros Hv. by rewrite SetValue_bad_value.
Qed.

Lemma SetValue_tells_each_observer_once_witness :
  events (SetValue (Board_AddObserver row0_board (Listener 0)) 0 5).1
  = [(ConstraintObserver row0_attached, CellSolved 0 0 5);
     (Listener 0, CellSolved 0 0 5)]
  ∧ board (SetValue (Board_AddObserver row0_board (Listener 0)) 0 5).1 !! 1
    = board (Board_AddObserver row0_board (Listener 0)) !! 1.
Proof.
  pose (cell := with_notifier (NewCell 0 0)
                  [ConstraintObserver row0_attached; Listener 0]).
  assert (board (Board_AddObserver row0_board (Listener 0)) !! 0 = Some cell) as L
    by (vm_compute; reflexivity).
  assert (1 <= 5 <= 9) as Hv by lia.
  pose proof (proj1 (SetValue_tells_each_observer_once
                       (Board_AddObserver row0_board (Listener 0)) 0 5 cell L) Hv) as H.
  split.
  - rewrite H. vm_compute. reflexivity.
  - rewrite H. cbn [board]. apply lookup_insert_ne. lia.
Defined.

(** ** Duplicates in a uniqueness scope *)

Lemma shrinks_value_at b b' q : shrinks b b' → value_at b' q = value_at b q.
Proof.
  intros (_ & _ & H). unfold value_at. specialize (H q).
  destruct H as [c c' (_ & _ & _ & Hv & _)|]; [exact Hv|done].
Qed.

Lemma lookup_fmap_value_at b b' q (f : Cell → Cell) :
  board b' !! q = f <$> board b !! q →
  (∀ c, value (f c) = value c) → value_at b' q = value_at b q.
Proof.
  intros E Hf. unfold value_at. rewrite E.
  destruct (board b !! q) as [c|]; [apply Hf|done].
Qed.

Lemma AddCandidate_value_at b p d q :
  value_at (AddCandidate b p d) q = value_at b q.
Proof.
  unfold AddCandidate. destruct (board b !! p) as [c|] eqn:L; [|done].
  destruct (_ && _); [|done]. destruct (negb _); [|done].
  unfold value_at. cbn [store board].
  destruct (decide (q = p)) as [->|Hq].
  - by rewrite lookup_insert_eq, L.
  - by rewrite lookup_insert_ne.
Qed.

Lemma run_op_values b op q :
  is_Set op = false → value_at (run_op b op) q = value_at b q.
Proof.
  intros Hop. destruct op as [r c v|k|o|r c d|r c d| |]; cbn [run_op];
    [discriminate Hop| | | | | |].
  - destruct (AddConstraint_fields b k) as (_ & _ & _ & H).
    by apply (lookup_fmap_value_at b _ q _ (H q)).
  - destruct (Board_AddObserver_grows b o) as [_ H]. destruct (H q) as [extra E].
    by apply (lookup_fmap_value_at b _ q _ E).
  - unfold on_cell. destruct (GetCellAt b r c) as [[p ?]|]; [|done].
    apply shrinks_value_at, RemoveCandidate_shrinks.
  - unfold on_cell. destruct (GetCellAt b r c) as [[p ?]|]; [|done].
    apply AddCandidate_value_at.
  - apply shrinks_value_at. apply (ApplyPencilMarkConstraints_step_ok b).
  - apply shrinks_value_at. apply (ApplyAdvancedTechniques_step_ok b).
Qed.

Lemma run_op_constraints b op :
  constraints (run_op b op)
  = match op with
    | OpAddConstraint k => constraints b ++ [SetBoard k]
    | _ => constraints b
    end.
Proof.
  destruct op as [r c v|k|o|r c d|r c d| |]; cbn [run_op].
  - apply Board_Set_constraints.
  - by destruct (AddConstraint_fields b k) as (-> & _).
  - by destruct (Board_AddObserver_grows b o) as [-> _].
  - unfold on_cell. destruct (GetCellAt b r c) as [[p ?]|]; [|done].
    by destruct (RemoveCandidate_shrinks b p d) as (-> & _).
  - unfold on_cell. destruct (GetCellAt b r c) as [[p ?]|]; [|done].
    unfold AddCandidate. destruct (board b !! p); [|done].
    destruct (_ && _); [|done]. by destruct (negb _).
  - by destruct (ApplyPencilMarkConstraints_step_ok b) as [(-> & _) _].
  - by destruct (ApplyAdvancedTechniques_step_ok b) as [(-> & _) _].
Qed.

(** [Board.Set] either changes no value or leaves the value in the cell. *)
Lemma Board_Set_value_at b r c v :
  (∀ q, value_at (Board_Set b r c v).1 q = value_at b q)
  ∨ value_at (Board_Set b r c v).1 (r * 9 + c) = v.
Proof.
  destruct (decide (bad_position r c)) as [Hp|Hp];
    [left; by rewrite Board_Set_bad_position|].
  rewrite Board_Set_good_position by done.
  set (b1 := match board b !! (r * 9 + c) with
             | Some _ => b | None => store b (r * 9 + c) (NewCell r c) end).
  assert (∃ cell, board b1 !! (r * 9 + c) = Some cell) as [cell L].
  { subst b1. destruct (board b !! (r * 9 + c)) as [x|] eqn:E; [by exists x|].
    exists (NewCell r c). cbn [store board]. by rewrite lookup_insert_eq. }
  destruct (decide (bad_value v)) as [Hv|Hv].
  - left. intros q. rewrite SetValue_bad_value by done. cbn [fst].
    subst b1. destruct (board b !! (r * 9 + c)) as [x|] eqn:E; [done|].
    unfold value_at. cbn [store board].
    destruct (decide (q = r * 9 + c)) as [->|Hq].
    + by rewrite lookup_insert_eq, E.
    + by rewrite lookup_insert_ne.
  - right. destruct (SetValue_values b1 (r * 9 + c) v cell L Hv) as (_ & H & _).
    unfold value_at.
    destruct (board (SetValue b1 (r * 9 + c) v).1 !! (r * 9 + c));
      cbn in H; congruence.
Qed.

Lemma Board_Set_value_at_other b r c v q :
  q ≠ r * 9 + c → value_at (Board_Set b r c v).1 q = value_at b q.
Proof. intros Hq. unfold value_at. by rewrite Board_Set_other_cells. Qed.

Lemma no_duplicate_values b cells :
  no_duplicate b cells
  ↔ ∀ i j, i ∈ cells → j ∈ cells → i ≠ j →
           value_at b i ≠ 0 → value_at b j ≠ value_at b i.
Proof.
  unfold no_duplicate, value_at. split.
  - intros H i j Hi Hj Hne Hv.
    destruct (board b !! i) as [ci|] eqn:Li; [|done].
    destruct (board b !! j) as [cj|] eqn:Lj; [|intros E; apply Hv; by rewrite <- E].
    by apply (H i j ci cj).
  - intros H i j ci cj Hi Hj Hne Li Lj Hv.
    specialize (H i j Hi Hj Hne). rewrite Li, Lj in H. by apply H.
Qed.

Lemma stands_elsewhere_false b cells p v j :
  stands_elsewhere b cells p v = false → j ∈ cells → j ≠ p → value_at b j ≠ v.
Proof.
  unfold stands_elsewhere. intros H Hj Hne Hv.
  assert (existsb (λ j, negb (j =? p) && (value_at b j =? v)) cells = true) as E.
  { apply existsb_exists. exists j. split; [by apply list_elem_of_In|].
    apply andb_true_iff. split; [|by apply Z.eqb_eq].
    apply negb_true_iff. by apply Z.eqb_neq. }
  congruence.
Qed.

Lemma scope_clean_no_duplicate b cells :
  scope_clean b cells = true → no_duplicate b cells.
Proof.
  unfold scope_clean. rewrite forallb_forall. intros H.
  apply no_duplicate_values. intros i j Hi Hj Hne Hv.
  specialize (H i (proj1 (list_elem_of_In _ _) Hi)).
  apply orb_true_iff in H as [H|H]; [by apply Z.eqb_eq in H|].
  apply negb_true_iff in H.
  by apply (stands_elsewhere_false b cells i (value_at b i) j).
Qed.

Lemma SetBoard_scope k :
  GetCells (SetBoard k) = GetCells k
  ∧ RequiresUniqueness (SetBoard k) = RequiresUniqueness k.
Proof. by destruct k. Qed.

Lemma careful_op_keeps b op :
  duplicate_free b → careful_op b op = true → duplicate_free (run_op b op).
Proof.
  intros Hd Hc k Hk Hu. rewrite run_op_constraints in Hk.
  apply no_duplicate_values.
  destruct op as [r c v|k0|o|r c d|r c d| |];
    try (intros i j Hi Hj Hne; rewrite !run_op_values by done;
         by apply (proj1 (no_duplicate_values b (GetCells k)) (Hd k Hk Hu))).
  - pose proof (proj1 (no_duplicate_values b (GetCells k)) (Hd k Hk Hu)) as Hold.
    cbn [run_op]. intros i j Hi Hj Hne.
    destruct (Board_Set_value_at b r c v) as [Heq|Hset];
      [rewrite !Heq; by apply Hold|].
    assert (v ≠ 0 → r * 9 + c ∈ GetCells k →
            ∀ q, q ∈ GetCells k → q ≠ r * 9 + c → value_at b q ≠ v) as Hfresh.
    { intros Hv Hin q Hq Hqp. cbn [careful_op] in Hc.
      apply orb_true_iff in Hc as [Hc|Hc]; [by apply Z.eqb_eq in Hc|].
      rewrite forallb_forall in Hc.
      specialize (Hc k (proj1 (list_elem_of_In _ _) Hk)).
      rewrite Hu in Hc. cbn [negb orb] in Hc.
      rewrite bool_decide_eq_true_2 in Hc by done. cbn [negb orb] in Hc.
      apply negb_true_iff in Hc.
      by apply (stands_elsewhere_false b (GetCells k) (r * 9 + c) v q). }
    destruct (decide (i = r * 9 + c)) as [->|Hi'].
    + rewrite Hset, (Board_Set_value_at_other b r c v j) by done.
      intros Hv. by apply Hfresh.
    + rewrite (Board_Set_value_at_other b r c v i) by done.
      destruct (decide (j = r * 9 + c)) as [->|Hj'].
      * rewrite Hset. intros Hv E.
        destruct (decide (v = 0)) as [->|Hv0]; [by rewrite <- E in Hv|].
        by apply (Hfresh Hv0 Hj i Hi Hi').
      * rewrite (Board_Set_value_at_other b r c v j) by done. by apply Hold.
  - cbn [run_op]. intros i j Hi Hj Hne.
    rewrite !(run_op_values b (OpAddConstraint k0)) by done.
    apply elem_of_app in Hk as [Hk|Hk].
    + by apply (proj1 (no_duplicate_values b (GetCells k)) (Hd k Hk Hu)).
    + apply list_elem_of_singleton in Hk as ->.
      destruct (SetBoard_scope k0) as [Ec Eu]. rewrite Ec in Hi, Hj. rewrite Eu in Hu.
      cbn [careful_op] in Hc. rewrite Hu in Hc. cbn [negb orb] in Hc.
      by apply (proj1 (no_duplicate_values b (GetCells k0))
                  (scope_clean_no_duplicate b _ Hc)).
Qed.

Lemma careful_ops_keep ops : ∀ b,
  duplicate_free b → careful_ops b ops = true → duplicate_free (run_ops b ops).
Proof.
  induction ops as [|op ops IH]; intros b Hd Hc; [done|].
  cbn [careful_ops] in Hc. apply andb_true_iff in Hc as [H1 H2].
  cbn [run_ops fold_left]. apply IH; [by apply careful_op_keeps|done].
Qed.

(** C2.  The operations keep no duplicate out of a uniqueness scope on
    their own: [Board.Set] stores any digit of 0..9 whatever stands in the
    scopes of the cell, and [AddConstraint] registers any scope.  What holds
    is this.  Every operation but [Board.Set] leaves the value of every cell
    as it was.  Hence a play that starts from a grid without duplicate, the
    new grid for one, and that clears cells or gives a cell a digit that
    stands in no other cell of the registered uniqueness scopes of the cell,
    and registers a uniqueness constraint only on a scope without
    duplicate, ends on a grid without duplicate in any registered uniqueness
    scope. *)
Theorem careful_play_places_no_duplicate (b : Board) (ops : list Op) :
  duplicate_free b → careful_ops b ops = true →
  duplicate_free (run_ops b ops)
  ∧ ∀ op q, is_Set op = false →
            value_at (run_op (run_ops b ops) op) q = value_at (run_ops b ops) q.
Proof.
  intros Hd Hc. split; [by apply careful_ops_keep|].
  intros op q Hop. by apply run_op_values.
Qed.

(** C2, as the specification words it, fails: with the constraint of row 0
    registered on a fresh grid, [Board.Set] accepts the digit 5 at row 0,
    column 0 and then again at row 0, column 1, and the row, a registered
    uniqueness scope, holds two fives.  It is [ValidateAll] that tells: it
    answers false on that grid. *)
Lemma set_places_a_duplicate :
  play (AddConstraint NewBoard row0) [(0, 0, 5); (0, 1, 5)]
  = Some (run_ops NewBoard duplicate_play)
  ∧ Get (run_ops NewBoard duplicate_play) 0 0 = 5
  ∧ Get (run_ops NewBoard duplicate_play) 0 1 = 5
  ∧ ValidateAll (run_ops NewBoard duplicate_play) = (false, None)
  ∧ ¬ duplicate_free (run_ops NewBoard duplicate_play).
Proof.
  split; [vm_compute; reflexivity|].
  split; [vm_compute; reflexivity|].
  split; [vm_compute; reflexivity|].
  split; [vm_compute; reflexivity|].
  intros H.
  assert (row0_attached ∈ constraints (run_ops NewBoard duplicate_play)) as Hk.
  { assert (constraints (run_ops NewBoard duplicate_play) = [row0_attached]) as ->
      by (vm_compute; reflexivity).
    left. }
  assert (RequiresUniqueness row0_attached = true) as Hu by reflexivity.
  pose proof (proj1 (no_duplicate_values _ _) (H row0_attached Hk Hu)) as Hn.
  assert (0 ∈ GetCells row0_attached) as Hi by left.
  assert (1 ∈ GetCells row0_attached) as Hj by (right; left).
  assert (0 ≠ 1) as Hne by lia.
  assert (value_at (run_ops NewBoard duplicate_play) 0 = 5) as E0
    by (vm_compute; reflexivity).
  assert (value_at (run_ops NewBoard duplicate_play) 1 = 5) as E1
    by (vm_compute; reflexivity).
  specialize (Hn 0 1 Hi Hj Hne). rewrite E0, E1 in Hn.
  apply Hn; [lia|reflexivity].
Qed.

Lemma careful_play_places_no_duplicate_witness :
  duplicate_free (run_ops NewBoard careful_play)
  ∧ Get (run_ops NewBoard careful_play) 0 0 = 5
  ∧ Get (run_ops NewBoard careful_play) 0 1 = 3.
Proof.
  assert (duplicate_free NewBoard) as Hd
    by (intros k Hk; by apply elem_of_nil in Hk).
  assert (careful_ops NewBoard careful_play = true) as Hc
    by (vm_compute; reflexivity).
  split; [exact (proj1 (careful_play_places_no_duplicate NewBoard careful_play Hd Hc))|].
  split; vm_compute; reflexivity.
Defined.

(** ** Validation after a play *)

Lemma validate_from_all b ks :
  (∀ k, k ∈ ks → IsValid k (Some b) = (true, None)) →
  validate_from b ks = (true, None).
Proof.
  induction ks as [|k ks IH]; intros H; [done|]. cbn [validate_from].
  rewrite (H k) by (by left). apply IH. intros k' Hk'. apply H. by right.
Qed.

(** Along a play whose registrations are all of rows, columns and boxes,
    the registered constraints are such constraints, attached. *)
Lemma standard_play_constraints ops : ∀ b,
  (∀ k', k' ∈ constraints b → ∃ k, standard k ∧ k' = SetBoard k) →
  (∀ k, OpAddConstraint k ∈ ops → standard k) →
  ∀ k', k' ∈ constraints (run_ops b ops) → ∃ k, standard k ∧ k' = SetBoard k.
Proof.
  induction ops as [|op ops IH]; intros b Hb Hops; [done|].
  cbn [run_ops fold_left]. apply IH.
  - intros k' Hk'. rewrite run_op_constraints in Hk'.
    destruct op as [r c v|k0|o|r c d|r c d| |]; try by apply Hb.
    apply elem_of_app in Hk' as [Hk'|Hk']; [by apply Hb|].
    apply list_elem_of_singleton in Hk' as ->.
    exists k0. split; [|done]. apply Hops. by left.
  - intros k Hk. apply Hops. by right.
Qed.

Lemma run_ops_ok ops : ∀ b, board_ok b → board_ok (run_ops b ops).
Proof.
  induction ops as [|op ops IH]; intros b Hb; [done|].
  cbn [run_ops fold_left]. by apply IH, run_op_ok.
Qed.

(** X12.  Start from a new grid and play any sequence of operations in
    which every constraint registered comes from the constructor of a row,
    a column or a box and is registered on a scope without duplicate, and
    every set clears a cell or gives it a digit that stands in no other
    cell of the registered scopes of the cell: [ValidateAll] answers true,
    without error, on the grid reached. *)
Theorem careful_play_stays_valid (ops : list Op) :
  (∀ k, OpAddConstraint k ∈ ops → standard k) →
  careful_ops NewBoard ops = true →
  ValidateAll (run_ops NewBoard ops) = (true, None).
Proof.
  intros Hstd Hc.
  assert (duplicate_free NewBoard) as Hd0
    by (intros k Hk; by apply elem_of_nil in Hk).
  pose proof (careful_ops_keep ops NewBoard Hd0 Hc) as Hd.
  pose proof (run_ops_ok ops NewBoard NewBoard_ok) as Hok.
  unfold ValidateAll. apply validate_from_all. intros k' Hk'.
  destruct (standard_play_constraints ops NewBoard) with (k' := k')
    as (k & Hk & ->); [by intros ? ?%elem_of_nil|done|done|].
  destruct (standard_values (run_ops NewBoard ops) k Hk)
    as (Hnd & Hv & Hset & Hu & Hcells).
  rewrite Hset, Hv. f_equal. apply unique_values; [done|done|].
  rewrite <- Hcells. by apply Hd.
Qed.

Lemma careful_play_stays_valid_witness :
  ValidateAll (run_ops NewBoard careful_play) = (true, None).
Proof.
  assert (∀ k, OpAddConstraint k ∈ careful_play → standard k) as Hstd.
  { intros k Hk. unfold careful_play in Hk.
    apply elem_of_cons in Hk as [Hk|Hk].
    - injection Hk as ->. exists 0. left. reflexivity.
    - apply elem_of_cons in Hk as [Hk|Hk]; [discriminate Hk|].
      apply elem_of_cons in Hk as [Hk|Hk]; [discriminate Hk|].
      apply elem_of_cons in Hk as [Hk|Hk]; [discriminate Hk|].
      by apply elem_of_nil in Hk. }
  assert (careful_ops NewBoard careful_play = true) as Hc
    by (vm_compute; reflexivity).
  exact (careful_play_stays_valid careful_play Hstd Hc).
Defined.

(** ** Deduction passes *)

Lemma shrinks_Get b b' r c : shrinks b b' → Get b' r c = Get b r c.
Proof.
  intros (_ & _ & H). unfold Get. destruct (_ || _); [done|].
  specialize (H (r * 9 + c)).
  destruct H as [x y (_ & _ & _ & Hv & _)|]; [by rewrite Hv|done].
Qed.

Lemma step_ok_sound (run : Board → bool * Board) :
  (∀ b, step_ok (false, b) (run b)) → sound_pass run.
Proof.
  intros H b. specialize (H b). destruct (run b) as [ch b'] eqn:E. cbn [fst snd].
  split; [apply H|]. split; [intros r c; apply shrinks_Get, H|]. split.
  - intros ->. by eapply step_ok_unchanged.
  - intros ->. by eapply step_ok_changed.
Qed.

(** X15.  The deduction drivers [ApplyPencilMarkConstraints] and
    [ApplyAdvancedTechniques], and the three techniques of the latter, only
    remove candidates: no value, observer list or constraint changes and no
    candidate is added.  They answer false only when the grid is exactly as
    before, and true only when at least one candidate went. *)
Theorem deduction_passes_are_sound :
  sound_pass ApplyPencilMarkConstraints ∧ sound_pass ApplyAdvancedTechniques
  ∧ sound_pass applyXWings ∧ sound_pass applySwordfish ∧ sound_pass applyXYWings.
Proof.
  split; [apply step_ok_sound, ApplyPencilMarkConstraints_step_ok|].
  split; [apply step_ok_sound, ApplyAdvancedTechniques_step_ok|].
  split; [apply step_ok_sound, applyXWings_step_ok|].
  split; [apply step_ok_sound, applySwordfish_step_ok|].
  apply step_ok_sound, applyXYWings_step_ok.
Qed.

(** ** Candidates by hand *)

(** X16.  On an unsolved cell and for a digit within 1..9, [AddCandidate]
    adds the digit and tells nobody; [RemoveCandidate] right after takes it
    out again, and [AddCandidate] after [RemoveCandidate] restores the
    candidates of a cell that had the digit.  On a solved cell or for a
    digit outside 1..9 [AddCandidate] changes nothing. *)
Theorem AddCandidate_RemoveCandidate (b : Board) (p d : Z) (c : Cell) :
  board b !! p = Some c →
  (value c ≠ 0 ∨ d < 1 ∨ d > 9 → AddCandidate b p d = b)
  ∧ (value c = 0 → 1 <= d <= 9 →
       candidates_of (AddCandidate b p d) p = Some ({[d]} ∪ candidates c)
       ∧ events (AddCandidate b p d) = events b
       ∧ candidates_of (RemoveCandidate (AddCandidate b p d) p d) p
         = Some (candidates c ∖ {[d]})
       ∧ (d ∈ candidates c →
            candidates_of (AddCandidate (RemoveCandidate b p d) p d) p
            = Some (candidates c))).
Proof.
  intros L. split.
  - intros H. unfold AddCandidate. rewrite L.
    destruct (Z.eqb_spec (value c) 0) as [E|E]; [|done].
    destruct H as [H|H]; [done|]. cbn [andb].
    destruct (Z.geb_spec d 1); [|done]. destruct (Z.leb_spec d 9); [|done]. lia.
  - intros Hv Hd.
    assert (∀ b0 c0, board b0 !! p = Some c0 → value c0 = 0 →
              candidates_of (AddCandidate b0 p d) p = Some ({[d]} ∪ candidates c0)
              ∧ events (AddCandidate b0 p d) = events b0
              ∧ ∃ c1, board (AddCandidate b0 p d) !! p = Some c1 ∧ value c1 = 0
                      ∧ candidates c1 = {[d]} ∪ candidates c0) as Hadd.
    { intros b0 c0 L0 Hv0. unfold AddCandidate, candidates_of. rewrite L0, Hv0.
      destruct (Z.geb_spec d 1); [|lia]. destruct (Z.leb_spec d 9); [|lia].
      cbn [Z.eqb andb]. case_bool_decide as Hin; cbn [negb].
      - rewrite L0. cbn [fmap option_fmap option_map].
        assert ({[d]} ∪ candidates c0 = candidates c0) as -> by set_solver.
        split; [done|]. split; [done|]. by exists c0.
      - cbn [store board events]. rewrite lookup_insert_eq.
        split; [done|]. split; [done|]. by eexists. }
    assert (∀ b0 c0, board b0 !! p = Some c0 → value c0 = 0 →
              ∃ c1, board (RemoveCandidate b0 p d) !! p = Some c1 ∧ value c1 = 0
                    ∧ candidates c1 = candidates c0 ∖ {[d]}) as Hrem.
    { intros b0 c0 L0 Hv0.
      destruct (RemoveCandidate_fields b0 p d) as (_ & _ & Hb). rewrite Hb, L0, Hv0.
      cbn [Z.eqb andb]. case_bool_decide as Hin.
      - rewrite lookup_insert_eq. by eexists.
      - exists c0. split; [done|]. split; [done|]. set_solver. }
    destruct (Hadd b c L Hv) as (H1 & H2 & c1 & L1 & Hv1 & Hc1).
    split; [exact H1|]. split; [exact H2|]. split.
    + destruct (Hrem _ c1 L1 Hv1) as (c2 & L2 & _ & Hc2).
      unfold candidates_of. rewrite L2. cbn. f_equal. rewrite Hc2, Hc1. set_solver.
    + intros Hin. destruct (Hrem b c L Hv) as (c2 & L2 & Hv2 & Hc2).
      destruct (Hadd _ c2 L2 Hv2) as (H3 & _). rewrite H3. f_equal.
      rewrite Hc2. apply set_eq. intros x. rewrite elem_of_union, elem_of_difference,
        elem_of_singleton. destruct (decide (x = d)) as [->|]; naive_solver.
Qed.

Lemma AddCandidate_RemoveCandidate_witness :
  candidates_of (AddCandidate (RemoveCandidate NewBoard 0 5) 0 5) 0
  = Some (candidates (NewCell (Z.quot 0 9) (Z.rem 0 9))).
Proof.
  assert (board NewBoard !! 0 = Some (NewCell (Z.quot 0 9) (Z.rem 0 9))) as L
    by (apply NewBoard_lookup; lia).
  assert (value (NewCell (Z.quot 0 9) (Z.rem 0 9)) = 0) as Hv by reflexivity.
  assert (1 <= 5 <= 9) as Hd by lia.
  assert (5 ∈ candidates (NewCell (Z.quot 0 9) (Z.rem 0 9))) as Hin
    by (vm_compute; reflexivity).
  exact (proj2 (proj2 (proj2 (proj2 (AddCandidate_RemoveCandidate NewBoard 0 5 _ L)
                                      Hv Hd))) Hin).
Defined.

(** ** Observers of the whole grid *)

Lemma remove_first_fresh o l : o ∉ l → remove_first o (l ++ [o]) = l.
Proof.
  induction l as [|x l IH]; intros Hnot; cbn [app remove_first].
  - by rewrite decide_True.
  - apply not_elem_of_cons in Hnot as [Hne Hnot].
    rewrite decide_False by done. by rewrite IH.
Qed.

Lemma remove_first_absent o l : o ∉ l → remove_first o l = l.
Proof.
  induction l as [|x l IH]; intros Hnot; cbn [remove_first]; [done|].
  apply not_elem_of_cons in Hnot as [Hne Hnot].
  rewrite decide_False by done. by rewrite IH.
Qed.

Lemma notifier_fold (f : list Observer → list Observer) (l : list Z) :
  NoDup l → ∀ b,
  let b' := fold_left
              (λ b' i, match board b' !! i with
                       | None => b'
                       | Some c => store b' i (with_notifier c (f (notifier c)))
                       end) l b in
  constraints b' = constraints b ∧ observers b' = observers b ∧ events b' = events b
  ∧ ∀ q, board b' !! q
         = (λ c, if decide (q ∈ l) then with_notifier c (f (notifier c)) else c)
           <$> board b !! q.
Proof.
  induction 1 as [|i l Hnot Hnd IH]; intros b; cbv zeta.
  - repeat split; try done. intros q. cbn [fold_left].
    destruct (board b !! q) as [c|]; [|done]. cbn [fmap option_fmap option_map].
    rewrite decide_False; [done|apply not_elem_of_nil].
  - cbn [fold_left].
    set (b1 := match board b !! i with
               | None => b
               | Some c => store b i (with_notifier c (f (notifier c)))
               end).
    destruct (IH b1) as (Hc & Ho & He & Hb). rewrite Hc, Ho, He.
    assert (constraints b1 = constraints b ∧ observers b1 = observers b
            ∧ events b1 = events b) as (-> & -> & ->)
      by (subst b1; by destruct (board b !! i)).
    repeat split; try done. intros q. rewrite Hb.
    destruct (decide (q = i)) as [->|Hne].
    + destruct (decide (i ∈ l)) as [|_]; [done|].
      destruct (decide (i ∈ i :: l)) as [_|Hn]; [|exfalso; apply Hn; by left].
      subst b1. destruct (board b !! i) as [c|] eqn:L.
      * cbn [store board]. by rewrite lookup_insert_eq.
      * by rewrite L.
    + assert (board b1 !! q = board b !! q) as ->.
      { subst b1. destruct (board b !! i); [|done]. cbn [store board].
        by rewrite lookup_insert_ne. }
      destruct (board b !! q) as [c|]; [|done]. cbn [fmap option_fmap option_map]. f_equal.
      destruct (decide (q ∈ l)) as [Hin|Hnin].
      * rewrite decide_True; [done|by right].
      * rewrite decide_False; [done|]. by intros [?|?]%elem_of_cons.
Qed.

Lemma Board_eq b b' :
  board b = board b' → constraints b = constraints b' →
  observers b = observers b' → events b = events b' → b = b'.
Proof. destruct b, b'. cbn. by intros -> -> -> ->. Qed.

Lemma Board_AddObserver_fields b o :
  constraints (Board_AddObserver b o) = constraints b
  ∧ observers (Board_AddObserver b o) = observers b ++ [o]
  ∧ events (Board_AddObserver b o) = events b
  ∧ ∀ q, board (Board_AddObserver b o) !! q
         = (λ c, if decide (q ∈ seqZ 0 81)
                 then with_notifier c (notifier c ++ [o]) else c)
           <$> board b !! q.
Proof.
  destruct (notifier_fold (λ l, l ++ [o]) (seqZ 0 81) (NoDup_seqZ 0 81)
              (mkBoard (board b) (constraints b) (observers b ++ [o]) (events b)))
    as (Hc & Ho & He & Hb).
  cbv beta in Hc, Ho, He, Hb.
  unfold Board_AddObserver, Cell_AddObserver. cbv zeta.
  rewrite Hc, Ho, He. split; [done|]. split; [done|]. split; [done|].
  intros q. by rewrite Hb.
Qed.

Lemma Board_RemoveObserver_fields b o :
  constraints (Board_RemoveObserver b o) = constraints b
  ∧ observers (Board_RemoveObserver b o) = remove_first o (observers b)
  ∧ events (Board_RemoveObserver b o) = events b
  ∧ ∀ q, board (Board_RemoveObserver b o) !! q
         = (λ c, if decide (q ∈ seqZ 0 81)
                 then with_notifier c (remove_first o (notifier c)) else c)
           <$> board b !! q.
Proof.
  destruct (notifier_fold (remove_first o) (seqZ 0 81) (NoDup_seqZ 0 81)
              (mkBoard (board b) (constraints b) (remove_first o (observers b))
                       (events b)))
    as (Hc & Ho & He & Hb).
  unfold Board_RemoveObserver, Cell_RemoveObserver. cbv zeta.
  rewrite Hc, Ho, He. split; [done|]. split; [done|]. split; [done|].
  intros q. by rewrite Hb.
Qed.

(** X17.  On a grid as the operations leave it, [Board.AddObserver] appends
    the observer to the observers of the grid and to those of every cell,
    and changes nothing else; [Board.RemoveObserver] right after, for an
    observer that was registered nowhere before, gives back the grid as it
    was. *)
Theorem Board_AddObserver_RemoveObserver (b : Board) (o : Observer) :
  board_ok b →
  let b1 := Board_AddObserver b o in
  observers b1 = observers b ++ [o]
  ∧ constraints b1 = constraints b ∧ events b1 = events b
  ∧ (∀ q, board b1 !! q
          = (λ c, with_notifier c (notifier c ++ [o])) <$> board b !! q)
  ∧ (unregistered b o → Board_RemoveObserver b1 o = b).
Proof.
  intros Hok. cbv zeta.
  assert (∀ q c, board b !! q = Some c → q ∈ seqZ 0 81) as Hkeys.
  { intros q c L. apply elem_of_seqZ.
    pose proof (cell_ok_in_range _ _ (proj2 Hok _ _ L)). lia. }
  destruct (Board_AddObserver_fields b o) as (Hc & Ho & He & Hb).
  assert (∀ q, board (Board_AddObserver b o) !! q
               = (λ c, with_notifier c (notifier c ++ [o])) <$> board b !! q) as Hb1.
  { intros q. rewrite Hb.
    destruct (board b !! q) as [c|] eqn:L; [|done]. cbn [fmap option_fmap option_map].
    destruct (decide (q ∈ seqZ 0 81)) as [_|Hn]; [done|].
    exfalso. apply Hn. by eapply Hkeys. }
  split; [exact Ho|]. split; [exact Hc|]. split; [exact He|]. split; [exact Hb1|].
  intros [Hfresh Hcells].
  destruct (Board_RemoveObserver_fields (Board_AddObserver b o) o)
    as (Hc' & Ho' & He' & Hb').
  apply Board_eq.
  - apply map_eq. intros q. rewrite Hb', Hb1.
    destruct (board b !! q) as [c|] eqn:L; [|done]. cbn [fmap option_fmap option_map].
    destruct (decide (q ∈ seqZ 0 81)) as [_|Hn];
      [|exfalso; apply Hn; by eapply Hkeys].
    f_equal. destruct c as [r0 c0 i0 v0 cs0 n0].
    unfold with_notifier. cbn [row col index value candidates notifier]. f_equal.
    apply remove_first_fresh. exact (Hcells q _ L).
  - by rewrite Hc', Hc.
  - rewrite Ho', Ho. by apply remove_first_fresh.
  - by rewrite He', He.
Qed.

Lemma Board_AddObserver_RemoveObserver_witness :
  Board_RemoveObserver (Board_AddObserver NewBoard (Listener 0)) (Listener 0) = NewBoard.
Proof.
  assert (unregistered NewBoard (Listener 0)) as Hfresh.
  { split; [apply not_elem_of_nil|]. intros q c L.
    pose proof (cell_ok_in_range _ _ (proj2 NewBoard_ok _ _ L)) as Hq.
    rewrite NewBoard_lookup in L by done. apply (inj Some) in L. subst c.
    apply not_elem_of_nil. }
  exact (proj2 (proj2 (proj2 (proj2
           (Board_AddObserver_RemoveObserver NewBoard (Listener 0) NewBoard_ok))))
           Hfresh).
Defined.

(** ** The cells a cell sees *)

(** X18.  [getVisibleCells] of the cell in slot [p] holds exactly the
    other cells of the grid that some registered constraint has in its scope
    together with that cell; a cell does not see itself, and on a grid as
    the operations leave it seeing is mutual. *)
Theorem getVisibleCells_spec (b : Board) (p q : Z) :
  (q ∈ getVisibleCells b p ↔
     ∃ cell k, board b !! p = Some cell ∧ k ∈ constraints b
               ∧ index cell ∈ GetCells k ∧ q ∈ GetCells k
               ∧ 0 <= q <= 80 ∧ is_Some (board b !! q) ∧ q ≠ p)
  ∧ (p ∉ getVisibleCells b p)
  ∧ (board_ok b → q ∈ getVisibleCells b p → p ∈ getVisibleCells b q).
Proof.
  assert (∀ p q, q ∈ getVisibleCells b p ↔
     ∃ cell k, board b !! p = Some cell ∧ k ∈ constraints b
               ∧ index cell ∈ GetCells k ∧ q ∈ GetCells k
               ∧ 0 <= q <= 80 ∧ is_Some (board b !! q) ∧ q ≠ p) as Hspec.
  { clear p q. intros p q. unfold getVisibleCells.
    destruct (board b !! p) as [cell|] eqn:L.
    2:{ split; [by intros ?%not_elem_of_empty|]. by intros (? & ? & ? & _). }
    rewrite elem_of_union_list. split.
    - intros (X & HX & Hq). apply list_elem_of_fmap in HX as (k & -> & Hk).
      destruct (existsb _ _) eqn:Ein; [|by apply not_elem_of_empty in Hq].
      apply existsb_exists in Ein as (i & Hi & Ei%Z.eqb_eq).
      apply elem_of_list_to_set, list_elem_of_omap in Hq as (idx & Hidx & Hq).
      destruct (GetCell b idx) as [[q' c']|] eqn:G; [|done].
      apply GetCell_Some in G as (Hr & -> & L').
      destruct (Z.eqb_spec idx p) as [|Hne]; [done|]. cbn [negb] in Hq.
      apply (inj Some) in Hq. subst idx.
      exists cell, k. split; [done|]. split; [done|].
      split; [rewrite Ei; by apply list_elem_of_In|]. split; [done|].
      split; [done|]. split; [by eexists|done].
    - intros (cell' & k & [= <-] & Hk & Hi & Hq & Hr & [c' L'] & Hne).
      exists (if existsb (Z.eqb (index cell)) (GetCells k) then
                list_to_set
                  (omap (λ idx, match GetCell b idx with
                                | Some (q0, _) => if negb (q0 =? p) then Some q0 else None
                                | None => None
                                end) (GetCells k))
              else (∅ : gset Z)).
      split; [apply list_elem_of_fmap; by exists k|].
      assert (existsb (Z.eqb (index cell)) (GetCells k) = true) as ->.
      { apply existsb_exists. exists (index cell).
        split; [by apply list_elem_of_In|apply Z.eqb_refl]. }
      apply elem_of_list_to_set, list_elem_of_omap. exists q. split; [done|].
      assert (GetCell b q = Some (q, c')) as -> by (by apply GetCell_Some).
      destruct (Z.eqb_spec q p) as [|_]; done. }
  split; [apply Hspec|]. split.
  - intros (? & ? & _ & _ & _ & _ & _ & _ & Hne)%Hspec. done.
  - intros Hok (cell & k & L & Hk & Hi & Hq & Hr & [c' L'] & Hne)%Hspec.
    apply Hspec. exists c', k.
    destruct (proj2 Hok _ _ L) as (_ & _ & _ & Hidx & _).
    destruct (proj2 Hok _ _ L') as (_ & _ & _ & Hidx' & _).
    pose proof (cell_ok_in_range _ _ (proj2 Hok _ _ L)) as Hp.
    rewrite Hidx in Hi. rewrite Hidx'.
    split; [done|]. split; [done|]. split; [done|]. split; [done|].
    split; [done|]. split; [by eexists|done].
Qed.

Lemma getVisibleCells_spec_witness :
  0 ∈ getVisibleCells (fold_left AddConstraint row0_constraints NewBoard) 1.
Proof.
  assert (board_ok (fold_left AddConstraint row0_constraints NewBoard)) as Hok
    by (apply AddConstraint_ok, NewBoard_ok).
  assert (1 ∈ getVisibleCells (fold_left AddConstraint row0_constraints NewBoard) 0)
    as Hsees by (vm_compute; reflexivity).
  exact (proj2 (proj2 (getVisibleCells_spec
                         (fold_left AddConstraint row0_constraints NewBoard) 0 1))
           Hok Hsees).
Defined.

(** ** Locality *)

Lemma untouched_refl S b : untouched S b b.
Proof. by intros q _. Qed.

Lemma untouched_trans S b1 b2 b3 :
  untouched S b1 b2 → untouched S b2 b3 → untouched S b1 b3.
Proof. intros H1 H2 q Hq. by rewrite H2, H1. Qed.

Lemma untouched_weaken (S S' : Z → Prop) b b' :
  (∀ q, S q → S' q) → untouched S b b' → untouched S' b b'.
Proof. intros HS H q Hq. apply H. intros ?. apply Hq. by apply HS. Qed.

Lemma fold_left_untouched {A} S (f : Board → A → Board) (l : list A) :
  (∀ b x, x ∈ l → untouched S b (f b x)) → ∀ b, untouched S b (fold_left f l b).
Proof.
  induction l as [|x l IH]; intros Hf b; cbn [fold_left]; [apply untouched_refl|].
  eapply untouched_trans; [apply Hf; by left|].
  apply IH. intros b' y Hy. apply Hf. by right.
Qed.

Lemma fold_left_untouched_st {A} S (f : bool * Board → A → bool * Board) (l : list A) :
  (∀ st x, x ∈ l → untouched S st.2 (f st x).2) →
  ∀ st, untouched S st.2 (fold_left f l st).2.
Proof.
  induction l as [|x l IH]; intros Hf st; cbn [fold_left]; [apply untouched_refl|].
  eapply untouched_trans; [apply Hf; by left|].
  apply IH. intros st' y Hy. apply Hf. by right.
Qed.

Lemma RemoveCandidate_untouched b p d :
  untouched (λ q, q = p) b (RemoveCandidate b p d).
Proof.
  intros q Hq. destruct (RemoveCandidate_fields b p d) as (_ & _ & ->).
  destruct (board b !! p) as [c|]; [|done].
  destruct (_ && _); [|done]. by rewrite lookup_insert_ne.
Qed.

Lemma strike_quot_rem_untouched b idx d :
  untouched (λ q, q = idx) b
    (strike b (GetCellAt b (Z.quot idx 9) (Z.rem idx 9)) d).
Proof.
  unfold strike. destruct (GetCellAt _ _ _) as [[p oc]|] eqn:G; [|apply untouched_refl].
  apply GetCellAt_quot_rem in G as (_ & -> & _).
  destruct (negb _); [apply RemoveCandidate_untouched|apply untouched_refl].
Qed.

Lemma propagate_by_position_untouched b cells r c v :
  untouched (λ q, q ∈ cells) b (propagate_by_position b cells r c v).
Proof.
  unfold propagate_by_position. apply fold_left_untouched. intros b' idx Hidx.
  cbv zeta. destruct (_ || _); [|apply untouched_refl].
  eapply untouched_weaken; [|apply strike_quot_rem_untouched]. by intros q ->.
Qed.

Lemma propagate_by_index_untouched b cells r c v :
  untouched (λ q, q ∈ cells) b (propagate_by_index b cells r c v).
Proof.
  unfold propagate_by_index. cbv zeta. apply fold_left_untouched. intros b' idx Hidx.
  destruct (negb _); [|apply untouched_refl].
  eapply untouched_weaken; [|apply strike_quot_rem_untouched]. by intros q ->.
Qed.

Lemma prune_empty_cells_untouched b cells prune :
  untouched (λ q, q ∈ cells) b (prune_empty_cells b cells prune).
Proof.
  unfold prune_empty_cells. apply fold_left_untouched. intros b' idx Hidx.
  destruct (GetCellAt _ _ _) as [[p oc]|] eqn:G; [|apply untouched_refl].
  apply GetCellAt_quot_rem in G as (_ & -> & _).
  destruct (value oc =? 0); [|apply untouched_refl].
  apply fold_left_untouched. intros b'' d _.
  destruct (prune d); [|apply untouched_refl].
  eapply untouched_weaken; [|apply RemoveCandidate_untouched]. by intros q ->.
Qed.

Lemma whisper_neighbour_untouched b idx v :
  untouched (λ q, q = idx) b
    (whisper_neighbour b (GetCellAt b (Z.quot idx 9) (Z.rem idx 9)) v).
Proof.
  unfold whisper_neighbour.
  destruct (GetCellAt _ _ _) as [[p nc]|] eqn:G; [|apply untouched_refl].
  apply GetCellAt_quot_rem in G as (_ & -> & _).
  destruct (negb _); [|apply untouched_refl].
  apply fold_left_untouched. intros b' d _.
  destruct (_ <? 5); [apply RemoveCandidate_untouched|apply untouched_refl].
Qed.

Lemma PropagateValueChange_untouched k b r c v :
  untouched (λ q, q ∈ GetCells k) b (PropagateValueChange k b r c v).
Proof.
  unfold PropagateValueChange.
  destruct (v =? 0); [apply untouched_refl|].
  destruct (negb _); [apply untouched_refl|].
  destruct k; unfold GetCells; cbn [GetBase];
    try apply propagate_by_position_untouched.
  - unfold KillerCage_PropagateValueChange. cbv zeta.
    eapply untouched_trans;
      [apply propagate_by_index_untouched|apply prune_empty_cells_untouched].
  - unfold Renban_PropagateValueChange. cbv zeta.
    eapply untouched_trans;
      [apply propagate_by_index_untouched|apply prune_empty_cells_untouched].
  - unfold GermanWhispers_PropagateValueChange. cbv zeta.
    destruct (list_find _ _) as [[pos ?]|]; [|apply untouched_refl].
    eapply untouched_trans.
    2:{ destruct (Cells base !! S pos) as [nextIdx|] eqn:L; [|apply untouched_refl].
        eapply untouched_weaken; [|apply whisper_neighbour_untouched].
        intros q ->. by eapply list_elem_of_lookup_2. }
    destruct pos as [|pos']; [apply untouched_refl|].
    destruct (Cells base !! pos') as [prevIdx|] eqn:L; [|apply untouched_refl].
    eapply untouched_weaken; [|apply whisper_neighbour_untouched].
    intros q ->. by eapply list_elem_of_lookup_2.
Qed.

(** X3.  [Board.Set] leaves every other cell of the grid as it was,
    whatever constraints observe the cell that is set: the
    [PropagateValueChange] of a variant is never reached from it.  Called
    directly for a cell of the grid and a digit, [PropagateValueChange] of
    a uniqueness constraint attached to the grid removes the digit from the
    candidates of every other cell of its scope, and touches no cell
    outside its scope. *)
Theorem PropagateValueChange_strikes_siblings (k : Constraint) (r c v idx : Z) :
  ¬ bad_position r c → v ≠ 0 →
  HasBoard (GetBase k) = true → RequiresUniqueness k = true →
  idx ∈ GetCells k → 0 <= idx <= 80 → idx ≠ r * 9 + c →
  (∀ b, board (Board_Set b r c v).1 !! idx = board b !! idx)
  ∧ (∀ b cell', board (PropagateValueChange k b r c v) !! idx = Some cell' →
                HasCandidate cell' v = false)
  ∧ (∀ b q, q ∉ GetCells k →
            board (PropagateValueChange k b r c v) !! q = board b !! q).
Proof.
  intros Hpos Hv Hb Hu Hin Hi Hne. split; [|split].
  - intros b. by apply Board_Set_other_cells.
  - intros b cell' L. unfold bad_position in Hpos.
    apply (PropagateValueChange_closes k b r c v idx cell'); try done; lia.
  - intros b q Hq. by apply (PropagateValueChange_untouched k b r c v q).
Qed.

Lemma PropagateValueChange_strikes_siblings_witness :
  board (Board_Set row0_board 0 0 5).1 !! 1 = board row0_board !! 1
  ∧ ∃ cell',
      board (PropagateValueChange row0_attached (Board_Set row0_board 0 0 5).1 0 0 5) !! 1
      = Some cell'
      ∧ HasCandidate cell' 5 = false.
Proof.
  assert (¬ bad_position 0 0) as Hpos by (unfold bad_position; lia).
  assert (5 ≠ 0) as Hv by lia.
  assert (HasBoard (GetBase row0_attached) = true) as Hb by reflexivity.
  assert (RequiresUniqueness row0_attached = true) as Hu by reflexivity.
  assert (1 ∈ GetCells row0_attached) as Hin by (right; left).
  assert (0 <= 1 <= 80) as Hi by lia.
  assert (1 ≠ 0 * 9 + 0) as Hne by lia.
  destruct (PropagateValueChange_strikes_siblings row0_attached 0 0 5 1
              Hpos Hv Hb Hu Hin Hi Hne) as (Hset & Hcall & _).
  split; [exact (Hset row0_board)|].
  pose (cell' := default (NewCell 0 1)
    (board (PropagateValueChange row0_attached (Board_Set row0_board 0 0 5).1 0 0 5) !! 1)).
  assert (board (PropagateValueChange row0_attached (Board_Set row0_board 0 0 5).1 0 0 5) !! 1
          = Some cell') as L by (vm_compute; reflexivity).
  exists cell'. split; [exact L|].
  exact (Hcall (Board_Set row0_board 0 0 5).1 cell' L).
Defined.

Lemma NotifyCellSolved_untouched obs r c v : ∀ b,
  untouched (λ q, ∃ k, ConstraintObserver k ∈ obs ∧ q ∈ GetCells k) b
    (NotifyCellSolved b obs r c v).
Proof.
  unfold NotifyCellSolved. intros b. apply fold_left_untouched. intros b' o Ho.
  unfold OnCellSolved, BaseConstraint_PropagateValueChange. cbv zeta.
  destruct o as [k|id]; by intros q _.
Qed.

(** X19.  A set only reaches the cell that is set and the cells in the
    scopes of the constraints observing it: every other cell of the grid is
    exactly as before, whatever the position and the value given. *)
Theorem Board_Set_is_local (b : Board) (r c v q : Z) :
  ¬ reach b (r * 9 + c) q →
  board (Board_Set b r c v).1 !! q = board b !! q.
Proof.
  intros Hq. unfold Board_Set. destruct (_ || _); [done|]. cbv zeta.
  assert (q ≠ r * 9 + c) as Hne by (intros ->; apply Hq; by left).
  set (p := r * 9 + c) in *.
  set (b1 := match board b !! p with Some _ => b | None => store b p (NewCell r c) end).
  assert (board b1 !! q = board b !! q) as <-.
  { subst b1. destruct (board b !! p); [done|]. cbn [store board].
    by rewrite lookup_insert_ne. }
  assert (∀ cell k, board b1 !! p = Some cell →
            ConstraintObserver k ∈ notifier cell → q ∉ GetCells k) as Hobs.
  { intros cell k L Hk Hin. subst b1. destruct (board b !! p) as [c0|] eqn:L0.
    - apply Hq. right. exists cell, k. split; [congruence|done].
    - cbn [store board] in L. rewrite lookup_insert_eq in L.
      apply (inj Some) in L. subst cell. by apply elem_of_nil in Hk. }
  unfold SetValue. destruct (_ || _); [done|].
  destruct (board b1 !! p) as [cell|] eqn:L; [|done].
  destruct (negb (v =? 0)); cbn [fst].
  - rewrite (NotifyCellSolved_untouched _ _ _ _ _ q).
    + cbn [store board]. by rewrite lookup_insert_ne.
    + intros (k & Hk & Hin). by apply (Hobs cell k).
  - cbn [store board]. by rewrite lookup_insert_ne.
Qed.

Lemma Board_Set_is_local_witness :
  board (Board_Set row0_board 0 0 5).1 !! 9 = board row0_board !! 9.
Proof.
  assert (¬ reach row0_board (0 * 9 + 0) 9) as Hq.
  { intros [H|(cell & k & L & Hk & Hin)]; [discriminate H|].
    assert (board row0_board !! (0 * 9 + 0)
            = Some (with_notifier (NewCell 0 0) [ConstraintObserver row0_attached]))
      as L0 by (vm_compute; reflexivity).
    rewrite L0 in L. apply (inj Some) in L. subst cell.
    apply list_elem_of_singleton in Hk. injection Hk as ->.
    assert (bool_decide (9 ∈ GetCells row0_attached) = false) as Hd
      by (vm_compute; reflexivity).
    apply bool_decide_eq_false in Hd. exact (Hd Hin). }
  exact (Board_Set_is_local row0_board 0 0 5 9 Hq).
Defined.

Lemma eliminate_untouched st p d :
  untouched (λ q, q = p) st.2 (eliminate st p d).2.
Proof.
  unfold eliminate. destruct (board st.2 !! p) as [c|]; [|apply untouched_refl].
  destruct (HasCandidate c d); [apply RemoveCandidate_untouched|apply untouched_refl].
Qed.

Lemma unsolved_cells_in_scope b cells p :
  p ∈ unsolved_cells b cells → p ∈ cells.
Proof.
  unfold unsolved_cells. intros (idx & Hidx & H)%list_elem_of_omap.
  destruct (GetCell b idx) as [[p' c']|] eqn:G; [|done].
  apply GetCell_Some in G as (_ & -> & _).
  destruct (negb _); [|done]. by apply (inj Some) in H as <-.
Qed.

Lemma ApplyNakedSubsets_untouched b cells maxSize :
  untouched (λ q, q ∈ cells) b (ApplyNakedSubsets b cells maxSize).2.
Proof.
  unfold ApplyNakedSubsets. case_bool_decide; [apply untouched_refl|]. cbv zeta.
  destruct (_ <? 2); [apply untouched_refl|].
  apply (fold_left_untouched_st _ _ _) with (st := (false, b)). intros st subsetSize _.
  apply fold_left_untouched_st. intros st' combo _.
  unfold naked_combo. cbv zeta. destruct (_ =? subsetSize); [|apply untouched_refl].
  apply fold_left_untouched_st. intros st'' cell Hcell.
  destruct (negb _); [|apply untouched_refl].
  apply fold_left_untouched_st. intros st3 d _.
  eapply untouched_weaken; [|apply eliminate_untouched].
  intros q ->. by eapply unsolved_cells_in_scope.
Qed.

Lemma ApplyHiddenSubsets_untouched b cells maxSize :
  untouched (λ q, q ∈ cells) b (ApplyHiddenSubsets b cells maxSize).2.
Proof.
  unfold ApplyHiddenSubsets. case_bool_decide; [apply untouched_refl|]. cbv zeta.
  destruct (_ <? 2); [apply untouched_refl|].
  set (locs := list_to_map _).
  assert (∀ d cell, cell ∈ default [] (locs !! d) → cell ∈ cells) as Hlocs.
  { intros d cell Hin. destruct (locs !! d) as [l|] eqn:L; [|by apply elem_of_nil in Hin].
    subst locs. apply elem_of_list_to_map_2 in L.
    apply list_elem_of_fmap in L as (d' & [= -> ->] & _). cbn in Hin.
    apply list_elem_of_filter in Hin as [_ Hin]. by eapply unsolved_cells_in_scope. }
  destruct (_ <? 2); [apply untouched_refl|].
  apply (fold_left_untouched_st _ _ _) with (st := (false, b)). intros st subsetSize _.
  apply fold_left_untouched_st. intros st' combo _.
  unfold hidden_combo. cbv zeta. destruct (_ =? subsetSize); [|apply untouched_refl].
  apply fold_left_untouched_st. intros st'' cell Hcell.
  apply fold_left_untouched_st. intros st3 d _.
  destruct (negb _); [|apply untouched_refl].
  eapply untouched_weaken; [|apply eliminate_untouched].
  intros q ->. apply elem_of_elements, elem_of_union_list in Hcell as (X & HX & Hin).
  apply list_elem_of_fmap in HX as (d' & -> & _).
  apply elem_of_list_to_set in Hin. by eapply Hlocs.
Qed.

(** X20.  The subset engine never touches a cell outside the scope it is
    given, and [ApplyPencilMarkConstraints] never touches a cell that lies
    in the scope of no registered uniqueness constraint. *)
Theorem subset_elimination_is_local (b : Board) (q : Z) :
  (∀ cells maxSize, q ∉ cells →
     board (ApplyNakedSubsets b cells maxSize).2 !! q = board b !! q
     ∧ board (ApplyHiddenSubsets b cells maxSize).2 !! q = board b !! q
     ∧ board (subset_pass b cells maxSize).2 !! q = board b !! q)
  ∧ ((∀ k, k ∈ constraints b → RequiresUniqueness k = true → q ∉ GetCells k) →
     board (ApplyPencilMarkConstraints b).2 !! q = board b !! q).
Proof.
  assert (∀ b0 cells maxSize,
            untouched (λ q, q ∈ cells) b0 (subset_pass b0 cells maxSize).2) as Hpass.
  { intros b0 cells maxSize. unfold subset_pass.
    pose proof (ApplyNakedSubsets_untouched b0 cells maxSize) as H1.
    destruct (ApplyNakedSubsets b0 cells maxSize) as [ch1 b1].
    pose proof (ApplyHiddenSubsets_untouched b1 cells maxSize) as H2.
    destruct (ApplyHiddenSubsets b1 cells maxSize) as [ch2 b2].
    by eapply untouched_trans. }
  split.
  - intros cells maxSize Hq. split; [by apply ApplyNakedSubsets_untouched|].
    split; [by apply ApplyHiddenSubsets_untouched|by apply Hpass].
  - intros Hq. unfold ApplyPencilMarkConstraints.
    apply (fold_left_untouched_st
             (λ q, ∃ k, k ∈ constraints b ∧ RequiresUniqueness k = true ∧ q ∈ GetCells k)
             _ (constraints b)) with (st := (false, b)).
    2:{ intros (k & Hk & Hu & Hin). by apply (Hq k). }
    intros st k Hk. destruct (RequiresUniqueness k) eqn:Hu; [|apply untouched_refl].
    assert (untouched (λ q, q ∈ GetCells k) st.2
              (Constraint_ApplyPencilMarkConstraints k st.2).2) as H.
    { destruct k; unfold GetCells; cbn [GetBase Constraint_ApplyPencilMarkConstraints];
        try apply Hpass. apply untouched_refl. }
    destruct (Constraint_ApplyPencilMarkConstraints k st.2) as [ch b'].
    eapply untouched_weaken; [|exact H]. intros q' Hin. by exists k.
Qed.

Lemma subset_elimination_is_local_witness :
  board (ApplyPencilMarkConstraints row0_board).2 !! 9 = board row0_board !! 9.
Proof.
  assert (∀ k, k ∈ constraints row0_board → RequiresUniqueness k = true →
               9 ∉ GetCells k) as Hq.
  { intros k Hk _ Hin.
    assert (constraints row0_board = [row0_attached]) as E
      by (vm_compute; reflexivity).
    rewrite E in Hk. apply list_elem_of_singleton in Hk. subst k.
    assert (bool_decide (9 ∈ GetCells row0_attached) = false) as Hd
      by (vm_compute; reflexivity).
    apply bool_decide_eq_false in Hd. exact (Hd Hin). }
  exact (proj2 (subset_elimination_is_local row0_board 9) Hq).
Defined.

(** ** Propagation of the killer cage, the renban line and the whispers line *)

Lemma fold_remove_closes (P : Z → bool) p ds : ∀ b d c',
  d ∈ ds → P d = true →
  board (fold_left (λ b' x, if P x then RemoveCandidate b' p x else b') ds b) !! p
    = Some c' →
  HasCandidate c' d = false.
Proof.
  induction ds as [|x ds IH]; intros b d c' Hin Hd L; [by apply elem_of_nil in Hin|].
  cbn [fold_left] in L.
  apply elem_of_cons in Hin as [->|Hin]; [|by eapply IH].
  rewrite Hd in L.
  assert (shrinks (RemoveCandidate b p x)
            (fold_left (λ b' x, if P x then RemoveCandidate b' p x else b') ds
               (RemoveCandidate b p x))) as Hs.
  { apply fold_left_shrinks. intros b' y.
    destruct (P y); [apply RemoveCandidate_shrinks|reflexivity]. }
  destruct (shrinks_lookup_inv _ _ _ _ Hs L) as (c1 & L1 & Hc1).
  eapply cell_shrinks_HasCandidate; [exact Hc1|]. by eapply RemoveCandidate_gone.
Qed.

Lemma prune_empty_cells_closes prune cells : ∀ b idx d c',
  idx ∈ cells → 0 <= idx <= 80 → 1 <= d <= 9 → prune d = true →
  board (prune_empty_cells b cells prune) !! idx = Some c' →
  HasCandidate c' d = false.
Proof.
  unfold prune_empty_cells.
  induction cells as [|i0 cells IH]; intros b idx d c' Hin Hr Hd Hp L;
    [by apply elem_of_nil in Hin|].
  cbn [fold_left] in L.
  apply elem_of_cons in Hin as [->|Hin]; [|by eapply IH].
  match type of L with
  | board (fold_left ?f cells ?b1) !! _ = _ =>
      assert (shrinks b1 (fold_left f cells b1)) as Hs;
      [exact (prune_empty_cells_shrinks b1 cells prune)|];
      set (step := b1) in *
  end.
  destruct (shrinks_lookup_inv _ _ _ _ Hs L) as (c1 & L1 & Hc1).
  eapply cell_shrinks_HasCandidate; [exact Hc1|]. clear Hs L Hc1 c'.
  subst step.
  destruct (GetCellAt b (Z.quot i0 9) (Z.rem i0 9)) as [[p oc]|] eqn:G.
  - apply GetCellAt_quot_rem in G as (_ & -> & L0).
    destruct (Z.eqb_spec (value oc) 0) as [Ev|Ev].
    + eapply (fold_remove_closes prune i0 (seqZ 1 9)); [|exact Hp|exact L1].
      apply elem_of_seqZ. lia.
    + rewrite L0 in L1. apply (inj Some) in L1. subst c1.
      unfold HasCandidate. by destruct (Z.eqb_spec (value oc) 0).
  - exfalso.
    assert (GetCellAt b (Z.quot i0 9) (Z.rem i0 9) = Some (i0, c1)) as G'
      by (by apply GetCellAt_quot_rem).
    congruence.
Qed.

Lemma current_values_shrinks b b' cells :
  shrinks b b' → current_values b' cells = current_values b cells.
Proof.
  intros Hs. unfold current_values.
  induction cells as [|idx cells IH]; [done|]. cbn [omap list_omap]. rewrite IH.
  assert (match GetCellAt b' (Z.quot idx 9) (Z.rem idx 9) with
          | Some (_, oc) => if negb (value oc =? 0) then Some (value oc) else None
          | None => None
          end
          = match GetCellAt b (Z.quot idx 9) (Z.rem idx 9) with
            | Some (_, oc) => if negb (value oc =? 0) then Some (value oc) else None
            | None => None
            end) as ->; [|done].
  unfold GetCellAt. destruct (_ || _); [done|].
  destruct Hs as (_ & _ & Hs). specialize (Hs (Z.quot idx 9 * 9 + Z.rem idx 9)).
  destruct Hs as [x y (_ & _ & _ & Hv & _)|]; [by rewrite Hv|done].
Qed.

Lemma propagated_candidate b b' idx cell' d :
  board_ok b → shrinks b b' → board b' !! idx = Some cell' →
  HasCandidate cell' d = true → 0 <= idx <= 80 ∧ 1 <= d <= 9.
Proof.
  intros Hok Hs L Hd.
  pose proof (board_ok_shrinks _ _ Hok Hs) as [_ Hok'].
  pose proof (cell_ok_in_range _ _ (Hok' _ _ L)) as Hr.
  destruct (Hok' _ _ L) as (_ & _ & _ & _ & _ & Hc & _).
  apply HasCandidate_true in Hd as [_ Hd]. split; [done|by apply Hc].
Qed.

(** X21.  After the propagation of an attached killer cage for a set digit,
    every candidate left in a cell of the cage fits the sum: with the values
    standing in the cage, if one cell is left to fill the candidate is what
    remains of the target, and otherwise what remains after the candidate
    can still be made by the other empty cells with digits 1..9. *)
Theorem KillerCage_propagation_bounds (b : Board) (cells : list Z)
    (targetSum r c v idx d : Z) (cell' : Cell) :
  board_ok b → v ≠ 0 → idx ∈ cells →
  board (PropagateValueChange (KillerCageConstraint (mkBase cells true) targetSum)
           b r c v) !! idx = Some cell' →
  HasCandidate cell' d = true →
  let filled := current_values b cells in
  let remainingCells := Z.of_nat (length cells) - Z.of_nat (length filled) in
  let remainingSum := targetSum - sum_list_Z filled in
  if remainingCells =? 1 then d = remainingSum
  else remainingCells - 1 <= remainingSum - d <= (remainingCells - 1) * 9.
Proof.
  intros Hok Hv Hin L Hd. cbv zeta.
  destruct (propagated_candidate b _ idx cell' d Hok
              (PropagateValueChange_shrinks _ b r c v) L Hd) as [Hr Hd9].
  unfold PropagateValueChange in L.
  destruct (Z.eqb_spec v 0) as [|_]; [done|]. cbn [GetBase HasBoard negb Cells] in L.
  unfold KillerCage_PropagateValueChange in L. cbv zeta in L.
  rewrite (current_values_shrinks b _ cells (propagate_by_index_shrinks b cells r c v))
    in L.
  match type of L with
  | board (prune_empty_cells _ _ ?pr) !! _ = _ => destruct (pr d) eqn:Hp
  end.
  { pose proof (prune_empty_cells_closes _ cells _ idx d cell' Hin Hr Hd9 Hp L) as H.
    congruence. }
  destruct (_ =? 1).
  - apply negb_false_iff, Z.eqb_eq in Hp. exact Hp.
  - apply orb_false_iff in Hp as [H1 H2]. apply Z.ltb_ge in H1.
    destruct (Z.gtb_spec (targetSum - sum_list_Z (current_values b cells) - d)
                ((Z.of_nat (length cells)
                  - Z.of_nat (length (current_values b cells)) - 1) * 9));
      [done|]. lia.
Qed.

Lemma fold_min_le (l : list Z) : ∀ init,
  fold_left (λ m val, if val <? m then val else m) l init <= init
  ∧ ∀ x, x ∈ l → fold_left (λ m val, if val <? m then val else m) l init <= x.
Proof.
  induction l as [|y l IH]; intros init; cbn [fold_left].
  - split; [lia|]. by intros x ?%elem_of_nil.
  - destruct (IH (if y <? init then y else init)) as [H1 H2].
    destruct (Z.ltb_spec y init); split; try lia.
    + intros x [->|Hx]%elem_of_cons; [lia|by apply H2].
    + intros x [->|Hx]%elem_of_cons; [lia|by apply H2].
Qed.

Lemma fold_max_ge (l : list Z) : ∀ init,
  init <= fold_left (λ m val, if val >? m then val else m) l init
  ∧ ∀ x, x ∈ l → x <= fold_left (λ m val, if val >? m then val else m) l init.
Proof.
  induction l as [|y l IH]; intros init; cbn [fold_left].
  - split; [lia|]. by intros x ?%elem_of_nil.
  - destruct (IH (if y >? init then y else init)) as [H1 H2].
    destruct (Z.gtb_spec y init); split; try lia.
    + intros x [->|Hx]%elem_of_cons; [lia|by apply H2].
    + intros x [->|Hx]%elem_of_cons; [lia|by apply H2].
Qed.

(** X22.  After the propagation of an attached renban line for a set digit,
    every candidate left in a cell of the line is less than the length of
    the line away from the digit set and from every value standing on the
    line. *)
Theorem Renban_propagation_bounds (b : Board) (cells : list Z)
    (r c v idx d x : Z) (cell' : Cell) :
  board_ok b → v ≠ 0 → idx ∈ cells →
  board (PropagateValueChange (RenbanConstraint (mkBase cells true)) b r c v) !! idx
    = Some cell' →
  HasCandidate cell' d = true →
  x = v ∨ x ∈ current_values b cells →
  Z.abs (d - x) < Z.of_nat (length cells).
Proof.
  intros Hok Hv Hin L Hd Hx.
  destruct (propagated_candidate b _ idx cell' d Hok
              (PropagateValueChange_shrinks _ b r c v) L Hd) as [Hr Hd9].
  unfold PropagateValueChange in L.
  destruct (Z.eqb_spec v 0) as [|_]; [done|]. cbn [GetBase HasBoard negb Cells] in L.
  unfold Renban_PropagateValueChange in L. cbv zeta in L.
  rewrite (current_values_shrinks b _ cells (propagate_by_index_shrinks b cells r c v))
    in L.
  match type of L with
  | board (prune_empty_cells _ _ ?pr) !! _ = _ => destruct (pr d) eqn:Hp
  end.
  { pose proof (prune_empty_cells_closes _ cells _ idx d cell' Hin Hr Hd9 Hp L) as H.
    congruence. }
  destruct (fold_min_le (current_values b cells) v) as [Hm1 Hm2].
  destruct (fold_max_ge (current_values b cells) v) as [HM1 HM2].
  set (minVal := fold_left (λ m val, if val <? m then val else m)
                           (current_values b cells) v) in *.
  set (maxVal := fold_left (λ m val, if val >? m then val else m)
                           (current_values b cells) v) in *.
  assert (minVal <= x <= maxVal) as Hxr.
  { destruct Hx as [->|Hx]; [lia|]. split; [by apply Hm2|by apply HM2]. }
  destruct (Z.gtb_spec ((if d >? maxVal then d else maxVal)
                        - (if d <? minVal then d else minVal) + 1)
              (Z.of_nat (length cells))) as [|Hle]; [done|].
  destruct (Z.gtb_spec d maxVal); destruct (Z.ltb_spec d minVal); lia.
Qed.

(** X23.  The propagation of an attached German whispers line for a
    digit set in a cell of the grid (row and column within 0..8) changes
    nothing when that cell is not on the line; otherwise every candidate
    left in the cell just before and in the cell just after its first
    position on the line differs from the digit by 5 or more. *)
Theorem GermanWhispers_propagation (b : Board) (cells : list Z) (r c v : Z) :
  board_ok b → 0 <= r <= 8 → 0 <= c <= 8 → v ≠ 0 →
  (r * 9 + c ∉ cells →
     PropagateValueChange (GermanWhispersConstraint (mkBase cells true)) b r c v = b)
  ∧ ∀ pos idx d cell',
      cells !! pos = Some (r * 9 + c) →
      (∀ j, (j < pos)%nat → cells !! j ≠ Some (r * 9 + c)) →
      cells !! S pos = Some idx ∨ (∃ pos', pos = S pos' ∧ cells !! pos' = Some idx) →
      board (PropagateValueChange (GermanWhispersConstraint (mkBase cells true))
               b r c v) !! idx = Some cell' →
      HasCandidate cell' d = true →
      5 <= Z.abs (d - v).
Proof.
  intros Hok Hrow Hcol Hv.
  assert (∀ b0 i d x, 0 <= i <= 80 → 1 <= d <= 9 → Z.abs (d - v) < 5 →
            board (whisper_neighbour b0 (GetCellAt b0 (Z.quot i 9) (Z.rem i 9)) v) !! i
              = Some x →
            HasCandidate x d = false) as Hclose.
  { intros b0 i d x Hi Hd Habs L. unfold whisper_neighbour in L.
    destruct (GetCellAt b0 (Z.quot i 9) (Z.rem i 9)) as [[p nc]|] eqn:G.
    - apply GetCellAt_quot_rem in G as (_ & -> & L0).
      destruct (IsSolved nc) eqn:Es; cbn [negb] in L.
      + rewrite L0 in L. apply (inj Some) in L. subst x.
        unfold HasCandidate. unfold IsSolved in Es. by rewrite Es.
      + eapply (fold_remove_closes (λ y, Z.abs (y - v) <? 5) i (seqZ 1 9));
          [|by apply Z.ltb_lt|exact L].
        apply elem_of_seqZ. lia.
    - exfalso.
      assert (GetCellAt b0 (Z.quot i 9) (Z.rem i 9) = Some (i, x)) as G'
        by (by apply GetCellAt_quot_rem).
      congruence. }
  split.
  - intros Hnot. unfold PropagateValueChange.
    destruct (Z.eqb_spec v 0) as [|_]; [done|]. cbn [GetBase HasBoard negb Cells].
    unfold GermanWhispers_PropagateValueChange. cbv zeta.
    destruct (list_find _ cells) as [[pos y]|] eqn:F; [|done].
    apply list_find_Some in F as (Hl & -> & _).
    exfalso. apply Hnot. by eapply list_elem_of_lookup_2.
  - intros pos idx d cell' Hpos Hfirst Hnb L Hd.
    destruct (propagated_candidate b _ idx cell' d Hok
                (PropagateValueChange_shrinks _ b r c v) L Hd) as [Hr Hd9].
    destruct (Z.le_gt_cases 5 (Z.abs (d - v))) as [|Habs]; [done|]. exfalso.
    assert (HasCandidate cell' d = false) as Hfalse; [|congruence].
    unfold PropagateValueChange in L.
    destruct (Z.eqb_spec v 0) as [|_]; [done|]. cbn [GetBase HasBoard negb Cells] in L.
    unfold GermanWhispers_PropagateValueChange in L. cbv zeta in L.
    assert (list_find (λ i, i = r * 9 + c) cells = Some (pos, r * 9 + c)) as F.
    { apply list_find_Some. split; [done|]. split; [done|].
      intros j y Hj Hlt ->. by apply (Hfirst j). }
    rewrite F in L.
    set (b1 := match pos with
               | O => b
               | S pos' =>
                   match cells !! pos' with
                   | Some prevIdx =>
                       whisper_neighbour b
                         (GetCellAt b (Z.quot prevIdx 9) (Z.rem prevIdx 9)) v
                   | None => b
                   end
               end) in *.
    destruct Hnb as [Hnext|(pos' & -> & Hprev)].
    + rewrite Hnext in L. by eapply Hclose.
    + assert (shrinks b1
                (match cells !! S (S pos') with
                 | Some nextIdx =>
                     whisper_neighbour b1
                       (GetCellAt b1 (Z.quot nextIdx 9) (Z.rem nextIdx 9)) v
                 | None => b1
                 end)) as Hs.
      { destruct (cells !! S (S pos')); [apply whisper_neighbour_shrinks|reflexivity]. }
      destruct (shrinks_lookup_inv _ _ _ _ Hs L) as (c1 & L1 & Hc1).
      eapply cell_shrinks_HasCandidate; [exact Hc1|].
      subst b1. rewrite Hprev in L1. by eapply Hclose.
Qed.

Lemma KillerCage_propagation_bounds_witness :
  ∃ cell',
    board (PropagateValueChange (KillerCageConstraint (mkBase [0; 1] true) 9)
             NewBoard 0 0 4) !! 1 = Some cell'
    ∧ HasCandidate cell' 5 = true
    ∧
  let filled := current_values NewBoard [0; 1] in
  let remainingCells := Z.of_nat (length [0; 1]) - Z.of_nat (length filled) in
  let remainingSum := 9 - sum_list_Z filled in
  if remainingCells =? 1 then 5 = remainingSum
  else remainingCells - 1 <= remainingSum - 5 <= (remainingCells - 1) * 9.
Proof.
  assert (4 ≠ 0) as Hv by lia.
  assert (1 ∈ [0; 1]) as Hin by (right; left).
  pose (cell' := default (NewCell 0 1)
          (board (PropagateValueChange (KillerCageConstraint (mkBase [0; 1] true) 9)
                    NewBoard 0 0 4) !! 1)).
  assert (board (PropagateValueChange (KillerCageConstraint (mkBase [0; 1] true) 9)
                   NewBoard 0 0 4) !! 1 = Some cell') as L
    by (vm_compute; reflexivity).
  assert (HasCandidate cell' 5 = true) as Hd by (vm_compute; reflexivity).
  exists cell'. split; [exact L|]. split; [exact Hd|].
  exact (KillerCage_propagation_bounds NewBoard [0; 1] 9 0 0 4 1 5 cell'
           NewBoard_ok Hv Hin L Hd).
Defined.

Lemma Renban_propagation_bounds_witness :
  ∃ cell',
    board (PropagateValueChange (RenbanConstraint (mkBase [0; 1; 2] true))
             NewBoard 0 0 5) !! 1 = Some cell'
    ∧ HasCandidate cell' 4 = true
    ∧ Z.abs (4 - 5) < Z.of_nat (length [0; 1; 2]).
Proof.
  assert (5 ≠ 0) as Hv by lia.
  assert (1 ∈ [0; 1; 2]) as Hin by (right; left).
  pose (cell' := default (NewCell 0 1)
          (board (PropagateValueChange (RenbanConstraint (mkBase [0; 1; 2] true))
                    NewBoard 0 0 5) !! 1)).
  assert (board (PropagateValueChange (RenbanConstraint (mkBase [0; 1; 2] true))
                   NewBoard 0 0 5) !! 1 = Some cell') as L
    by (vm_compute; reflexivity).
  assert (HasCandidate cell' 4 = true) as Hd by (vm_compute; reflexivity).
  assert (5 = 5 ∨ 5 ∈ current_values NewBoard [0; 1; 2]) as Hx by (by left).
  exists cell'. split; [exact L|]. split; [exact Hd|].
  exact (Renban_propagation_bounds NewBoard [0; 1; 2] 0 0 5 1 4 5 cell'
           NewBoard_ok Hv Hin L Hd Hx).
Defined.

Lemma GermanWhispers_propagation_witness :
  ∃ cell',
    board (PropagateValueChange (GermanWhispersConstraint (mkBase [0; 1; 2] true))
             NewBoard 0 1 1) !! 2 = Some cell'
    ∧ HasCandidate cell' 7 = true
    ∧ 5 <= Z.abs (7 - 1).
Proof.
  assert (1 ≠ 0) as Hv by lia.
  assert ([0; 1; 2] !! 1%nat = Some (0 * 9 + 1)) as Hpos by reflexivity.
  assert (∀ j, (j < 1)%nat → [0; 1; 2] !! j ≠ Some (0 * 9 + 1)) as Hfirst.
  { intros j Hj. assert (j = 0%nat) as -> by lia. discriminate. }
  assert ([0; 1; 2] !! 2%nat = Some 2
          ∨ (∃ pos', 1%nat = S pos' ∧ [0; 1; 2] !! pos' = Some 2)) as Hnb
    by (left; reflexivity).
  pose (cell' := default (NewCell 0 2)
          (board (PropagateValueChange (GermanWhispersConstraint (mkBase [0; 1; 2] true))
                    NewBoard 0 1 1) !! 2)).
  assert (board (PropagateValueChange (GermanWhispersConstraint (mkBase [0; 1; 2] true))
                   NewBoard 0 1 1) !! 2 = Some cell') as L
    by (vm_compute; reflexivity).
  assert (HasCandidate cell' 7 = true) as Hd by (vm_compute; reflexivity).
  exists cell'. split; [exact L|]. split; [exact Hd|].
  assert (0 <= 0 <= 8) as Hr by lia.
  assert (0 <= 1 <= 8) as Hc by lia.
  exact (proj2 (GermanWhispers_propagation NewBoard [0; 1; 2] 0 1 1 NewBoard_ok
                  Hr Hc Hv)
           1%nat 2 7 cell' Hpos Hfirst Hnb L Hd).
Defined.

(** ** Swordfish *)

Lemma swordfish_candidate_step_ok rowBased st d :
  step_ok st (swordfish_candidate rowBased st d).
Proof.
  unfold swordfish_candidate. apply fold_left_step_ok. intros st' lll.
  apply swordfish_triple_step_ok.
Qed.

Lemma swordfish_candidate_keeps d d' rowBased st :
  d ≠ d' → keeps d st.2 (swordfish_candidate rowBased st d').2.
Proof.
  intros Hne. unfold swordfish_candidate. apply fold_left_keeps.
  intros st' [[line1 line2] line3]. unfold swordfish_triple. cbv zeta.
  destruct (_ =? 3)%nat; [by apply sweep_lines_keeps|apply keeps_refl].
Qed.

Lemma triples_complete {A} (l : list A) (x y z : A) :
  x ∈ l → y ∈ l → z ∈ l → x ≠ y → x ≠ z → y ≠ z →
  ∃ a b c, (a, b, c) ∈ triples l
           ∧ ((a, b, c) = (x, y, z) ∨ (a, b, c) = (x, z, y) ∨ (a, b, c) = (y, x, z)
              ∨ (a, b, c) = (y, z, x) ∨ (a, b, c) = (z, x, y) ∨ (a, b, c) = (z, y, x)).
Proof.
  assert (∀ (a u v : A) (r : list A), (u, v) ∈ pairs r →
            (a, u, v) ∈ map (λ yz : A * A, (a, yz.1, yz.2)) (pairs r)) as Hmap.
  { intros a u v r H. apply list_elem_of_fmap. by exists (u, v). }
  induction l as [|a l IH]; intros Hx Hy Hz Hxy Hxz Hyz; [by apply elem_of_nil in Hx|].
  cbn [triples].
  apply elem_of_cons in Hx as [->|Hx]; apply elem_of_cons in Hy as [->|Hy];
    apply elem_of_cons in Hz as [->|Hz]; try done.
  - destruct (pairs_complete l y z Hy Hz Hyz) as [H|H].
    + exists a, y, z. split; [apply elem_of_app; left; by apply Hmap|tauto].
    + exists a, z, y. split; [apply elem_of_app; left; by apply Hmap|tauto].
  - destruct (pairs_complete l x z Hx Hz Hxz) as [H|H].
    + exists a, x, z. split; [apply elem_of_app; left; by apply Hmap|tauto].
    + exists a, z, x. split; [apply elem_of_app; left; by apply Hmap|tauto].
  - destruct (pairs_complete l x y Hx Hy Hxy) as [H|H].
    + exists a, x, y. split; [apply elem_of_app; left; by apply Hmap|tauto].
    + exists a, y, x. split; [apply elem_of_app; left; by apply Hmap|tauto].
  - destruct (IH Hx Hy Hz Hxy Hxz Hyz) as (a' & b' & c' & Hin & Hperm).
    exists a', b', c'. split; [apply elem_of_app; by right|done].
Qed.

Lemma union3_perm (A B C : gset Z) :
  A ∪ C ∪ B = A ∪ B ∪ C ∧ B ∪ A ∪ C = A ∪ B ∪ C ∧ B ∪ C ∪ A = A ∪ B ∪ C
  ∧ C ∪ A ∪ B = A ∪ B ∪ C ∧ C ∪ B ∪ A = A ∪ B ∪ C.
Proof. repeat split; set_solver. Qed.

(** A triple of lines met in the loop whose positions number three closes
    the digit at these positions in every other line. *)
Lemma swordfish_triple_closes rowBased d lp st la lb lc line pos :
  size (list_to_set (default [] (lp !! la)) ∪ list_to_set (default [] (lp !! lb))
        ∪ list_to_set (default [] (lp !! lc)) : gset Z) = 3%nat →
  line ≠ la → line ≠ lb → line ≠ lc →
  pos ∈ (list_to_set (default [] (lp !! la)) ∪ list_to_set (default [] (lp !! lb))
         ∪ list_to_set (default [] (lp !! lc)) : gset Z) →
  is_open (line_cell (swordfish_triple rowBased d lp st (la, lb, lc)).2
             rowBased line pos) d = false.
Proof.
  intros Hsize Ha Hb Hc Hpos. unfold swordfish_triple. cbv zeta.
  rewrite Hsize. cbn [Nat.eqb].
  apply sweep_lines_closes; [|by apply elem_of_elements].
  intros [->|[->|[->|?%elem_of_nil]%elem_of_cons]%elem_of_cons]%elem_of_cons; done.
Qed.

Lemma swordfish_candidate_closes rowBased d st l1 l2 l3 line pos :
  l1 ≠ l2 → l1 ≠ l3 → l2 ≠ l3 →
  (2 <= length (line_positions st.2 rowBased d l1) <= 3)%nat →
  (2 <= length (line_positions st.2 rowBased d l2) <= 3)%nat →
  (2 <= length (line_positions st.2 rowBased d l3) <= 3)%nat →
  size (swordfish_positions st.2 rowBased d l1 l2 l3) = 3%nat →
  line ≠ l1 → line ≠ l2 → line ≠ l3 →
  pos ∈ swordfish_positions st.2 rowBased d l1 l2 l3 →
  is_open (line_cell (swordfish_candidate rowBased st d).2 rowBased line pos) d = false.
Proof.
  intros H12 H13 H23 Hn1 Hn2 Hn3 Hsize Hl1 Hl2 Hl3 Hpos.
  unfold swordfish_candidate.
  set (lp := build_linePositions st.2 rowBased d (λ n, Nat.leb 2 n && Nat.leb n 3)).
  assert (∀ l, (2 <= length (line_positions st.2 rowBased d l) <= 3)%nat →
               lp !! l = Some (line_positions st.2 rowBased d l)) as Hlp.
  { intros l Hn. apply build_linePositions_lookup; [done| |].
    - intros E. rewrite E in Hn. cbn in Hn. lia.
    - apply andb_true_iff. split; apply Nat.leb_le; lia. }
  pose proof (Hlp l1 Hn1) as L1. pose proof (Hlp l2 Hn2) as L2.
  pose proof (Hlp l3 Hn3) as L3.
  assert (∀ l, is_Some (lp !! l) → l ∈ (map_to_list lp).*1) as Hkeys.
  { intros l [ps Hl]. apply list_elem_of_fmap. exists (l, ps). split; [done|].
    by apply elem_of_map_to_list. }
  destruct (triples_complete (map_to_list lp).*1 l1 l2 l3) as (la & lb & lc & Hin & Hperm);
    [apply Hkeys; by eexists|apply Hkeys; by eexists|apply Hkeys; by eexists
    |done|done|done|].
  set (U := λ a b c : Z,
              (list_to_set (default [] (lp !! a)) ∪ list_to_set (default [] (lp !! b))
               ∪ list_to_set (default [] (lp !! c)) : gset Z)).
  assert (U l1 l2 l3 = swordfish_positions st.2 rowBased d l1 l2 l3) as HU.
  { unfold U, swordfish_positions. by rewrite L1, L2, L3. }
  assert (U la lb lc = U l1 l2 l3 ∧ line ≠ la ∧ line ≠ lb ∧ line ≠ lc)
    as (HUeq & Ha & Hb & Hc).
  { unfold U.
    destruct (union3_perm (list_to_set (default [] (lp !! l1)))
                (list_to_set (default [] (lp !! l2)))
                (list_to_set (default [] (lp !! l3)))) as (E1 & E2 & E3 & E4 & E5).
    destruct Hperm as [E|[E|[E|[E|[E|E]]]]]; injection E as -> -> ->.
    - split; [reflexivity|]. split; [exact Hl1|]. split; [exact Hl2|exact Hl3].
    - split; [exact E1|]. split; [exact Hl1|]. split; [exact Hl3|exact Hl2].
    - split; [exact E2|]. split; [exact Hl2|]. split; [exact Hl1|exact Hl3].
    - split; [exact E3|]. split; [exact Hl2|]. split; [exact Hl3|exact Hl1].
    - split; [exact E4|]. split; [exact Hl3|]. split; [exact Hl1|exact Hl2].
    - split; [exact E5|]. split; [exact Hl3|]. split; [exact Hl2|exact Hl1]. }
  apply list_elem_of_split in Hin as (pre & post & ->).
  rewrite fold_left_app. cbn [fold_left].
  set (st1 := fold_left (swordfish_triple rowBased d lp) pre st).
  apply (shrinks_is_open d (swordfish_triple rowBased d lp st1 (la, lb, lc)).2).
  - apply fold_left_step_shrinks. intros st' lll. apply swordfish_triple_step_ok.
  - apply (swordfish_triple_closes rowBased d lp st1 la lb lc); try done.
    + fold (U la lb lc). by rewrite HUeq, HU.
    + fold (U la lb lc). by rewrite HUeq, HU.
Qed.

Lemma swordfish_candidates_keep rowBased d ds : ∀ st,
  d ∉ ds → keeps d st.2 (fold_left (swordfish_candidate rowBased) ds st).2.
Proof.
  induction ds as [|d0 ds IH]; intros st Hd; [apply keeps_refl|].
  cbn [fold_left]. eapply keeps_trans.
  - apply (swordfish_candidate_keeps d d0). intros ->. apply Hd. by left.
  - apply IH. intros ?. apply Hd. by right.
Qed.

(** X24.  The Swordfish pass in a direction: for a digit of 1..9 and three
    different lines, each holding the digit as an unsolved candidate at two
    or three positions that number three in all, the digit is, after the
    pass, no candidate at these three positions in any other line of that
    direction. *)
Theorem swordfish_closes_matched_positions (b : Board) (rowBased : bool)
    (d l1 l2 l3 line pos : Z) :
  1 <= d <= 9 → l1 ≠ l2 → l1 ≠ l3 → l2 ≠ l3 →
  (2 <= length (line_positions b rowBased d l1) <= 3)%nat →
  (2 <= length (line_positions b rowBased d l2) <= 3)%nat →
  (2 <= length (line_positions b rowBased d l3) <= 3)%nat →
  size (swordfish_positions b rowBased d l1 l2 l3) = 3%nat →
  line ≠ l1 → line ≠ l2 → line ≠ l3 →
  pos ∈ swordfish_positions b rowBased d l1 l2 l3 →
  is_open (line_cell (applySwordfishInDirection b rowBased).2 rowBased line pos) d
  = false.
Proof.
  intros Hd H12 H13 H23 Hn1 Hn2 Hn3 Hsize Hl1 Hl2 Hl3 Hpos.
  unfold applySwordfishInDirection.
  assert (d ∈ seqZ 1 9) as Hin by (apply elem_of_seqZ; lia).
  apply list_elem_of_split in Hin as (pre & post & Hsplit).
  assert (d ∉ pre) as Hpre.
  { pose proof (NoDup_seqZ 1 9) as Hnd. rewrite Hsplit in Hnd.
    apply NoDup_app in Hnd as (_ & Hdis & _). intros Hp.
    apply (Hdis d Hp). by left. }
  rewrite Hsplit, fold_left_app. cbn [fold_left].
  set (st1 := fold_left (swordfish_candidate rowBased) pre (false, b)).
  pose proof (swordfish_candidates_keep rowBased d pre (false, b) Hpre) as Hk.
  fold st1 in Hk. cbn [snd] in Hk.
  assert (∀ l, line_positions st1.2 rowBased d l = line_positions b rowBased d l) as Hsame.
  { intros l. by apply keeps_line_positions. }
  apply (shrinks_is_open d (swordfish_candidate rowBased st1 d).2).
  - apply fold_left_step_shrinks. intros st' d'. apply swordfish_candidate_step_ok.
  - apply (swordfish_candidate_closes rowBased d st1 l1 l2 l3); try done;
      unfold swordfish_positions; rewrite ?Hsame; done.
Qed.

Lemma swordfish_closes_matched_positions_witness :
  is_open (line_cell (applySwordfishInDirection swordfish_board true).2 true 1 4) 5
  = false.
Proof.
  assert (1 <= 5 <= 9) as Hd by lia.
  assert (0 ≠ 3) as H12 by lia.
  assert (0 ≠ 6) as H13 by lia.
  assert (3 ≠ 6) as H23 by lia.
  assert (length (line_positions swordfish_board true 5 0) = 2%nat) as E1
    by (vm_compute; reflexivity).
  assert (length (line_positions swordfish_board true 5 3) = 2%nat) as E2
    by (vm_compute; reflexivity).
  assert (length (line_positions swordfish_board true 5 6) = 2%nat) as E3
    by (vm_compute; reflexivity).
  assert (2 <= length (line_positions swordfish_board true 5 0) <= 3)%nat as Hn1
    by (rewrite E1; lia).
  assert (2 <= length (line_positions swordfish_board true 5 3) <= 3)%nat as Hn2
    by (rewrite E2; lia).
  assert (2 <= length (line_positions swordfish_board true 5 6) <= 3)%nat as Hn3
    by (rewrite E3; lia).
  assert (size (swordfish_positions swordfish_board true 5 0 3 6) = 3%nat) as Hsize
    by (vm_compute; reflexivity).
  assert (1 ≠ 0) as Hl1 by lia.
  assert (1 ≠ 3) as Hl2 by lia.
  assert (1 ≠ 6) as Hl3 by lia.
  assert (4 ∈ swordfish_positions swordfish_board true 5 0 3 6) as Hpos
    by (vm_compute; reflexivity).
  exact (swordfish_closes_matched_positions swordfish_board true 5 0 3 6 1 4
           Hd H12 H13 H23 Hn1 Hn2 Hn3 Hsize Hl1 Hl2 Hl3 Hpos).
Defined.

(** ** Hidden subsets *)

Lemma sublist_filter_all {A} (P : A → Prop) `{∀ x, Decision (P x)} (l1 l2 : list A) :
  l1 `sublist_of` l2 → Forall P l1 → l1 `sublist_of` filter P l2.
Proof.
  induction 1 as [|x l1 l2 Hs IH|x l1 l2 Hs IH]; intros HP.
  - apply sublist_nil_l.
  - apply Forall_cons in HP as [Hx HP]. rewrite filter_cons_True by done.
    apply sublist_skip. by apply IH.
  - destruct (decide (P x)).
    + rewrite filter_cons_True by done. apply sublist_cons. by apply IH.
    + rewrite filter_cons_False by done. by apply IH.
Qed.

Lemma omap_lookup_shift {A} (x : A) (l : list A) (s : nat) (combo : list nat) :
  Forall (λ i, (S s <= i)%nat) combo →
  omap (λ i, (x :: l) !! (i - s)%nat) combo = omap (λ i, l !! (i - S s)%nat) combo.
Proof.
  induction 1 as [|i combo Hi _ IH]; [done|]. cbn [omap list_omap]. rewrite IH.
  replace (i - s)%nat with (S (i - S s)) by lia. done.
Qed.

Lemma sublist_indices {A} (l1 l2 : list A) :
  l1 `sublist_of` l2 →
  ∀ s, ∃ combo, combo `sublist_of` seq s (length l2)
                ∧ omap (λ i, l2 !! (i - s)%nat) combo = l1
                ∧ length combo = length l1.
Proof.
  assert (∀ (combo : list nat) s n, combo `sublist_of` seq (S s) n →
            Forall (λ i, (S s <= i)%nat) combo) as Hge.
  { intros combo s n Hs. apply Forall_forall. intros i Hi.
    pose proof (elem_of_sublist _ _ _ Hi Hs) as Hi'. apply elem_of_seq in Hi'. lia. }
  induction 1 as [|x l1 l2 Hs IH|x l1 l2 Hs IH]; intros s.
  - exists []. split; [apply sublist_nil_l|done].
  - destruct (IH (S s)) as (combo & Hc & Ho & Hl).
    exists (s :: combo). cbn [length seq]. split; [by apply sublist_skip|].
    split; [|by rewrite Hl]. cbn [omap list_omap]. rewrite Nat.sub_diag. cbn [lookup].
    rewrite (omap_lookup_shift x l2 s combo) by (by eapply Hge). by rewrite Ho.
  - destruct (IH (S s)) as (combo & Hc & Ho & Hl).
    exists combo. cbn [length seq]. split; [by apply sublist_cons|].
    split; [|done].
    rewrite (omap_lookup_shift x l2 s combo) by (by eapply Hge). done.
Qed.

Lemma cond_eliminate_gone (skip : Z → bool) p ds : ∀ st d,
  d ∈ ds → skip d = false →
  d ∉ candidates_at
        (fold_left (λ st' d', if negb (skip d') then eliminate st' p d' else st') ds st).2
        p.
Proof.
  induction ds as [|d0 ds IH]; intros st d Hin Hs; [by apply elem_of_nil in Hin|].
  cbn [fold_left]. apply elem_of_cons in Hin as [->|Hin]; [|by apply IH].
  rewrite Hs. cbn [negb]. intros Hd. apply (eliminate_gone st p d0).
  eapply shrinks_candidates_at; [|exact Hd].
  apply (fold_left_step_ok
           (λ st' d', if negb (skip d') then eliminate st' p d' else st')).
  intros st' d'. destruct (negb _); [apply eliminate_step_ok|apply step_ok_refl].
Qed.

(** A combination whose cells number its size leaves, in each of these
    cells, no digit of 1..9 outside the combination. *)
Lemma hidden_combo_closes locs active k st combo cell d :
  let subsetCandidates := omap (λ i, active !! i) combo in
  let cellUnion : gset Z :=
    ⋃ (map (λ candidate, list_to_set (default [] (locs !! candidate)))
           subsetCandidates) in
  Z.of_nat (size cellUnion) = k → cell ∈ cellUnion → 1 <= d <= 9 →
  d ∉ subsetCandidates →
  d ∉ candidates_at (hidden_combo locs active k st combo).2 cell.
Proof.
  cbv zeta. intros Hsize Hcell Hd Hnot. unfold hidden_combo. cbv zeta.
  apply Z.eqb_eq in Hsize. rewrite Hsize.
  set (ds := omap (λ i, active !! i) combo) in *.
  set (inner := λ (st' : bool * Board) (cell' : Z),
                  fold_left (λ st'' candidate,
                               if negb (ContainsInt ds candidate)
                               then eliminate st'' cell' candidate else st'')
                            (seqZ 1 9) st').
  assert (∀ st' cell', step_ok st' (inner st' cell')) as Hinner.
  { intros st' cell'. apply fold_left_step_ok. intros st'' d'.
    destruct (negb _); [apply eliminate_step_ok|apply step_ok_refl]. }
  apply elem_of_elements in Hcell.
  apply list_elem_of_split in Hcell as (pre & post & ->).
  rewrite fold_left_app. cbn [fold_left].
  intros Hin. eapply shrinks_candidates_at in Hin.
  2:{ apply (fold_left_step_shrinks inner post). exact Hinner. }
  revert Hin. apply cond_eliminate_gone; [apply elem_of_seqZ; lia|].
  unfold ContainsInt. apply not_true_iff_false. intros H.
  apply existsb_exists in H as (x & Hx & ->%Z.eqb_eq).
  apply Hnot. by apply list_elem_of_In.
Qed.

Lemma candidateLocations_lookup b (unsolved : list Z) d :
  1 <= d <= 9 →
  (list_to_map
     (map (λ candidate,
             (candidate, filter (λ cell, candidate ∈ candidates_at b cell) unsolved))
          (seqZ 1 9)) : gmap Z (list Z)) !! d
  = Some (filter (λ cell, d ∈ candidates_at b cell) unsolved).
Proof.
  intros Hd. apply elem_of_list_to_map.
  - rewrite (fst_map_graph
               (λ candidate, filter (λ cell, candidate ∈ candidates_at b cell) unsolved)).
    apply NoDup_seqZ.
  - apply list_elem_of_fmap. exists d. split; [done|]. apply elem_of_seqZ. lia.
Qed.

Lemma sublist_indices_0 {A} (l1 l2 : list A) :
  l1 `sublist_of` l2 →
  ∃ combo, combo `sublist_of` seq 0 (length l2)
           ∧ omap (λ i, l2 !! i) combo = l1 ∧ length combo = length l1.
Proof.
  intros Hs. destruct (sublist_indices l1 l2 Hs 0%nat) as (combo & Hc & Ho & Hl).
  exists combo. split; [done|]. split; [|done]. rewrite <- Ho.
  apply list_omap_ext. apply Forall2_same_length_lookup. split; [done|].
  intros i x y Hx Hy. assert (x = y) as -> by congruence. by rewrite Nat.sub_0_r.
Qed.

(** X25.  Hidden subsets.  Take k digits (2 <= k <= cap), each a candidate
    of at least two unsolved cells of the scope, whose cells in the scope
    number exactly k.  After one pass of [ApplyHiddenSubsets] no other digit
    of 1..9 is a candidate of any of these k cells. *)
Theorem hidden_subset_pass_confines (b : Board) (cells : list Z) (cap : Z)
    (ds : list Z) (cell d : Z) :
  ds `sublist_of` seqZ 1 9 →
  2 <= Z.of_nat (length ds) <= cap →
  (∀ x, x ∈ ds → (2 <= length (candidate_locations b cells x))%nat) →
  size (hidden_cells b cells ds) = length ds →
  cell ∈ hidden_cells b cells ds → 1 <= d <= 9 → d ∉ ds →
  d ∉ candidates_at (ApplyHiddenSubsets b cells cap).2 cell.
Proof.
  intros Hsub Hk Hloc Hsize Hcell Hd Hnot.
  assert (∃ x0, x0 ∈ ds) as [x0 Hx0].
  { destruct ds as [|x0 ?]; [cbn in Hk; lia|]. exists x0. by left. }
  assert (∀ x, x ∈ ds → 1 <= x <= 9) as Hrange.
  { intros x Hx. pose proof (elem_of_sublist _ _ _ Hx Hsub) as H.
    apply elem_of_seqZ in H. lia. }
  pose proof (Hloc x0 Hx0) as Hlen0.
  assert (length (candidate_locations b cells x0) <= length (unsolved_cells b cells))%nat
    as Hle0 by apply length_filter.
  unfold ApplyHiddenSubsets.
  case_bool_decide as Hnil.
  { subst cells. assert (length (unsolved_cells b []) = 0%nat) as E by reflexivity.
    lia. }
  cbv zeta.
  destruct (Z.ltb_spec (Z.of_nat (length (unsolved_cells b cells))) 2) as [|_]; [lia|].
  set (locs := (list_to_map _ : gmap Z (list Z))).
  assert (∀ x, 1 <= x <= 9 → locs !! x = Some (candidate_locations b cells x)) as Hlocs.
  { intros x Hx. subst locs. by apply candidateLocations_lookup. }
  set (active := filter (λ candidate,
                           (2 <= length (default [] (locs !! candidate)))%nat)
                        (seqZ 1 9)).
  assert (ds `sublist_of` active) as Hact.
  { apply sublist_filter_all; [done|]. apply Forall_forall. intros x Hx.
    rewrite (Hlocs x (Hrange x Hx)). cbn [default]. by apply Hloc. }
  pose proof (sublist_length _ _ Hact) as Hm.
  destruct (Z.ltb_spec (Z.of_nat (length active)) 2) as [|_]; [lia|].
  set (m := Z.of_nat (length active)) in *.
  set (maxSize := if m <? cap then m else cap).
  assert (Z.of_nat (length ds) <= maxSize) as Hmax.
  { subst maxSize m. destruct (Z.ltb_spec (Z.of_nat (length active)) cap); lia. }
  destruct (sublist_indices_0 ds active Hact) as (combo & Hcombo & Hds & Hclen).
  assert (combo ∈ GenerateCombinations m (Z.of_nat (length ds))) as Hgen.
  { apply GenerateCombinations_complete; [lia| |lia].
    subst m. by rewrite Nat2Z.id. }
  assert (Z.of_nat (length ds) ∈ seqZ 2 (maxSize - 1)) as Hin
    by (apply elem_of_seqZ; lia).
  apply list_elem_of_split in Hin as (pre & post & ->).
  rewrite fold_left_app. cbn [fold_left].
  apply list_elem_of_split in Hgen as (pre' & post' & ->).
  rewrite fold_left_app. cbn [fold_left].
  set (st1 := fold_left (hidden_combo locs active (Z.of_nat (length ds))) pre' _).
  set (st2 := hidden_combo locs active (Z.of_nat (length ds)) st1 combo).
  assert (d ∉ candidates_at st2.2 cell) as Hgone.
  { assert (⋃ (map (λ candidate, list_to_set (default [] (locs !! candidate)))
                   (omap (λ i, active !! i) combo))
            = hidden_cells b cells ds) as HU.
    { rewrite Hds. unfold hidden_cells. f_equal. apply map_ext_in.
      intros x Hx%list_elem_of_In. by rewrite (Hlocs x (Hrange x Hx)). }
    subst st2. apply hidden_combo_closes.
    - rewrite HU, Hsize. done.
    - by rewrite HU.
    - done.
    - by rewrite Hds. }
  intros Hfinal. apply Hgone. eapply shrinks_candidates_at; [|exact Hfinal].
  etransitivity.
  - apply (fold_left_step_shrinks
             (hidden_combo locs active (Z.of_nat (length ds))) post' st2).
    intros st' c'. apply hidden_combo_step_ok.
  - apply (fold_left_step_shrinks
             (λ st subsetSize,
                fold_left (hidden_combo locs active subsetSize)
                          (GenerateCombinations m subsetSize) st) post).
    intros st' k'. apply fold_left_step_ok. intros st'' c'.
    apply hidden_combo_step_ok.
Qed.

Lemma hidden_subset_pass_confines_witness :
  9 ∉ candidates_at (ApplyHiddenSubsets hidden_pair_board (seqZ 0 9) 4).2 0.
Proof.
  assert ([3; 7] `sublist_of` seqZ 1 9) as Hsub.
  { assert (seqZ 1 9 = [1; 2; 3; 4; 5; 6; 7; 8; 9]) as -> by reflexivity.
    do 2 apply sublist_cons. apply sublist_skip. do 3 apply sublist_cons.
    apply sublist_skip. apply sublist_nil_l. }
  assert (2 <= Z.of_nat (length [3; 7]) <= 4) as Hk by (cbn; lia).
  assert (∀ x, x ∈ [3; 7] →
            (2 <= length (candidate_locations hidden_pair_board (seqZ 0 9) x))%nat)
    as Hloc.
  { assert (length (candidate_locations hidden_pair_board (seqZ 0 9) 3) = 2%nat) as E3
      by (vm_compute; reflexivity).
    assert (length (candidate_locations hidden_pair_board (seqZ 0 9) 7) = 2%nat) as E7
      by (vm_compute; reflexivity).
    intros x [->|[->|Hx%elem_of_nil]%elem_of_cons]%elem_of_cons;
      [rewrite E3; lia|rewrite E7; lia|destruct Hx]. }
  assert (size (hidden_cells hidden_pair_board (seqZ 0 9) [3; 7]) = length [3; 7])
    as Hsize by (vm_compute; reflexivity).
  assert (0 ∈ hidden_cells hidden_pair_board (seqZ 0 9) [3; 7]) as Hcell
    by (vm_compute; reflexivity).
  assert (1 <= 9 <= 9) as Hd by lia.
  assert (9 ∉ [3; 7]) as Hnot.
  { intros [H|[H|H%elem_of_nil]%elem_of_cons]%elem_of_cons;
      [discriminate H|discriminate H|destruct H]. }
  exact (hidden_subset_pass_confines hidden_pair_board (seqZ 0 9) 4 [3; 7] 0 9
           Hsub Hk Hloc Hsize Hcell Hd Hnot).
Defined.

(** ** Validation of a renban line *)

Lemma insert_sorted_perm x l : insert_sorted x l ≡ₚ x :: l.
Proof.
  induction l as [|y r IH]; cbn [insert_sorted]; [done|].
  destruct (x <=? y); [done|]. rewrite IH. apply Permutation_swap.
Qed.

Lemma insert_sorted_StronglySorted x l :
  StronglySorted Z.le l → StronglySorted Z.le (insert_sorted x l).
Proof.
  induction 1 as [|y r Hr IH Hy]; cbn [insert_sorted].
  - constructor; [constructor|constructor].
  - destruct (Z.leb_spec x y) as [Hxy|Hxy].
    + constructor; [by constructor|]. constructor; [done|].
      eapply Forall_impl; [exact Hy|]. intros z Hz. cbv beta in Hz. lia.
    + constructor; [exact IH|].
      rewrite insert_sorted_perm. constructor; [lia|exact Hy].
Qed.

Lemma sort_perm l : fold_right insert_sorted [] l ≡ₚ l.
Proof.
  induction l as [|x l IH]; cbn [fold_right]; [done|].
  by rewrite insert_sorted_perm, IH.
Qed.

Lemma sort_StronglySorted l : StronglySorted Z.le (fold_right insert_sorted [] l).
Proof.
  induction l as [|x l IH]; cbn [fold_right]; [constructor|].
  by apply insert_sorted_StronglySorted.
Qed.

Lemma seqZ_succ a (n : nat) : seqZ a (Z.of_nat (S n)) = a :: seqZ (Z.succ a) (Z.of_nat n).
Proof.
  rewrite seqZ_cons by lia. f_equal. f_equal. lia.
Qed.

Lemma consecutive_is_seqZ r : ∀ x,
  consecutive (x :: r) = true → x :: r = seqZ x (Z.of_nat (length (x :: r))).
Proof.
  induction r as [|y r IH]; intros x H.
  - cbn [length]. by rewrite seqZ_succ.
  - cbn [consecutive] in H. apply andb_true_iff in H as [Hy H].
    apply Z.eqb_eq in Hy. change (length (x :: y :: r)) with (S (length (y :: r))).
    rewrite seqZ_succ. f_equal. replace (Z.succ x) with y by lia. by apply IH.
Qed.

Lemma seqZ_consecutive (n : nat) : ∀ a, consecutive (seqZ a (Z.of_nat n)) = true.
Proof.
  induction n as [|n IH]; intros a; [done|].
  rewrite seqZ_succ. destruct n as [|n]; [done|].
  specialize (IH (Z.succ a)). rewrite seqZ_succ in IH |- *.
  cbn [consecutive]. apply andb_true_iff. split; [apply Z.eqb_eq; lia|exact IH].
Qed.

Lemma seqZ_StronglySorted_le a n : StronglySorted Z.le (seqZ a n).
Proof.
  pose proof (seqZ_StronglySorted a n) as H.
  induction H as [|x l _ IH Hx]; constructor; [done|].
  eapply Forall_impl; [exact Hx|]. intros z Hz. cbv beta in Hz. lia.
Qed.

Lemma scope_values_range b cells v :
  board_ok b → v ∈ scope_values b cells → 0 <= v <= 9.
Proof.
  intros [_ Hok] (idx & -> & _)%list_elem_of_fmap. unfold Get.
  destruct (_ || _); [lia|].
  destruct (board b !! _) as [c|] eqn:L; [|lia].
  destruct (Hok _ c L) as (_ & _ & _ & _ & ? & _). lia.
Qed.

(** X26.  [RenbanConstraint.IsValid] never reports an error on a grid.  On
    a grid as the operations leave it: while a cell of the line is empty it
    answers as [HasUniqueNonZeros] does on the values of the line; once all
    are filled it answers true exactly when the values of the line are, in
    some order, as many consecutive integers as the line has cells. *)
Theorem Renban_IsValid_consecutive (b : Board) (cells : list Z) (hb : bool) :
  board_ok b →
  (IsValid (RenbanConstraint (mkBase cells hb)) (Some b)).2 = None
  ∧ (0 ∈ scope_values b cells →
       (IsValid (RenbanConstraint (mkBase cells hb)) (Some b)).1
       = HasUniqueNonZeros (scope_values b cells))
  ∧ (0 ∉ scope_values b cells →
       ((IsValid (RenbanConstraint (mkBase cells hb)) (Some b)).1 = true
        ↔ ∃ a, scope_values b cells ≡ₚ seqZ a (Z.of_nat (length cells)))).
Proof.
  intros Hok. cbn [IsValid Cells].
  set (values := scope_values b cells).
  assert (length values = length cells) as Hlen
    by (subst values; unfold scope_values; apply length_map).
  assert (existsb (Z.eqb 0) values = true ↔ 0 ∈ values) as Hempty.
  { rewrite existsb_exists. split.
    - intros (x & Hx & <-%Z.eqb_eq). by apply list_elem_of_In.
    - intros H. exists 0. split; [by apply list_elem_of_In|done]. }
  split; [|split].
  - destruct (existsb _ _); [done|]. by destruct (negb _).
  - intros H0. apply Hempty in H0. by rewrite H0.
  - intros H0. destruct (existsb (Z.eqb 0) values) eqn:E;
      [exfalso; apply H0; by apply Hempty|].
    assert (HasUniqueNonZeros values = true ↔ NoDup values) as Huniq.
    { unfold HasUniqueNonZeros. rewrite HasUniqueNonZeros_from_spec.
      assert (filter (λ v, v ≠ 0) values = values) as ->.
      { clear -H0. induction values as [|v l IH]; [done|].
        apply not_elem_of_cons in H0 as [Hv Hl].
        rewrite filter_cons_True by done. by rewrite IH. }
      split; [tauto|]. intros Hnd. split; [|done]. intros v Hv Hne.
      pose proof (scope_values_range b cells v Hok Hv).
      split; [lia|apply not_elem_of_empty]. }
    split.
    + intros Hvalid.
      destruct (HasUniqueNonZeros values) eqn:Hu; [|done]. cbn [negb fst] in Hvalid.
      destruct (fold_right insert_sorted [] values) as [|x r] eqn:Es.
      * exists 0. pose proof (sort_perm values) as Hp. rewrite Es in Hp.
        apply Permutation_nil in Hp. rewrite <- Hlen, Hp. done.
      * apply consecutive_is_seqZ in Hvalid.
        exists x. rewrite <- (sort_perm values), Es, Hvalid.
        assert (length (x :: r) = length cells) as ->; [|done].
        rewrite <- Hlen, <- Es. apply Permutation_length, sort_perm.
    + intros [a Hp].
      assert (NoDup values) as Hnd by (rewrite Hp; apply NoDup_seqZ).
      rewrite (proj2 Huniq Hnd). cbn [negb fst].
      assert (fold_right insert_sorted [] values = seqZ a (Z.of_nat (length cells)))
        as ->; [|apply seqZ_consecutive].
      apply (StronglySorted_unique Z.le).
      * apply sort_StronglySorted.
      * apply seqZ_StronglySorted_le.
      * by rewrite sort_perm.
Qed.

Lemma Renban_IsValid_consecutive_witness :
  (IsValid (RenbanConstraint (mkBase [0; 1] false))
     (Some (Board_Set (Board_Set NewBoard 0 0 4).1 0 1 3).1)).1 = true.
Proof.
  assert (board_ok (Board_Set (Board_Set NewBoard 0 0 4).1 0 1 3).1) as Hok
    by (apply Board_Set_ok, Board_Set_ok, NewBoard_ok).
  assert (scope_values (Board_Set (Board_Set NewBoard 0 0 4).1 0 1 3).1 [0; 1] = [4; 3])
    as Ev by (vm_compute; reflexivity).
  assert (0 ∉ scope_values (Board_Set (Board_Set NewBoard 0 0 4).1 0 1 3).1 [0; 1])
    as H0.
  { rewrite Ev. intros [H|[H|H%elem_of_nil]%elem_of_cons]%elem_of_cons;
      [discriminate H|discriminate H|destruct H]. }
  assert (∃ a, scope_values (Board_Set (Board_Set NewBoard 0 0 4).1 0 1 3).1 [0; 1]
               ≡ₚ seqZ a (Z.of_nat (length [0; 1]))) as Hseq.
  { exists 3. rewrite Ev. apply Permutation_swap. }
  exact (proj2 (proj2 (proj2 (Renban_IsValid_consecutive
                                (Board_Set (Board_Set NewBoard 0 0 4).1 0 1 3).1
                                [0; 1] false Hok)) H0) Hseq).
Defined.

(** ** What every removal keeps, every pass keeps *)

Section removal_invariant.
Variable I : Board → Prop.
Hypothesis I_remove : ∀ b p d, I b → I (RemoveCandidate b p d).

Lemma fold_left_inv {A} (f : Board → A → Board) (l : list A) :
  (∀ b x, I b → I (f b x)) → ∀ b, I b → I (fold_left f l b).
Proof.
  intros Hf. induction l as [|x l IH]; intros b Hb; cbn [fold_left]; [done|].
  apply IH. by apply Hf.
Qed.

Lemma fold_left_inv_st {A} (f : bool * Board → A → bool * Board) (l : list A) :
  (∀ st x, I st.2 → I (f st x).2) → ∀ st, I st.2 → I (fold_left f l st).2.
Proof.
  intros Hf. induction l as [|x l IH]; intros st Hst; cbn [fold_left]; [done|].
  apply IH. by apply Hf.
Qed.

Lemma eliminate_inv st p d : I st.2 → I (eliminate st p d).2.
Proof.
  intros H. unfold eliminate. destruct (board st.2 !! p); [|done].
  destruct (HasCandidate _ _); [by apply I_remove|done].
Qed.

Lemma eliminate_at_inv st cell d : I st.2 → I (eliminate_at st cell d).2.
Proof.
  intros H. unfold eliminate_at. destruct cell as [[p c]|]; [|done].
  destruct (_ && _); [by apply I_remove|done].
Qed.

Lemma subset_pass_inv b cells maxSize : I b → I (subset_pass b cells maxSize).2.
Proof.
  assert (∀ b0, I b0 → I (ApplyNakedSubsets b0 cells maxSize).2) as Hn.
  { intros b0 H. unfold ApplyNakedSubsets. case_bool_decide; [done|]. cbv zeta.
    destruct (_ <? 2); [done|].
    apply fold_left_inv_st; [|done]. intros st k Hst.
    apply fold_left_inv_st; [|done]. intros st' combo Hst'.
    unfold naked_combo. cbv zeta. destruct (_ =? k); [|done].
    apply fold_left_inv_st; [|done]. intros st1 cell Hst1.
    destruct (negb _); [|done].
    apply fold_left_inv_st; [|done]. intros st2 d. apply eliminate_inv. }
  assert (∀ b0, I b0 → I (ApplyHiddenSubsets b0 cells maxSize).2) as Hh.
  { intros b0 H. unfold ApplyHiddenSubsets. case_bool_decide; [done|]. cbv zeta.
    destruct (_ <? 2); [done|]. destruct (_ <? 2); [done|].
    apply fold_left_inv_st; [|done]. intros st k Hst.
    apply fold_left_inv_st; [|done]. intros st' combo Hst'.
    unfold hidden_combo. cbv zeta. destruct (_ =? k); [|done].
    apply fold_left_inv_st; [|done]. intros st1 cell Hst1.
    apply fold_left_inv_st; [|done]. intros st2 d Hst2.
    destruct (negb _); [by apply eliminate_inv|done]. }
  intros H. unfold subset_pass.
  specialize (Hn b H). destruct (ApplyNakedSubsets b cells maxSize) as [ch1 b1].
  specialize (Hh b1 Hn). by destruct (ApplyHiddenSubsets b1 cells maxSize) as [ch2 b2].
Qed.

Lemma ApplyPencilMarkConstraints_inv b : I b → I (ApplyPencilMarkConstraints b).2.
Proof.
  intros H. unfold ApplyPencilMarkConstraints.
  apply (fold_left_inv_st _ (constraints b)) with (st := (false, b)); [|done].
  intros st k Hst. destruct (RequiresUniqueness k); [|done].
  assert (I (Constraint_ApplyPencilMarkConstraints k st.2).2) as Hk.
  { destruct k; cbn [Constraint_ApplyPencilMarkConstraints];
      try (by apply subset_pass_inv). done. }
  by destruct (Constraint_ApplyPencilMarkConstraints k st.2).
Qed.

Lemma sweep_lines_inv rowBased d skip positions st :
  I st.2 → I (sweep_lines rowBased d skip positions st).2.
Proof.
  intros H. unfold sweep_lines. apply fold_left_inv_st; [|done].
  intros st' l Hst'. destruct (negb _); [|done].
  apply fold_left_inv_st; [|done]. intros st2 pos. apply eliminate_at_inv.
Qed.

Lemma applyXWings_inv b : I b → I (applyXWings b).2.
Proof.
  assert (∀ b0 rowBased, I b0 → I (applyXWingsInDirection b0 rowBased).2) as Hd.
  { intros b0 rowBased H. unfold applyXWingsInDirection.
    apply (fold_left_inv_st _ (seqZ 1 9)) with (st := (false, b0)); [|done].
    intros st d Hst. unfold xwing_candidate.
    apply fold_left_inv_st; [|done]. intros st' [l1 l2] Hst'. unfold xwing_pair.
    destruct (default [] (_ !! l1)) as [|a1 [|a2 [|? ?]]]; try done.
    destruct (default [] (_ !! l2)) as [|c1 [|c2 [|? ?]]]; try done.
    destruct (_ && _); [by apply sweep_lines_inv|done]. }
  intros H. unfold applyXWings.
  pose proof (Hd b true H) as H1. destruct (applyXWingsInDirection b true) as [ch1 b1].
  pose proof (Hd b1 false H1) as H2.
  by destruct (applyXWingsInDirection b1 false) as [ch2 b2].
Qed.

Lemma applySwordfish_inv b : I b → I (applySwordfish b).2.
Proof.
  assert (∀ b0 rowBased, I b0 → I (applySwordfishInDirection b0 rowBased).2) as Hd.
  { intros b0 rowBased H. unfold applySwordfishInDirection.
    apply (fold_left_inv_st _ (seqZ 1 9)) with (st := (false, b0)); [|done].
    intros st d Hst. unfold swordfish_candidate.
    apply fold_left_inv_st; [|done]. intros st' [[l1 l2] l3] Hst'.
    unfold swordfish_triple. cbv zeta.
    destruct (_ =? 3)%nat; [by apply sweep_lines_inv|done]. }
  intros H. unfold applySwordfish.
  pose proof (Hd b true H) as H1.
  destruct (applySwordfishInDirection b true) as [ch1 b1].
  pose proof (Hd b1 false H1) as H2.
  by destruct (applySwordfishInDirection b1 false) as [ch2 b2].
Qed.

Lemma applyXYWings_inv b : I b → I (applyXYWings b).2.
Proof.
  intros H. unfold applyXYWings.
  match goal with
  | |- I (fold_left _ ?l _).2 =>
      apply (fold_left_inv_st xywing_pivot l) with (st := (false, b)); [|done]
  end.
  intros st pivot Hst. unfold xywing_pivot.
  destruct (board st.2 !! pivot) as [c|]; [|done].
  destruct (GetCandidatesAsSlice _) as [|X [|Y [|? ?]]]; try done.
  cbv zeta. apply fold_left_inv_st; [|done]. intros st1 wing1 Hst1.
  unfold xywing_wing1.
  destruct (two_candidates st1.2 wing1) as [w1|]; [|done].
  destruct (wing_digit X Y w1) as [Z1|]; [|done].
  apply fold_left_inv_st; [|done]. intros st2 wing2 Hst2.
  unfold xywing_wing2.
  destruct (wing2 =? wing1); [done|].
  destruct (two_candidates st2.2 wing2) as [w2|]; [|done].
  destruct (wing_digit X Y w2) as [Z2|]; [|done].
  destruct (Z1 =? Z2); [|done].
  unfold xywing_eliminate. apply fold_left_inv_st; [|done]. intros st3 cell Hst3.
  destruct (_ || _); [done|].
  case_bool_decide; [by apply eliminate_inv|done].
Qed.

Lemma ApplyAdvancedTechniques_inv b : I b → I (ApplyAdvancedTechniques b).2.
Proof.
  intros H. unfold ApplyAdvancedTechniques.
  pose proof (applyXWings_inv b H) as H1. destruct (applyXWings b) as [ch1 b1].
  pose proof (applySwordfish_inv b1 H1) as H2. destruct (applySwordfish b1) as [ch2 b2].
  pose proof (applyXYWings_inv b2 H2) as H3. by destruct (applyXYWings b2) as [ch3 b3].
Qed.

End removal_invariant.

(** ** The auto-solve observer *)

Lemma replay_app id l1 l2 a : replay id (l1 ++ l2) a = replay id l2 (replay id l1 a).
Proof. unfold replay. by rewrite fold_left_app. Qed.

Lemma replay_cons id oe evs a :
  replay id (oe :: evs) a
  = replay id evs (if decide (oe.1 = Listener id) then deliver a oe.2 else a).
Proof. reflexivity. Qed.

Lemma deliver_enabled a e : enabled (deliver a e) = enabled a.
Proof.
  destruct e; cbn [deliver]; [| |done].
  - unfold Auto_OnSingleCandidate. by destruct (enabled a) eqn:E.
  - unfold Auto_OnCellSolved. by destruct (enabled a) eqn:E.
Qed.

Lemma replay_enabled id evs : ∀ a, enabled (replay id evs a) = enabled a.
Proof.
  induction evs as [|oe evs IH]; intros a; [done|].
  rewrite replay_cons, IH.
  destruct (decide _); [apply deliver_enabled|done].
Qed.

Lemma auto_state_enabled id b : enabled (auto_state id b) = true.
Proof. unfold auto_state. by rewrite replay_enabled. Qed.

Lemma replay_eliminated id r c d n obs a :
  replay id (map (λ o, (o, CandidateEliminated r c d n)) obs) a = a.
Proof.
  induction obs as [|o obs IH]; [done|].
  cbn [map]. rewrite replay_cons. cbn [fst snd deliver].
  unfold Auto_OnCandidateEliminated. by destruct (decide _).
Qed.

Lemma replay_single id r c x obs : ∀ a,
  enabled a = true →
  cellsToSolve (replay id (map (λ o, (o, SingleCandidate r c x)) obs) a)
  = if decide (Listener id ∈ obs) then <[(r, c) := x]> (cellsToSolve a)
    else cellsToSolve a.
Proof.
  induction obs as [|o obs IH]; intros a Ha.
  - cbn. destruct (decide _) as [H|]; [by apply elem_of_nil in H|done].
  - cbn [map]. rewrite replay_cons. cbn [fst snd deliver].
    destruct (decide (o = Listener id)) as [->|Hne].
    + rewrite IH by (unfold Auto_OnSingleCandidate; by rewrite Ha).
      unfold Auto_OnSingleCandidate. rewrite Ha. cbn [negb cellsToSolve].
      rewrite insert_insert_eq.
      destruct (decide (Listener id ∈ Listener id :: obs)) as [_|Hn];
        [|exfalso; apply Hn; by left].
      by destruct (decide _).
    + rewrite IH by done.
      destruct (decide (Listener id ∈ obs)) as [Hin|Hnin].
      * destruct (decide _) as [_|Hn]; [done|]. exfalso. apply Hn. by right.
      * destruct (decide _) as [[?|?]%elem_of_cons|_]; done.
Qed.

(** What a removal that takes effect leaves in the record. *)
Lemma RemoveCandidate_trace b p d c :
  board b !! p = Some c → HasCandidate c d = true →
  board (RemoveCandidate b p d) = <[p := with_candidates c (candidates c ∖ {[d]})]> (board b)
  ∧ ∃ singles,
      events (RemoveCandidate b p d)
      = events b
        ++ map (λ o, (o, CandidateEliminated (row c) (col c) d
                           (Z.of_nat (size (candidates c ∖ {[d]})))))
               (notifier c)
        ++ singles
      ∧ (singles = []
         ∨ ∃ x, x ∈ GetCandidatesAsSlice (candidates c ∖ {[d]})
                ∧ size (candidates c ∖ {[d]}) = 1%nat
                ∧ singles = map (λ o, (o, SingleCandidate (row c) (col c) x))
                                (notifier c)).
Proof.
  intros L [Hv Hd]%HasCandidate_true.
  unfold RemoveCandidate. rewrite L.
  apply Z.eqb_eq in Hv. rewrite Hv. rewrite bool_decide_eq_true_2 by done.
  cbn [andb]. cbv zeta.
  set (rest := candidates c ∖ {[d]}).
  cbn [with_candidates candidates notifier row col].
  set (c' := with_candidates c rest).
  set (b2 := NotifyCandidateEliminated (store b p c') (notifier c) (row c) (col c) d
               (Z.of_nat (size rest))).
  destruct (record_fold_fields
              (CandidateEliminated (row c) (col c) d (Z.of_nat (size rest)))
              (notifier c) (store b p c')) as (Hb2 & _ & _ & He2).
  fold (NotifyCandidateEliminated (store b p c') (notifier c) (row c) (col c) d
          (Z.of_nat (size rest))) in Hb2, He2. fold b2 in Hb2, He2.
  cbn [store board events] in Hb2, He2.
  destruct (Z.eqb_spec (Z.of_nat (size rest)) 1) as [E1|E1].
  - destruct (GetCandidatesAsSlice rest) as [|x l] eqn:Es.
    + split; [exact Hb2|]. exists []. rewrite app_nil_r. split; [exact He2|by left].
    + destruct (record_fold_fields (SingleCandidate (row c) (col c) x)
                  (notifier c) b2) as (Hb3 & _ & _ & He3).
      fold (NotifySingleCandidate b2 (notifier c) (row c) (col c) x) in Hb3, He3.
      split; [by rewrite Hb3|].
      exists (map (λ o, (o, SingleCandidate (row c) (col c) x)) (notifier c)).
      split; [by rewrite He3, He2, <- app_assoc|].
      right. exists x. split; [by left|]. split; [lia|done].
  - split; [exact Hb2|]. exists []. rewrite app_nil_r. split; [exact He2|by left].
Qed.

(** What a removal does to the list of the observer: nothing, or one entry
    for the cell, which is left with that one candidate. *)
Lemma auto_RemoveCandidate id b p d :
  cellsToSolve (auto_state id (RemoveCandidate b p d)) = cellsToSolve (auto_state id b)
  ∨ ∃ c x, board b !! p = Some c ∧ value c = 0
           ∧ board (RemoveCandidate b p d) !! p = Some (with_candidates c {[x]})
           ∧ cellsToSolve (auto_state id (RemoveCandidate b p d))
             = <[(row c, col c) := x]> (cellsToSolve (auto_state id b)).
Proof.
  destruct (board b !! p) as [c|] eqn:L; [|left; by rewrite RemoveCandidate_nil].
  destruct (HasCandidate c d) eqn:Hd;
    [|left; by rewrite (RemoveCandidate_no_effect b p d c)].
  destruct (RemoveCandidate_trace b p d c L Hd) as (Hb & singles & He & Hs).
  unfold auto_state. rewrite He, !replay_app, replay_eliminated.
  destruct Hs as [->|(x & Hx & Hsize & ->)]; [by left|].
  rewrite replay_single by apply replay_enabled.
  destruct (decide (Listener id ∈ notifier c)); [|by left].
  right. exists c, x. apply HasCandidate_true in Hd as [Hv _].
  split; [done|]. split; [done|]. split; [|done].
  rewrite Hb, lookup_insert_eq. f_equal. f_equal.
  apply size_1_elem_of in Hsize as [y Hy]. apply leibniz_equiv in Hy.
  rewrite Hy in Hx |- *. unfold GetCandidatesAsSlice in Hx.
  apply list_elem_of_filter in Hx as [Hx _]. by apply elem_of_singleton in Hx as ->.
Qed.

Lemma tracked_shrinks id b b' : tracked id b → shrinks b b' → tracked id b'.
Proof.
  intros Ht Hs p cell' L'.
  destruct (shrinks_lookup_inv _ _ _ _ Hs L') as (cell & L & (_&_&_&_&Hn&_)).
  rewrite Hn. by eapply Ht.
Qed.

Lemma listed_cell_shrinks b b' r c d :
  shrinks b b' →
  (∃ cell, board b !! (r * 9 + c) = Some cell ∧ row cell = r ∧ col cell = c
           ∧ value cell = 0 ∧ candidates cell ⊆ {[d]}) →
  ∃ cell, board b' !! (r * 9 + c) = Some cell ∧ row cell = r ∧ col cell = c
          ∧ value cell = 0 ∧ candidates cell ⊆ {[d]}.
Proof.
  intros Hs (cell & L & Hr & Hc & Hv & Hsub).
  destruct (shrinks_lookup _ _ _ _ Hs L) as (cell' & L' & (Er&Ec&_&Ev&_&Hsub')).
  exists cell'. rewrite Er, Ec, Ev. split; [done|]. split; [done|]. split; [done|].
  split; [done|]. by etransitivity.
Qed.

Lemma watching_remove id busy b p d :
  watching id busy b → watching id busy (RemoveCandidate b p d).
Proof.
  intros (Hok & Htr & Hl).
  pose proof (RemoveCandidate_shrinks b p d) as Hs.
  split; [by eapply board_ok_shrinks|]. split; [by eapply tracked_shrinks|].
  intros r c x Hentry.
  destruct (auto_RemoveCandidate id b p d) as [E|(c0 & y & L & Hv & L' & E)];
    rewrite E in Hentry.
  - destruct (Hl r c x Hentry) as [?|Hcell]; [by left|right].
    by eapply listed_cell_shrinks.
  - apply lookup_insert_Some in Hentry as [[[= <- <-] <-]|[Hne Hentry]].
    + right. destruct (proj2 Hok p c0 L) as (_ & _ & Hp & _).
      exists (with_candidates c0 {[y]}). rewrite <- Hp. by split.
    + destruct (Hl r c x Hentry) as [?|Hcell]; [by left|right].
      by eapply listed_cell_shrinks.
Qed.

Lemma auto_state_record id b o e :
  auto_state id (record b o e)
  = if decide (o = Listener id) then deliver (auto_state id b) e else auto_state id b.
Proof. unfold auto_state, record. cbn [events]. by rewrite replay_app. Qed.

(** Telling the observers of a cell that is set, one after the other. *)
Lemma NotifyCellSolved_watching id r c v obs : ∀ b,
  watching id (Some (r, c)) b → solved_at (r, c) b →
  unlisted id (r, c) b ∨ Listener id ∈ obs →
  watching id (Some (r, c)) (NotifyCellSolved b obs r c v)
  ∧ unlisted id (r, c) (NotifyCellSolved b obs r c v).
Proof.
  unfold NotifyCellSolved.
  induction obs as [|o obs IH]; intros b Hw Hs Hu; cbn [fold_left].
  { destruct Hu as [Hu|Hin]; [done|by apply elem_of_nil in Hin]. }
  set (b1 := record b o (CellSolved r c v)).
  assert (watching id (Some (r, c)) b1) as Hw1.
  { destruct Hw as (Hok & Htr & Hl). split; [done|]. split; [done|].
    intros r' c' d Hentry. apply (Hl r' c' d).
    subst b1. rewrite auto_state_record in Hentry.
    destruct (decide (o = Listener id)); [|done].
    cbn [deliver] in Hentry. unfold Auto_OnCellSolved in Hentry.
    rewrite auto_state_enabled in Hentry. cbn [negb cellsToSolve] in Hentry.
    by apply lookup_delete_Some in Hentry as [_ ?]. }
  assert (solved_at (r, c) b1) as Hs1 by done.
  assert (unlisted id (r, c) b1 ∨ Listener id ∈ obs) as Hu1.
  { destruct (decide (o = Listener id)) as [->|Hne].
    - left. unfold unlisted. subst b1. rewrite auto_state_record.
      rewrite decide_True by done. cbn [deliver]. unfold Auto_OnCellSolved.
      rewrite auto_state_enabled. cbn [negb cellsToSolve]. apply lookup_delete_eq.
    - destruct Hu as [Hu|[?|Hin]%elem_of_cons]; [left|congruence|by right].
      unfold unlisted. subst b1. rewrite auto_state_record.
      by rewrite decide_False by done. }
  assert (∀ b2, shrinks b1 b2 →
            (watching id (Some (r, c)) b1 ∧ solved_at (r, c) b1 →
             watching id (Some (r, c)) b2 ∧ solved_at (r, c) b2) →
            (board_ok b1 ∧ solved_at (r, c) b1 ∧ unlisted id (r, c) b1 →
             board_ok b2 ∧ solved_at (r, c) b2 ∧ unlisted id (r, c) b2) →
            watching id (Some (r, c))
              (fold_left (λ b' o', OnCellSolved o' b' r c v) obs b2)
            ∧ unlisted id (r, c)
                (fold_left (λ b' o', OnCellSolved o' b' r c v) obs b2)) as Hnext.
  { intros b2 Hsh H1 H2. destruct (H1 (conj Hw1 Hs1)) as [Hw2 Hs2].
    apply IH; [done|done|].
    destruct Hu1 as [Hu1|Hin]; [left|by right].
    by destruct (H2 (conj (proj1 Hw1) (conj Hs1 Hu1))) as (_ & _ & ?). }
  unfold OnCellSolved, BaseConstraint_PropagateValueChange. cbv zeta. fold b1.
  destruct o as [k|lid]; (apply Hnext; [reflexivity|done|done]).
Qed.

Lemma watching_SetValue id b p v :
  watching id None b → watching id None (SetValue b p v).1.
Proof.
  intros (Hok & Htr & Hl). unfold SetValue.
  destruct ((v <? 0) || (v >? 9)) eqn:Ev; [done|].
  destruct (board b !! p) as [cell|] eqn:L; [|done].
  destruct (proj2 Hok p cell L) as (Hr & Hc & Hp & Hidx & Hval & Hcand & Hsolved).
  pose proof (cell_ok_in_range p cell (proj2 Hok p cell L)) as Hrange.
  assert (∀ r c cell0, row cell0 = r → col cell0 = c →
            board b !! (r * 9 + c) = Some cell0 → r * 9 + c = p →
            (r, c) = (row cell, col cell)) as Hsame.
  { intros r c cell0 <- <- L0 Heq. rewrite Heq in L0. congruence. }
  destruct (Z.eqb_spec v 0) as [->|Hv0]; cbn [negb fst].
  - split; [|split].
    + apply store_ok; [done| |done]. unfold cell_ok. cbn.
      repeat split; try lia; try done; by apply Hcand.
    + intros q cell0 L0. cbn [store board] in L0.
      destruct (decide (p = q)) as [->|Hne].
      * rewrite lookup_insert_eq in L0. apply (inj Some) in L0. subst cell0.
        cbn. by eapply Htr.
      * rewrite lookup_insert_ne in L0 by done. by eapply Htr.
    + intros r c d Hentry. right.
      destruct (Hl r c d Hentry) as [?|(cell0 & L0 & Hr0 & Hc0 & Hv0 & Hs0)]; [done|].
      cbn [store board].
      destruct (decide (p = r * 9 + c)) as [Heq|Hne].
      * rewrite <- Heq, lookup_insert_eq. rewrite <- Heq in L0.
        assert (cell0 = cell) as -> by congruence.
        exists (with_value cell 0). by cbn.
      * rewrite lookup_insert_ne by done. by exists cell0.
  - set (c2 := with_candidates (with_value cell v) ∅).
    assert (board_ok (store b p c2)) as Hok2.
    { apply store_ok; [done| |done]. unfold cell_ok. cbn.
      repeat split; try lia; try done; by intros ? ?%not_elem_of_empty. }
    assert (watching id (Some (row cell, col cell)) (store b p c2)) as Hw2.
    { split; [done|]. split.
      - intros q cell0 L0. cbn [store board] in L0.
        destruct (decide (p = q)) as [->|Hne].
        + rewrite lookup_insert_eq in L0. apply (inj Some) in L0. subst cell0.
          cbn. by eapply Htr.
        + rewrite lookup_insert_ne in L0 by done. by eapply Htr.
      - intros r c d Hentry.
        destruct (Hl r c d Hentry) as [?|(cell0 & L0 & Hr0 & Hc0 & Hv0' & Hs0)]; [done|].
        destruct (decide (p = r * 9 + c)) as [Heq|Hne].
        + left. f_equal. symmetry. by eapply Hsame.
        + right. cbn [store board]. rewrite lookup_insert_ne by done. by exists cell0. }
    assert (solved_at (row cell, col cell) (store b p c2)) as Hs2.
    { exists c2. cbn [fst snd store board]. rewrite <- Hp, lookup_insert_eq.
      split; [done|]. split; [done|]. split; [done|]. cbn. lia. }
    assert (Listener id ∈ notifier c2) as Hin by (cbn; by eapply Htr).
    destruct (NotifyCellSolved_watching id (row cell) (col cell) v (notifier c2)
                (store b p c2) Hw2 Hs2 (or_intror Hin)) as [(Hok3 & Htr3 & Hl3) Hun3].
    change (row c2) with (row cell). change (col c2) with (col cell).
    split; [done|]. split; [done|].
    intros r c d Hentry. destruct (Hl3 r c d Hentry) as [[= <- <-]|Hcell]; [|by right].
    unfold unlisted in Hun3. congruence.
Qed.

Lemma watching_more_observers id b b' :
  events b' = events b → board_ok b' →
  (∀ q, ∃ extra, board b' !! q
                 = (λ c, with_notifier c (notifier c ++ extra)) <$> board b !! q) →
  watching id None b → watching id None b'.
Proof.
  intros He Hok' Hb (Hok & Htr & Hl). split; [done|]. split.
  - intros q cell' L'. destruct (Hb q) as [extra E]. rewrite E in L'.
    destruct (board b !! q) as [cell|] eqn:L; [|done].
    apply (inj Some) in L'. subst cell'. cbn. apply elem_of_app. left. by eapply Htr.
  - intros r c d Hentry.
    assert (auto_state id b' = auto_state id b) as Ea
      by (unfold auto_state; by rewrite He).
    rewrite Ea in Hentry.
    destruct (Hl r c d Hentry) as [?|(cell & L & Hr & Hc & Hv & Hs)]; [done|].
    right. destruct (Hb (r * 9 + c)) as [extra E]. rewrite L in E.
    eexists. split; [exact E|]. by cbn.
Qed.

Lemma watching_run_op id b op :
  no_AddCandidate op = true → watching id None b → watching id None (run_op b op).
Proof.
  intros Hop Hw. destruct op as [r c v|k|o|r c d|r c d| |]; cbn [run_op];
    try discriminate Hop.
  - unfold Board_Set.
    destruct ((r <? 0) || (r >? 8) || (c <? 0) || (c >? 8)) eqn:E; [done|]. cbv zeta.
    destruct (board b !! (r * 9 + c)) as [cell|] eqn:L; [by apply watching_SetValue|].
    exfalso. destruct Hw as ([Hpop _] & _).
    destruct (Hpop (r * 9 + c)) as [x Hx]; [lia|congruence].
  - destruct (AddConstraint_fields b k) as (_ & _ & He & Hb).
    apply (watching_more_observers id b); [done| |by eauto|done].
    apply AddConstraint_ok, Hw.
  - destruct (Board_AddObserver_fields b o) as (_ & _ & He & Hb).
    apply (watching_more_observers id b); [done| | |done].
    + apply Board_AddObserver_ok, Hw.
    + intros q. rewrite Hb.
      destruct (decide (q ∈ seqZ 0 81)); [by exists [o]|]. exists [].
      destruct (board b !! q) as [cell|]; [|done]. cbn. by rewrite with_notifier_nil.
  - unfold on_cell. destruct (GetCellAt b r c) as [[p ?]|]; [|done].
    by apply watching_remove.
  - apply (ApplyPencilMarkConstraints_inv (watching id None)); [|done].
    intros b0 p d. apply watching_remove.
  - apply (ApplyAdvancedTechniques_inv (watching id None)); [|done].
    intros b0 p d. apply watching_remove.
Qed.

Lemma replay_others id evs a :
  (∀ oe, oe ∈ evs → oe.1 ≠ Listener id) → replay id evs a = a.
Proof.
  induction evs as [|oe evs IH]; intros H; [done|]. rewrite replay_cons.
  rewrite decide_False by (apply H; by left). apply IH.
  intros oe' Hin. apply H. by right.
Qed.

Lemma Board_AddObserver_lookup b o q :
  board_ok b →
  board (Board_AddObserver b o) !! q
  = (λ c, with_notifier c (notifier c ++ [o])) <$> board b !! q.
Proof.
  intros Hok. destruct (Board_AddObserver_fields b o) as (_ & _ & _ & Hb).
  rewrite Hb. destruct (board b !! q) as [c|] eqn:L; [|done].
  cbn [fmap option_fmap option_map].
  destruct (decide (q ∈ seqZ 0 81)) as [_|Hn]; [done|].
  exfalso. apply Hn. apply elem_of_seqZ.
  pose proof (cell_ok_in_range _ _ (proj2 Hok _ _ L)). lia.
Qed.

Lemma auto_state_start id b0 :
  (∀ oe, oe ∈ events b0 → oe.1 ≠ Listener id) →
  auto_state id (Board_AddObserver b0 (Listener id)) = NewAutoSolverObserver.
Proof.
  intros Hnew.
  destruct (Board_AddObserver_fields b0 (Listener id)) as (_ & _ & He & _).
  unfold auto_state. rewrite He. by apply replay_others.
Qed.

Lemma listed_start id b0 :
  (∀ oe, oe ∈ events b0 → oe.1 ≠ Listener id) →
  listed_ok id None (Board_AddObserver b0 (Listener id)).
Proof.
  intros Hnew r c d H. rewrite (auto_state_start id b0 Hnew) in H.
  unfold NewAutoSolverObserver in H. cbn [cellsToSolve] in H.
  rewrite lookup_empty in H. discriminate H.
Qed.

Lemma tracked_start id b0 :
  board_ok b0 → tracked id (Board_AddObserver b0 (Listener id)).
Proof.
  intros Hok q cell' L'.
  rewrite (Board_AddObserver_lookup b0 (Listener id) q Hok) in L'.
  destruct (board b0 !! q) as [cell|] eqn:L; [|discriminate L'].
  cbn [fmap option_fmap option_map] in L'. apply (inj Some) in L'. subst cell'.
  cbn [with_notifier notifier]. apply elem_of_app. right. left.
Qed.

Lemma watching_start id b0 :
  board_ok b0 → (∀ oe, oe ∈ events b0 → oe.1 ≠ Listener id) →
  watching id None (Board_AddObserver b0 (Listener id)).
Proof.
  intros Hok Hnew. split; [apply Board_AddObserver_ok; exact Hok|].
  split; [exact (tracked_start id b0 Hok)|exact (listed_start id b0 Hnew)].
Qed.

Lemma watching_run_ops id ops : ∀ b,
  forallb no_AddCandidate ops = true → watching id None b →
  watching id None (run_ops b ops).
Proof.
  induction ops as [|op ops IH]; intros b Hops Hw; [done|].
  cbn [forallb] in Hops. apply andb_true_iff in Hops as [H1 H2].
  unfold run_ops. cbn [fold_left]. apply IH; [done|]. by apply watching_run_op.
Qed.

(** X27.  An auto-solve observer registered with the whole grid before it
    has been told anything, and left enabled: whatever sets (legal or not),
    clears, removals, registrations and deduction passes follow, as long as
    no candidate is added back by hand, every cell it lists as solvable by
    a digit is an unsolved cell of the grid with no candidate but that
    digit. *)
Theorem auto_solver_lists_forced_cells (id : nat) (b0 : Board) (ops : list Op)
    (r c d : Z) :
  board_ok b0 → (∀ oe, oe ∈ events b0 → oe.1 ≠ Listener id) →
  forallb no_AddCandidate ops = true →
  cellsToSolve (auto_state id (run_ops (Board_AddObserver b0 (Listener id)) ops))
    !! (r, c) = Some d →
  ∃ cell, board (run_ops (Board_AddObserver b0 (Listener id)) ops) !! (r * 9 + c)
          = Some cell
          ∧ row cell = r ∧ col cell = c ∧ value cell = 0 ∧ candidates cell ⊆ {[d]}.
Proof.
  intros Hok Hnew Hops Hentry.
  destruct (watching_run_ops id ops _ Hops (watching_start id b0 Hok Hnew))
    as (_ & _ & Hl).
  destruct (Hl r c d Hentry) as [Hbusy|H]; [discriminate Hbusy|exact H].
Qed.

Lemma auto_solver_lists_forced_cells_witness :
  ∃ cell, board (run_ops (Board_AddObserver NewBoard (Listener 0)) single_out_play)
            !! (0 * 9 + 0) = Some cell
          ∧ row cell = 0 ∧ col cell = 0 ∧ value cell = 0 ∧ candidates cell ⊆ {[9]}.
Proof.
  assert (∀ oe, oe ∈ events NewBoard → oe.1 ≠ Listener 0) as Hnew.
  { intros oe Hin. exfalso. exact (proj1 (elem_of_nil oe) Hin). }
  assert (forallb no_AddCandidate single_out_play = true) as Hops
    by (vm_compute; reflexivity).
  assert (cellsToSolve (auto_state 0 (run_ops (Board_AddObserver NewBoard (Listener 0))
                                        single_out_play)) !! (0, 0) = Some 9) as Hentry
    by (vm_compute; reflexivity).
  exact (auto_solver_lists_forced_cells 0 NewBoard single_out_play 0 0 9
           NewBoard_ok Hnew Hops Hentry).
Defined.

(** ** Validation of the whole grid *)

Lemma IsValid_no_error k b : (IsValid k (Some b)).2 = None.
Proof.
  destruct k; cbn [IsValid]; try done.
  - destruct (negb _); [done|]. by destruct (negb _).
  - destruct (existsb _ _); [done|]. by destruct (negb _).
Qed.

Lemma validate_from_spec b ks :
  (validate_from b ks).2 = None
  ∧ ((validate_from b ks).1 = true ↔ ∀ k, k ∈ ks → (IsValid k (Some b)).1 = true).
Proof.
  induction ks as [|k ks [IH1 IH2]]; cbn [validate_from].
  - split; [done|]. split; [by intros _ k ?%elem_of_nil|done].
  - pose proof (IsValid_no_error k b) as He.
    destruct (IsValid k (Some b)) as [ok err] eqn:E. cbn [snd] in He. subst err.
    destruct ok; cbn [fst].
    + split; [exact IH1|]. rewrite IH2. split.
      * intros H k' [->|Hin]%elem_of_cons; [by rewrite E|by apply H].
      * intros H k' Hin. apply H. by right.
    + split; [done|]. split; [done|]. intros H.
      assert (k ∈ k :: ks) as Hk by (by left).
      apply H in Hk. by rewrite E in Hk.
Qed.

Lemma whispers_ok_spec vals :
  whispers_ok vals = true ↔
  ∀ i v1 v2, vals !! i = Some v1 → vals !! S i = Some v2 →
             v1 ≠ 0 → v2 ≠ 0 → 5 <= Z.abs (v1 - v2).
Proof.
  induction vals as [|x vals IH]; [by split|].
  destruct vals as [|y vals]; [split; [by intros _ [|[|i]] ? ? ? ?|done]|].
  change (whispers_ok (x :: y :: vals))
    with (if (x =? 0) || (y =? 0) then whispers_ok (y :: vals)
          else if Z.abs (x - y) <? 5 then false else whispers_ok (y :: vals)).
  assert (whispers_ok (y :: vals) = true ∧
            (x ≠ 0 → y ≠ 0 → 5 <= Z.abs (x - y))
          ↔ ∀ i v1 v2, (x :: y :: vals) !! i = Some v1 →
                       (x :: y :: vals) !! S i = Some v2 →
                       v1 ≠ 0 → v2 ≠ 0 → 5 <= Z.abs (v1 - v2)) as Hstep.
  { rewrite IH. split.
    - intros [Ht Hh] [|i] v1 v2 L1 L2.
      + cbn in L1, L2. injection L1 as <-. injection L2 as <-. exact Hh.
      + apply (Ht i v1 v2); done.
    - intros H. split.
      + intros i v1 v2 L1 L2. by apply (H (S i) v1 v2).
      + by apply (H 0%nat x y). }
  rewrite <- Hstep.
  destruct (Z.eqb_spec x 0) as [Ex|Ex]; cbn [orb].
  - split; [intros H; split; [done|lia]|tauto].
  - destruct (Z.eqb_spec y 0) as [Ey|Ey].
    + split; [intros H; split; [done|lia]|tauto].
    + destruct (Z.ltb_spec (Z.abs (x - y)) 5) as [Hlt|Hge].
      * split; [done|]. intros [_ H]. specialize (H Ex Ey). lia.
      * split; [intros H; split; [done|lia]|tauto].
Qed.

(** X28.  [ValidateAll] never reports an error, and answers true exactly
    when [IsValid] does for every registered constraint.  For a killer cage
    that is: no digit twice, and the values sum to the target once the cage
    is full, to at most the target before.  For a German whispers line: any
    two filled cells next to each other on the line differ by 5 or more. *)
Theorem validation_spec (b : Board) :
  (ValidateAll b).2 = None
  ∧ ((ValidateAll b).1 = true
     ↔ ∀ k, k ∈ constraints b → (IsValid k (Some b)).1 = true)
  ∧ (∀ cells hb targetSum,
       (IsValid (KillerCageConstraint (mkBase cells hb) targetSum) (Some b)).1 = true
       ↔ HasUniqueNonZeros (scope_values b cells) = true
         ∧ (0 ∉ scope_values b cells → sum_list_Z (scope_values b cells) = targetSum)
         ∧ (0 ∈ scope_values b cells → sum_list_Z (scope_values b cells) <= targetSum))
  ∧ (∀ cells hb,
       (IsValid (GermanWhispersConstraint (mkBase cells hb)) (Some b)).1 = true
       ↔ ∀ i v1 v2,
           scope_values b cells !! i = Some v1 → scope_values b cells !! S i = Some v2 →
           v1 ≠ 0 → v2 ≠ 0 → 5 <= Z.abs (v1 - v2)).
Proof.
  destruct (validate_from_spec b (constraints b)) as [H1 H2].
  split; [exact H1|]. split; [exact H2|]. split.
  - intros cells hb targetSum. cbn [IsValid Cells].
    set (values := scope_values b cells).
    assert (existsb (Z.eqb 0) values = true ↔ 0 ∈ values) as Hempty.
    { rewrite existsb_exists. split.
      - intros (x & Hx & <-%Z.eqb_eq). by apply list_elem_of_In.
      - intros H. exists 0. split; [by apply list_elem_of_In|done]. }
    destruct (HasUniqueNonZeros values); cbn [negb fst]; [|split; [done|tauto]].
    destruct (existsb (Z.eqb 0) values) eqn:E; cbn [negb fst].
    + assert (0 ∈ values) as H0 by (by apply Hempty).
      rewrite Z.leb_le. split; [intros H; split; [done|split; [done|done]]|].
      intros (_ & _ & H). by apply H.
    + assert (0 ∉ values) as H0.
      { intros H. apply Hempty in H. congruence. }
      rewrite Z.eqb_eq. split; [intros H; split; [done|split; [done|done]]|].
      intros (_ & H & _). by apply H.
  - intros cells hb. cbn [IsValid Cells fst]. apply whispers_ok_spec.
Qed.

(** ** Reading a row, a column or a box *)

Lemma digit_cases (r : Z) :
  0 <= r <= 8 →
  r = 0 ∨ r = 1 ∨ r = 2 ∨ r = 3 ∨ r = 4 ∨ r = 5 ∨ r = 6 ∨ r = 7 ∨ r = 8.
Proof. lia. Qed.

(** X29.  [GetRow], [GetColumn] and [GetBox] return nine values each, and
    cell (r, c) of the grid is entry c of row r, entry r of column c, and
    entry (r mod 3) * 3 + c mod 3 of the box [GetBoxNumber] names for it;
    that box has its top left corner, as [GetBoxCoordinates] gives it, at
    (r - r mod 3, c - c mod 3). *)
Theorem lines_agree_with_Get (b : Board) (r c : Z) :
  0 <= r <= 8 → 0 <= c <= 8 →
  GetRow b r !! Z.to_nat c = Some (Get b r c)
  ∧ GetColumn b c !! Z.to_nat r = Some (Get b r c)
  ∧ GetBox b (GetBoxNumber r c) !! Z.to_nat (Z.rem r 3 * 3 + Z.rem c 3)
    = Some (Get b r c)
  ∧ GetBoxCoordinates (GetBoxNumber r c) = (r - Z.rem r 3, c - Z.rem c 3)
  ∧ length (GetRow b r) = 9%nat ∧ length (GetColumn b c) = 9%nat
  ∧ length (GetBox b (GetBoxNumber r c)) = 9%nat.
Proof.
  intros Hr Hc.
  apply digit_cases in Hr. apply digit_cases in Hc.
  destruct Hr as [->|[->|[->|[->|[->|[->|[->|[->| ->]]]]]]]];
    destruct Hc as [->|[->|[->|[->|[->|[->|[->|[->| ->]]]]]]]];
    repeat split; reflexivity.
Qed.

Lemma lines_agree_with_Get_witness :
  GetBox (Board_Set NewBoard 4 7 5).1 5 !! 4%nat = Some 5.
Proof.
  pose proof (lines_agree_with_Get (Board_Set NewBoard 4 7 5).1 4 7
                ltac:(lia) ltac:(lia)) as (_ & _ & H & _).
  assert (Get (Board_Set NewBoard 4 7 5).1 4 7 = 5) as E by (vm_compute; reflexivity).
  rewrite E in H.
  change (GetBoxNumber 4 7) with 5 in H.
  change (Z.to_nat (Z.rem 4 3 * 3 + Z.rem 7 3)) with 4%nat in H.
  exact H.
Defined.

(** ** What the constructors accept *)

Lemma on_grid_spec i : negb ((i <? 0) || (i >? 80)) = true ↔ 0 <= i <= 80.
Proof.
  destruct (Z.ltb_spec i 0), (Z.gtb_spec i 80); cbn; split; intros; try done; lia.
Qed.

Lemma cells_in_range_spec cells :
  cells_in_range cells = true ↔ ∀ i, i ∈ cells → 0 <= i <= 80.
Proof.
  unfold cells_in_range. rewrite forallb_forall. split.
  - intros H i Hi%list_elem_of_In. by apply on_grid_spec, H.
  - intros H i Hi%list_elem_of_In. by apply on_grid_spec, H.
Qed.

Lemma cells_out_of_range_spec cells :
  cells_in_range cells = false ↔ ∃ i, i ∈ cells ∧ ¬ 0 <= i <= 80.
Proof.
  split.
  - intros H. induction cells as [|i cells IH]; [done|].
    cbn [cells_in_range forallb] in H. apply andb_false_iff in H as [H|H].
    + exists i. split; [by left|]. intros Hi%on_grid_spec. congruence.
    + destruct (IH H) as (j & Hj & Hout). exists j. split; [by right|done].
  - intros (i & Hi & Hout). destruct (cells_in_range cells) eqn:E; [|done].
    exfalso. apply Hout. by apply (proj1 (cells_in_range_spec cells) E).
Qed.

Lemma Get_blank b r c : blank b → Get b r c = 0.
Proof.
  intros Hb. unfold Get. destruct (_ || _); [done|].
  destruct (board b !! (r * 9 + c)) as [cell|] eqn:E; [|done]. by apply (Hb _ _ E).
Qed.

Lemma scope_values_blank b cells :
  blank b → scope_values b cells = map (λ _, 0) cells.
Proof.
  intros Hb. unfold scope_values. apply map_ext. intros i. by apply Get_blank.
Qed.

Lemma unique_zeros {A} seen (l : list A) :
  HasUniqueNonZeros_from seen (map (λ _, 0) l) = true.
Proof. induction l as [|x l IH]; [done|]. exact IH. Qed.

Lemma whispers_zeros {A} (l : list A) : whispers_ok (map (λ _, 0) l) = true.
Proof.
  induction l as [|x l IH]; [done|]. destruct l as [|y l]; [done|]. exact IH.
Qed.

Lemma sum_zeros {A} (l : list A) : sum_list_Z (map (λ _, 0) l) = 0.
Proof.
  unfold sum_list_Z. induction l as [|x l IH]; [done|]. exact IH.
Qed.

Lemma GetRow_blank b r : blank b → GetRow b r = map (λ _, 0) (seqZ 0 9).
Proof.
  intros Hb. unfold GetRow. apply map_ext. intros i.
  destruct (board b !! (r * 9 + i)) as [cell|] eqn:E; [|done]. by apply (Hb _ _ E).
Qed.

Lemma GetColumn_blank b c : blank b → GetColumn b c = map (λ _, 0) (seqZ 0 9).
Proof.
  intros Hb. unfold GetColumn. apply map_ext. intros i.
  destruct (board b !! (i * 9 + c)) as [cell|] eqn:E; [|done]. by apply (Hb _ _ E).
Qed.

Lemma GetBox_blank b box : blank b → GetBox b box = map (λ _, 0) (seqZ 0 9).
Proof.
  intros Hb. unfold GetBox.
  assert (∀ k, match board b !! k with Some cell => value cell | None => 0 end = 0) as Hz.
  { intros k. destruct (board b !! k) as [cell|] eqn:E; [|done]. by apply (Hb _ _ E). }
  cbv zeta.
  rewrite (flat_map_ext _ (λ _, map (λ _, 0) (seqZ 0 3))); [done|].
  intros r. apply map_ext. intros c. apply Hz.
Qed.

Lemma NewBoard_blank : blank NewBoard.
Proof.
  intros i cell Hi.
  destruct (decide (0 <= i <= 80)) as [Hr|Hr].
  - rewrite NewBoard_lookup in Hi by done. by injection Hi as <-.
  - unfold NewBoard in Hi. cbn [board] in Hi.
    apply elem_of_list_to_map_2, list_elem_of_In, in_map_iff in Hi as (j & Hj & Hin).
    by injection Hj as <- <-.
Qed.

(** X30.  What the constructors of the variant constraints accept.  A killer
    cage is refused exactly when its cell list is empty, names a cell
    outside 0..80, or its target is outside 1..45; a renban line when the
    list is empty or names such a cell; a whispers line when it has fewer
    than two cells or names such a cell.  Whatever any of the six
    constructors returns has a scope that is not empty and lies on the grid,
    is not yet attached to a grid, and is valid on every grid without values,
    the new grid among them. *)
Theorem constructors_accept :
  (∀ cells targetSum,
     NewKillerCageConstraint cells targetSum = None
     ↔ cells = [] ∨ (∃ i, i ∈ cells ∧ ¬ 0 <= i <= 80) ∨ ¬ 1 <= targetSum <= 45)
  ∧ (∀ cells,
       NewRenbanConstraint cells = None
       ↔ cells = [] ∨ (∃ i, i ∈ cells ∧ ¬ 0 <= i <= 80))
  ∧ (∀ cells,
       NewGermanWhispersConstraint cells = None
       ↔ (length cells < 2)%nat ∨ (∃ i, i ∈ cells ∧ ¬ 0 <= i <= 80))
  ∧ (∀ k, built k →
       GetCells k ≠ []
       ∧ (∀ i, i ∈ GetCells k → 0 <= i <= 80)
       ∧ HasBoard (GetBase k) = false
       ∧ (∀ b, blank b → IsValid k (Some b) = (true, None)))
  ∧ blank NewBoard.
Proof.
  split; [|split; [|split; [|split; [|exact NewBoard_blank]]]].
  - intros cells t. unfold NewKillerCageConstraint.
    case_bool_decide as Hnil; [split; [by left|done]|].
    destruct (cells_in_range cells) eqn:Hrange; cbn [negb].
    + destruct (Z.ltb_spec t 1) as [H1|H1]; cbn [orb].
      * split; [intros _; right; right; lia|done].
      * rewrite Z.gtb_ltb. destruct (Z.ltb_spec 45 t) as [H2|H2].
        -- split; [intros _; right; right; lia|done].
        -- split; [done|]. intros [H|[H|H]]; [done| |lia].
           apply cells_out_of_range_spec in H. congruence.
    + split; [|done]. intros _. right. left. by apply cells_out_of_range_spec.
  - intros cells. unfold NewRenbanConstraint.
    case_bool_decide as Hnil; [split; [by left|done]|].
    destruct (cells_in_range cells) eqn:Hrange; cbn [negb].
    + split; [done|]. intros [H|H]; [done|].
      apply cells_out_of_range_spec in H. congruence.
    + split; [|done]. intros _. right. by apply cells_out_of_range_spec.
  - intros cells. unfold NewGermanWhispersConstraint.
    destruct (Nat.ltb_spec (length cells) 2) as [Hlen|Hlen];
      [split; [by left|done]|].
    destruct (cells_in_range cells) eqn:Hrange; cbn [negb].
    + split; [done|]. intros [H|H]; [lia|].
      apply cells_out_of_range_spec in H. congruence.
    + split; [|done]. intros _. right. by apply cells_out_of_range_spec.
  - intros k [[r H]|[[c H]|[[box H]|[(cells & t & H)|[[cells H]|[cells H]]]]]].
    + unfold NewRowConstraint in H. destruct (_ || _) eqn:E; [done|].
      injection H as <-. apply orb_false_iff in E as [E1 E2].
      apply Z.ltb_ge in E1. rewrite Z.gtb_ltb in E2. apply Z.ltb_ge in E2.
      split; [done|]. split; [|split; [done|]].
      * intros i Hi. cbn in Hi. set_unfold in Hi. lia.
      * intros b Hb. cbn [IsValid]. rewrite GetRow_blank by done.
        unfold HasUniqueNonZeros. by rewrite unique_zeros.
    + unfold NewColumnConstraint in H. destruct (_ || _) eqn:E; [done|].
      injection H as <-. apply orb_false_iff in E as [E1 E2].
      apply Z.ltb_ge in E1. rewrite Z.gtb_ltb in E2. apply Z.ltb_ge in E2.
      split; [done|]. split; [|split; [done|]].
      * intros i Hi. cbn in Hi. set_unfold in Hi. lia.
      * intros b Hb. cbn [IsValid]. rewrite GetColumn_blank by done.
        unfold HasUniqueNonZeros. by rewrite unique_zeros.
    + unfold NewBoxConstraint in H. destruct (_ || _) eqn:E; [done|].
      injection H as <-. apply orb_false_iff in E as [E1 E2].
      apply Z.ltb_ge in E1. rewrite Z.gtb_ltb in E2. apply Z.ltb_ge in E2.
      split; [done|]. split; [|split; [done|]].
      * intros i Hi. cbn in Hi.
        assert (0 <= Z.quot box 3 * 3 <= 6 ∧ 0 <= Z.rem box 3 * 3 <= 6) as [Hq Hm].
        { pose proof (Z.quot_rem' box 3). pose proof (Z.rem_bound_pos box 3).
          assert (0 <= Z.quot box 3) by (apply Z.quot_pos; lia). lia. }
        set_unfold in Hi. lia.
      * intros b Hb. cbn [IsValid]. rewrite GetBox_blank by done.
        unfold HasUniqueNonZeros. by rewrite unique_zeros.
    + unfold NewKillerCageConstraint in H.
      case_bool_decide as Hnil; [done|].
      destruct (cells_in_range cells) eqn:Hrange; [|done]. cbn [negb] in H.
      destruct (_ || _) eqn:E; [done|]. injection H as <-.
      apply orb_false_iff in E as [E1 E2].
      apply Z.ltb_ge in E1. rewrite Z.gtb_ltb in E2. apply Z.ltb_ge in E2.
      split; [done|]. split; [by apply cells_in_range_spec|]. split; [done|].
      intros b Hb. cbn [IsValid Cells]. rewrite scope_values_blank by done.
      unfold HasUniqueNonZeros. rewrite unique_zeros, sum_zeros. cbn [negb].
      destruct cells as [|i cells]; [done|]. cbn [map existsb Z.eqb orb negb].
      f_equal. apply Z.leb_le. lia.
    + unfold NewRenbanConstraint in H.
      case_bool_decide as Hnil; [done|].
      destruct (cells_in_range cells) eqn:Hrange; [|done]. cbn [negb] in H.
      injection H as <-.
      split; [done|]. split; [by apply cells_in_range_spec|]. split; [done|].
      intros b Hb. cbn [IsValid Cells]. rewrite scope_values_blank by done.
      destruct cells as [|i cells]; [done|]. cbn [map existsb Z.eqb orb].
      unfold HasUniqueNonZeros. by rewrite (unique_zeros ∅ (i :: cells)).
    + unfold NewGermanWhispersConstraint in H.
      destruct (Nat.ltb_spec (length cells) 2) as [Hlen|Hlen]; [done|].
      destruct (cells_in_range cells) eqn:Hrange; [|done]. cbn [negb] in H.
      injection H as <-.
      split; [intros E; unfold GetCells in E; cbn in E; subst cells; cbn in Hlen; lia|].
      split; [by apply cells_in_range_spec|]. split; [done|].
      intros b Hb. cbn [IsValid Cells]. rewrite scope_values_blank by done.
      by rewrite whispers_zeros.
Qed.
